(** * Link resolution, click tracking and geo lookup of the URL shortener

    A shallow embedding of

    - [src/controllers/track.controller.js]  ([redirectHandler]),
    - [src/controllers/link.controller.js]   ([createLink], [getLinkStats],
      [updateLink], [deleteLink], [listLinks] and the three bulk
      handlers),
    - [src/services/webhook.service.js]      ([sendWebhook]),
    - [src/services/geo.service.js]          ([lookup]),
    - [src/middleware/pagination.js]         ([paginationMiddleware]),
    - [src/server.js]                        (the routes up to [/:slug]),

    together with the properties the specification states about them.
    JavaScript values are modelled as far as the handlers inspect them
    (truthiness, [||], [!==], property access); the relational store,
    the console and the outgoing HTTP calls are an explicit world that a
    small state-and-exception monad threads through the handlers. *)

From Stdlib Require Import ZArith Lia Ascii String.
From stdpp Require Import base option gmap strings list pretty sorting.

Local Open Scope Z_scope.
Local Open Scope string_scope.

(** ** JavaScript values *)

Module JS.

(** A finite number is [m * 2^e]; only its being zero is ever inspected. *)
Inductive value : Type :=
| VUndefined
| VNull
| VBool (b : bool)
| VNum (m e : Z)
| VNaN
| VStr (s : string)
| VObj (o : props)
with props : Type :=
| PNil
| PCons (k : string) (v : value) (rest : props).

(** Own-property lookup; a missing property reads as [undefined]. *)
Fixpoint prop (k : string) (o : props) : value :=
  match o with
  | PNil => VUndefined
  | PCons k' v rest => if String.eqb k k' then v else prop k rest
  end.

(** ToBoolean *)
Definition truthy (v : value) : bool :=
  match v with
  | VUndefined | VNull | VNaN => false
  | VBool b => b
  | VNum m _ => negb (m =? 0)%Z
  | VStr s => negb (String.eqb s "")
  | VObj _ => true
  end.

(** [a || b] *)
Definition or (a b : value) : value := if truthy a then a else b.

(** Equality of two finite numbers [m * 2^e] and [m' * 2^e']. *)
Definition num_eqb (m e m' e' : Z) : bool :=
  let d := Z.min e e' in
  (m * 2 ^ (e - d) =? m' * 2 ^ (e' - d))%Z.

(** [a !== b]. Operands of different types differ, strings are compared
    by content, [NaN] differs from everything. Objects are equal only by
    reference; the handlers never compare an object with itself, so two
    objects count as different. *)
Definition strict_ne (a b : value) : bool :=
  match a, b with
  | VUndefined, VUndefined | VNull, VNull => false
  | VBool x, VBool y => negb (Bool.eqb x y)
  | VNum m e, VNum m' e' => negb (num_eqb m e m' e')
  | VStr s, VStr s' => negb (String.eqb s s')
  | _, _ => true
  end.

(** [v?.k] *)
Definition opt_prop (v : value) (k : string) : value :=
  match v with
  | VObj o => prop k o
  | _ => VUndefined
  end.

(** A nullable text column as Prisma hands it to JavaScript. *)
Definition of_text (o : option string) : value :=
  match o with Some s => VStr s | None => VNull end.

End JS.
Export JS.

(** ** Errors and the handler monad *)

Inductive error : Type :=
| PrismaError (msg : string)
| TypeError (msg : string)
| FetchError (msg : string)
| AxiosError (msg : string).

(** [e.message] *)
Definition message (e : error) : string :=
  match e with
  | PrismaError m | TypeError m | FetchError m | AxiosError m => m
  end.

Inductive result (A : Type) : Type :=
| Ok (a : A)
| Throw (e : error).
Arguments Ok {A} a.
Arguments Throw {A} e.

Module Monad.
Section WithState.
Context {S : Type}.

Definition M (A : Type) : Type := S → result A * S.

Definition ret {A} (a : A) : M A := λ s, (Ok a, s).

Definition bind {A B} (m : M A) (k : A → M B) : M B :=
  λ s, match m s with
       | (Ok a, s') => k a s'
       | (Throw e, s') => (Throw e, s')
       end.

Definition throw {A} (e : error) : M A := λ s, (Throw e, s).

(** [try { m } catch (e) { h e }] *)
Definition try_catch {A} (m : M A) (h : error → M A) : M A :=
  λ s, match m s with
       | (Ok a, s') => (Ok a, s')
       | (Throw e, s') => h e s'
       end.

Definition get : M S := λ s, (Ok s, s).
Definition modify (f : S → S) : M unit := λ s, (Ok tt, f s).
End WithState.
Arguments M : clear implicits.
End Monad.
Import Monad.

Notation "x <- m ;; k" := (bind m (λ x, k))
  (at level 100, m at next level, right associativity, only parsing).
Notation "m ;;; k" := (bind m (λ _, k))
  (at level 100, right associativity, only parsing).

(** [v.k]: reading a property of [undefined] or [null] throws. *)
Definition get_prop {S : Type} (v : value) (k : string) : M S value :=
  match v with
  | VUndefined => throw (TypeError "Cannot read properties of undefined")
  | VNull => throw (TypeError "Cannot read properties of null")
  | _ => ret (opt_prop v k)
  end.

(** [a || b] where reading [b] may throw: [b] is read only when [a] is
    falsy. *)
Definition or_else {S : Type} (a : value) (b : M S value) : M S value :=
  if truthy a then ret a else b.

(** ** Data model (the Link and Click tables) *)

Record Link : Type := mkLink {
  link_id : Z;
  link_slug : string;
  link_destination : string;
  link_title : option string;
  link_apiKeyId : Z;
  link_createdAt : Z;                 (* milliseconds since the epoch *)
  link_password : option string;      (* TEXT, nullable *)
  link_expiresAt : option Z;          (* DATETIME, nullable *)
  link_webhookUrl : option string;
  link_meta : value;
}.

(** The object literal [clickData] of [redirectHandler]. *)
Record ClickData : Type := mkClickData {
  cd_ip : value;
  cd_country : value;
  cd_region : value;
  cd_city : value;
  cd_ua : value;
  cd_referrer : value;
  cd_headers : props;                  (* the object given to JSON.stringify *)
  cd_occurredAt : Z;
}.

Record Click : Type := mkClick {
  click_id : Z;
  click_linkId : Z;
  click_data : ClickData;
}.

(** The JSON body [sendWebhook] posts. *)
Record WebhookPayload : Type := mkPayload {
  wp_event : string;
  wp_click : ClickData;
  wp_link_id : Z;
  wp_link_slug : string;
  wp_link_destination : string;
  wp_link_title : option string;
  wp_link_createdAt : Z;
  wp_link_expiresAt : option Z;
  wp_timestamp : Z;
}.

(** Observable side effects, oldest first. *)
Inductive event : Type :=
| ClickCreated (c : Click)
| LinkCreated (l : Link)
| ConsoleError (tag : string) (msg : string)
| WebhookPost (url : string) (payload : WebhookPayload).

Record World : Type := mkWorld {
  links : gmap string Link;           (* unique index on slug *)
  clicks : list Click;
  next_link_id : Z;
  next_click_id : Z;
  trace : list event;
}.

(** What the handler does not control: the clock, whether a call to the
    store rejects (store unreachable, row refused), whether a webhook
    receiver answers, and the random values drawn by uuid and bcrypt. The
    clock is read once per request: the handler's [new Date()] calls see
    the same instant. *)
Record Env : Type := mkEnv {
  now : Z;
  link_lookup_fails : bool;
  link_insert_fails : bool;
  click_insert_fails : bool;
  post_fails : string → bool;
  fresh_uuid : string;
  fresh_salt : string;
  parse_date : value → option Z;      (* [new Date(v)], [None] = Invalid Date *)
}.

Definition emit (e : event) : M World unit :=
  modify (λ w, mkWorld (links w) (clicks w) (next_link_id w) (next_click_id w)
                       (trace w ++ [e])).

(** [console.error(tag, msg)] *)
Definition console_error (tag msg : string) : M World unit :=
  emit (ConsoleError tag msg).

(** ** bcrypt

    [bcrypt.hash(data, rounds)] draws a random salt and returns the
    60-character modular-crypt string ["$2b$10$" ++ salt22 ++ digest31].
    The library is not part of the repository: it is taken as an
    interface, the salt made an explicit argument. *)
Class Bcrypt : Type := {
  bcrypt_hash : string → string → Z → string;   (* salt, data, rounds *)
  bcrypt_hash_length :
    ∀ salt data rounds, String.length (bcrypt_hash salt data rounds) = 60%nat;
}.

(** ** Express requests and responses *)

Record Request : Type := mkRequest {
  req_params_slug : string;          (* req.params.slug *)
  req_query_password : value;        (* req.query.password *)
  req_body : value;                  (* req.body, as bodyParser.json() left it *)
  req_logger : value;                (* req._logger, set by requestLogger *)
  req_ip : value;                    (* req.ip *)
  req_headers : props;               (* req.headers *)
  req_apiKey_id : Z;                 (* req.apiKey.id *)
  req_protocol : string;
  req_host : string;                 (* req.get("host") *)
}.

Inductive Response : Type :=
| Send (status : Z) (text : string)           (* res.status(n).send(text) *)
| SendJson (status : Z) (body : props)        (* res.status(n).json(obj) *)
| Redirect (status : Z) (target : string).    (* res.redirect(url) *)

Definition status_of (r : Response) : Z :=
  match r with
  | Send n _ | SendJson n _ | Redirect n _ => n
  end.

(** ** Prisma calls *)

(** [prisma.link.findUnique({ where: { slug } })] *)
Definition link_findUnique (env : Env) (slug : string) : M World (option Link) :=
  if link_lookup_fails env
  then throw (PrismaError "Can't reach database server")
  else w <- get ;; ret (links w !! slug).

(** [prisma.click.create({ data: { linkId, ...clickData } })] *)
Definition click_create (env : Env) (linkId : Z) (data : ClickData)
  : M World Click :=
  if click_insert_fails env
  then throw (PrismaError "Can't reach database server")
  else
    w <- get ;;
    let c := mkClick (next_click_id w) linkId data in
    modify (λ w, mkWorld (links w) (clicks w ++ [c]) (next_link_id w)
                         (next_click_id w + 1) (trace w)) ;;;
    emit (ClickCreated c) ;;;
    ret c.

(** ** webhook.service.js *)

(** [axios.post(url, payload, ...)]: the request goes out, then the
    receiver answers or the call rejects. *)
Definition axios_post (env : Env) (url : string) (payload : WebhookPayload)
  : M World unit :=
  emit (WebhookPost url payload) ;;;
  if post_fails env url
  then throw (AxiosError "connect ECONNREFUSED")
  else ret tt.

(** The object literal [payload] of [sendWebhook]. *)
Definition make_payload (env : Env) (clickData : ClickData) (linkData : Link)
  : WebhookPayload :=
  mkPayload "link_click" clickData
            (link_id linkData) (link_slug linkData)
            (link_destination linkData) (link_title linkData)
            (link_createdAt linkData) (link_expiresAt linkData)
            (now env).

Definition sendWebhook (env : Env) (webhookUrl : value) (clickData : ClickData)
    (linkData : Link) : M World unit :=
  if negb (truthy webhookUrl) then ret tt
  else
    try_catch
      (let payload := make_payload env clickData linkData in
       match webhookUrl with
       | VStr url => axios_post env url payload
       | _ => throw (TypeError "Invalid URL")
       end)
      (λ error, console_error "Webhook delivery failed:" (message error)).

(** ** track.controller.js *)

Definition make_clickData (env : Env) (req : Request) : ClickData :=
  let ip := JS.or (opt_prop (req_logger req) "ip") (req_ip req) in
  let geo := JS.or (opt_prop (req_logger req) "geo") (VObj PNil) in
  let ua := prop "user-agent" (req_headers req) in
  let ref := JS.or (prop "referer" (req_headers req))
                   (JS.or (prop "referrer" (req_headers req)) VNull) in
  mkClickData ip
    (JS.or (opt_prop geo "country") VNull)
    (JS.or (opt_prop geo "region") VNull)
    (JS.or (opt_prop geo "city") VNull)
    ua ref
    (PCons "accept-language" (prop "accept-language" (req_headers req))
      (PCons "x-forwarded-for" (prop "x-forwarded-for" (req_headers req)) PNil))
    (now env).

Definition challenge_body : props :=
  PCons "error" (VStr "Password required") (PCons "challenge" (VBool true) PNil).

(** Lines 60-100 of [redirectHandler]: record the click, notify, redirect.
    [sendWebhook] is not awaited; what it does is recorded in the trace in
    program order, the response does not depend on it. *)
Definition record_and_redirect (env : Env) (req : Request) (link : Link)
  : M World Response :=
  let clickData := make_clickData env req in
  try_catch
    (_ <- click_create env (link_id link) clickData ;; ret tt)
    (λ e, console_error "Failed to record click" (message e)) ;;;
  (if truthy (of_text (link_webhookUrl link))
   then try_catch
          (sendWebhook env (of_text (link_webhookUrl link)) clickData link)
          (λ err, console_error "Webhook error:" (message err))
   else ret tt) ;;;
  ret (Redirect 302 (link_destination link)).

(** [req.query.password || req.body.password] *)
Definition read_providedPassword (req : Request) : M World value :=
  or_else (req_query_password req) (get_prop (req_body req) "password").

Definition redirectHandler (env : Env) (req : Request) : M World Response :=
  let slug := req_params_slug req in
  link <- link_findUnique env slug ;;
  match link with
  | None => ret (Send 404 "Not found")
  | Some link =>
    (* link.expiresAt && new Date() > new Date(link.expiresAt);
       a Date object is always truthy *)
    if match link_expiresAt link with
       | Some expiresAt => now env >? expiresAt
       | None => false
       end
    then ret (Send 410 "Gone")
    else if truthy (of_text (link_password link)) then
      providedPassword <- read_providedPassword req ;;
      if negb (truthy providedPassword)
         || strict_ne providedPassword (of_text (link_password link))
      then ret (SendJson 401 challenge_body)
      else record_and_redirect env req link
    else record_and_redirect env req link
  end.

(** ** link.controller.js *)

(** A value given for a nullable text column: [undefined] and [null]
    leave it empty, anything but a string is a validation error. *)
Definition as_text (v : value) : result (option string) :=
  match v with
  | VStr s => Ok (Some s)
  | VUndefined | VNull => Ok None
  | _ => Throw (PrismaError "Invalid value provided. Expected String or Null")
  end.

Definition as_required_text (v : value) : result string :=
  match v with
  | VStr s => Ok s
  | _ => Throw (PrismaError "Invalid value provided. Expected String")
  end.

Definition lift {S A} (r : result A) : M S A := λ s, (r, s).

(** [prisma.link.create({ data })]: validates the columns, enforces the
    unique index on [slug], assigns the id. *)
Definition link_create (env : Env) (slug destination title : value)
    (apiKeyId : Z) (meta password : value) (expiresAt : option (option Z))
    (webhookUrl : value) : M World Link :=
  if link_insert_fails env
  then throw (PrismaError "Can't reach database server")
  else
    slug <- lift (as_required_text slug) ;;
    destination <- lift (as_required_text destination) ;;
    title <- lift (as_text title) ;;
    password <- lift (as_text password) ;;
    webhookUrl <- lift (as_text webhookUrl) ;;
    expiresAt <- match expiresAt with
                 | None => ret None
                 | Some (Some t) => ret (Some t)
                 | Some None => throw (PrismaError "Invalid Date")
                 end ;;
    w <- get ;;
    match links w !! slug with
    | Some _ =>
      throw (PrismaError "Unique constraint failed on the fields: (`slug`)")
    | None =>
      let l := mkLink (next_link_id w) slug destination title apiKeyId
                      (now env) password expiresAt webhookUrl meta in
      modify (λ w, mkWorld (<[slug := l]> (links w)) (clicks w)
                           (next_link_id w + 1) (next_click_id w) (trace w)) ;;;
      emit (LinkCreated l) ;;;
      ret l
    end.

(** Lines 79-102 of [createLink]: the [try] block and its [catch]. *)
Definition store_link (env : Env) (req : Request)
    (finalSlug hashedPassword : value) : M World Response :=
  let destination := opt_prop (req_body req) "destination" in
  let title := opt_prop (req_body req) "title" in
  let meta := opt_prop (req_body req) "meta" in
  let expiresAt := opt_prop (req_body req) "expiresAt" in
  let webhookUrl := opt_prop (req_body req) "webhookUrl" in
  try_catch
    (link <- link_create env finalSlug destination title
               (req_apiKey_id req) (JS.or meta (VObj PNil)) hashedPassword
               (if truthy expiresAt
                then Some (parse_date env expiresAt) else None)
               webhookUrl ;;
     ret (SendJson 200
            (PCons "slug" (VStr (link_slug link))
              (PCons "shortUrl"
                 (VStr (req_protocol req ++ "://" ++ req_host req ++ "/"
                        ++ link_slug link))
                (PCons "id" (VNum (link_id link) 0) PNil)))))
    (λ err, ret (SendJson 400
              (PCons "error" (VStr "Link creation failed")
                (PCons "details" (VStr (message err)) PNil)))).

Section LinkController.
Context `{Bcrypt}.

(** [await bcrypt.hash(data, rounds)]; anything but a string is refused. *)
Definition bcrypt_hash_js (env : Env) (data : value) (rounds : Z)
  : M World value :=
  match data with
  | VStr s => ret (VStr (bcrypt_hash (fresh_salt env) s rounds))
  | _ => throw (TypeError "data must be a string or Buffer")
  end.

Definition createLink (env : Env) (req : Request) : M World Response :=
  (* const { destination, slug, ..., password, ... } = req.body *)
  destination <- get_prop (req_body req) "destination" ;;
  let slug := opt_prop (req_body req) "slug" in
  let password := opt_prop (req_body req) "password" in
  if negb (truthy destination)
  then ret (SendJson 400
              (PCons "error" (VStr "destination is required") PNil))
  else
    (* uuidv4().slice(0, 8) *)
    let finalSlug := JS.or slug (VStr (String.substring 0 8 (fresh_uuid env))) in
    hashedPassword <- (if truthy password
                       then bcrypt_hash_js env password 10
                       else ret VNull) ;;
    store_link env req finalSlug hashedPassword.
End LinkController.

(** ** The cache of geo.service.js

    [new LRUCache({ max, ttl })] of the lru-cache package, as its
    documentation describes it: entries are kept in order of use, [get]
    of a live entry makes it the most recently used, [get] of an entry
    older than [ttl] deletes it and answers [undefined], [set] evicts the
    least recently used entry when the cache is full. *)
Module LRU.
Section Cache.
Context {V : Type}.
Variables (max : nat) (ttl : Z).

Record entry : Type := mkEntry { e_key : string; e_val : V; e_start : Z }.

(** Most recently used first. *)
Definition t : Type := list entry.

Definition is_key (k : string) (e : entry) : bool := String.eqb (e_key e) k.

Definition remove (k : string) (c : t) : t :=
  List.filter (λ e, negb (is_key k e)) c.

Definition is_stale (now : Z) (e : entry) : bool := now - e_start e >? ttl.

Definition get (now : Z) (k : string) (c : t) : option V * t :=
  match List.find (is_key k) c with
  | None => (None, c)
  | Some e =>
    if is_stale now e then (None, remove k c)
    else (Some (e_val e), e :: remove k c)
  end.

Definition set (now : Z) (k : string) (v : V) (c : t) : t :=
  let others := remove k c in
  let kept := if (length others <? max)%nat then others
              else firstn (max - 1) others in
  mkEntry k v now :: kept.
End Cache.
Arguments entry : clear implicits.
Arguments t : clear implicits.
End LRU.

(** ** geo.service.js *)

Module Geo.

(** The object [out] built by [lookup]. *)
Record GeoResult : Type := mkGeo {
  geo_ip : string;
  geo_country : value;
  geo_region : value;
  geo_city : value;
  geo_lat : value;
  geo_lon : value;
}.

(** What [await fetch(url)] and [await res.json()] can give. *)
Inductive fetch_outcome : Type :=
| NetworkFailure (msg : string)                  (* fetch rejects *)
| HttpResponse (ok : bool) (body : option value). (* [None]: body is not JSON *)

Inductive event : Type :=
| Fetch (url : string)
| ConsoleLog (tag : string) (data : value)
| ConsoleError (tag : string) (msg : string).

Record World : Type := mkWorld {
  cache : LRU.t GeoResult;
  trace : list event;
}.

Record Env : Type := mkEnv {
  now : Z;
  GEO_API_URL : value;                 (* process.env.GEO_API_URL *)
  provider : string → fetch_outcome;   (* what the provider answers now *)
}.

Definition cache_max : nat := 500.
Definition cache_ttl : Z := 1000 * 60 * 60.

(** [process.env.GEO_API_URL || "http://ip-api.com/json"] *)
Definition GEO_API (env : Env) : string :=
  match JS.or (GEO_API_URL env) (VStr "http://ip-api.com/json") with
  | VStr s => s
  | _ => "http://ip-api.com/json"
  end.

Definition emit (e : event) : M World unit :=
  modify (λ w, mkWorld (cache w) (trace w ++ [e])).

Definition cache_get (env : Env) (k : string) : M World (option GeoResult) :=
  λ w, let (r, c) := LRU.get cache_ttl (now env) k (cache w) in
       (Ok r, mkWorld c (trace w)).

Definition cache_set (env : Env) (k : string) (v : GeoResult) : M World unit :=
  modify (λ w, mkWorld (LRU.set cache_max (now env) k v (cache w)) (trace w)).

(** [await fetch(url, ...)] followed by reading [res.ok]. *)
Definition fetch (env : Env) (url : string) : M World (bool * option value) :=
  emit (Fetch url) ;;;
  match provider env url with
  | NetworkFailure msg => throw (FetchError msg)
  | HttpResponse ok body => ret (ok, body)
  end.

(** [await res.json()] *)
Definition res_json (body : option value) : M World value :=
  match body with
  | Some data => ret data
  | None => throw (TypeError "Unexpected token in JSON")
  end.

(** [ip] is a string, [null] or [undefined], as [getClientIp] returns it. *)
Definition lookup (env : Env) (ip : option string) : M World (option GeoResult) :=
  if negb (truthy (of_text ip)) then ret None
  else
    match ip with
    | None => ret None
    | Some ip =>
      cached <- cache_get env ip ;;
      match cached with
      | Some out => ret (Some out)
      | None =>
        try_catch
          (let url := GEO_API env ++ "/" ++ ip in
           res <- fetch env url ;;
           if negb (fst res) then ret None
           else
             data <- res_json (snd res) ;;
             emit (ConsoleLog "Geo data" data) ;;;
             status <- get_prop data "status" ;;
             if strict_ne status (VStr "success") then ret None
             else
               (* normalize *)
               country <- get_prop data "country" ;;
               regionName <- get_prop data "regionName" ;;
               region <- get_prop data "region" ;;
               city <- get_prop data "city" ;;
               lat <- get_prop data "lat" ;;
               lon <- get_prop data "lon" ;;
               let out :=
                 mkGeo ip
                       (JS.or country VNull)
                       (JS.or regionName (JS.or region VNull))
                       (JS.or city VNull)
                       (JS.or lat VNull)
                       (JS.or lon VNull) in
               cache_set env ip out ;;;
               ret (Some out))
          (λ e, emit (ConsoleError "Geo lookup failed" (message e)) ;;;
                ret None)
      end
    end.

End Geo.

(** ** JavaScript numbers and [parseInt]

    Strings hold the UTF-8 bytes of the JavaScript string. *)

Module Number.
Local Open Scope Z_scope.

(** A number as [parseInt] can return it: [NaN], an integer-valued double
    (with [-0] read as [0]), or an infinity. *)
Inductive jsnum : Type :=
| NaN
| Fin (z : Z)
| Inf (negative : bool).

(** The double nearest to an integer (ties to even, overflow to an
    infinity). *)
Definition to_double (n : Z) : jsnum :=
  let a := Z.abs n in
  if a <=? 2 ^ 53 then Fin n
  else
    let k := Z.log2 a - 52 in
    let q := a / 2 ^ k in
    let r := a mod 2 ^ k in
    let half := 2 ^ (k - 1) in
    let q' := if (half <? r) || ((r =? half) && Z.odd q) then q + 1 else q in
    let m := q' * 2 ^ k in
    if 2 ^ 1024 <=? m then Inf (n <? 0) else Fin (Z.sgn n * m).

(** The value of a character as a digit of [radix], if it is one. *)
Definition digit_of (radix : Z) (c : ascii) : option Z :=
  let n := Z.of_N (N_of_ascii c) in
  let d := if (48 <=? n) && (n <=? 57) then Some (n - 48)
           else if (97 <=? n) && (n <=? 122) then Some (n - 87)
           else if (65 <=? n) && (n <=? 90) then Some (n - 55)
           else None in
  match d with
  | Some v => if v <? radix then Some v else None
  | None => None
  end.

(** The integer written by the longest prefix of digits; [acc] is what has
    been read so far, [None] when no digit has. *)
Fixpoint digits (radix : Z) (acc : option Z) (s : string) : option Z :=
  match s with
  | String c rest =>
    match digit_of radix c with
    | Some d => digits radix (Some (radix * default 0 acc + d)) rest
    | None => acc
    end
  | EmptyString => acc
  end.

Definition bytes (l : list nat) : string :=
  List.fold_right (λ n s, String (ascii_of_nat n) s) EmptyString l.

(** White space and line terminators of ECMAScript, in UTF-8. *)
Definition white_space : list string :=
  List.map bytes
    [[9]; [10]; [11]; [12]; [13]; [32];
     [194; 160]; [225; 154; 128];
     [226; 128; 128]; [226; 128; 129]; [226; 128; 130]; [226; 128; 131];
     [226; 128; 132]; [226; 128; 133]; [226; 128; 134]; [226; 128; 135];
     [226; 128; 136]; [226; 128; 137]; [226; 128; 138];
     [226; 128; 168]; [226; 128; 169]; [226; 128; 175];
     [226; 129; 159]; [227; 128; 128]; [239; 187; 191]]%nat.

(** The number of bytes of the white-space character [s] starts with, [0]
    when it starts with none. *)
Definition white_space_length (s : string) : nat :=
  match List.find (λ ws, String.prefix ws s) white_space with
  | Some ws => String.length ws
  | None => 0
  end.

Fixpoint drop_bytes (n : nat) (s : string) : string :=
  match n, s with
  | S n', String _ rest => drop_bytes n' rest
  | _, _ => s
  end.

Fixpoint skip_white_space (fuel : nat) (s : string) : string :=
  match fuel with
  | O => s
  | S fuel' =>
    match white_space_length s with
    | O => s
    | n => skip_white_space fuel' (drop_bytes n s)
    end
  end.

(** [parseInt(s, radix)] for a string [s]; [radix = None] is a call with
    no radix. *)
Definition parseInt (s : string) (radix : option Z) : jsnum :=
  let s1 := skip_white_space (String.length s) s in
  let neg := String.prefix "-" s1 in
  let s2 := if String.prefix "-" s1 || String.prefix "+" s1
            then drop_bytes 1 s1 else s1 in
  let r := default 0 radix in
  if negb (r =? 0) && ((r <? 2) || (36 <? r)) then NaN
  else
    let strip := (r =? 0) || (r =? 16) in
    let hex := strip && (String.prefix "0x" s2 || String.prefix "0X" s2) in
    let R := if hex then 16 else if r =? 0 then 10 else r in
    let s3 := if hex then drop_bytes 2 s2 else s2 in
    match digits R None s3 with
    | None => NaN
    | Some n => to_double (if neg then - n else n)
    end.

End Number.
Export Number.

(** ** link.controller.js: statistics, update, delete *)

(** [a] occurred no earlier than [b]. *)
Definition newer (a b : Click) : Prop :=
  (cd_occurredAt (click_data b) ≤ cd_occurredAt (click_data a))%Z.

#[global] Instance newer_dec (a b : Click) : Decision (newer a b).
Proof. unfold newer. apply _. Defined.

(** [include: { clicks: { orderBy: { occurredAt: "desc" } } }]: the clicks
    of the link, newest first (the store leaves the order of clicks of the
    same instant open; they come as stored). *)
Definition clicks_of (w : World) (link : Link) : list Click :=
  merge_sort newer
    (List.filter (λ c, (click_linkId c =? link_id link)%Z) (clicks w)).

(** The responses of [getLinkStats]. *)
Inductive StatsResponse : Type :=
| StatsNotFound          (* res.status(404).json({ error: "Not found" }) *)
| Stats (slug destination : string) (clicksCount : nat)
        (clicks : list Click).                          (* res.json({...}) *)

Definition getLinkStats (env : Env) (req : Request) : M World StatsResponse :=
  let slug := req_params_slug req in
  link <- link_findUnique env slug ;;
  match link with
  | None => ret StatsNotFound
  | Some link =>
    w <- get ;;
    let clicks := clicks_of w link in
    ret (Stats (link_slug link) (link_destination link) (length clicks)
               (firstn 100 clicks))
  end.

(** What [prisma.link.update] and [prisma.link.delete] reject with. *)
Inductive prisma_error : Type :=
| RecordNotFound                     (* code P2025 *)
| UniqueConstraint                   (* code P2002 *)
| ForeignKeyConstraint               (* code P2003 *)
| ValidationError (msg : string)     (* PrismaClientValidationError, no code *)
| StoreUnreachable.                  (* PrismaClientInitializationError *)

(** [err.code] *)
Definition error_code (e : prisma_error) : value :=
  match e with
  | RecordNotFound => VStr "P2025"
  | UniqueConstraint => VStr "P2002"
  | ForeignKeyConstraint => VStr "P2003"
  | ValidationError _ | StoreUnreachable => VUndefined
  end.

(** [err.message] *)
Definition error_message (e : prisma_error) : string :=
  match e with
  | RecordNotFound => "Record to update or delete not found"
  | UniqueConstraint => "Unique constraint failed on the fields: (`slug`)"
  | ForeignKeyConstraint => "Foreign key constraint failed on the field: `linkId`"
  | ValidationError msg => msg
  | StoreUnreachable => "Can't reach database server"
  end.

(** A number given for an [Int] column: an integer that fits 64 bits. *)
Definition as_int (n : jsnum) : option Z :=
  match n with
  | Fin z => if ((- 2 ^ 63 <=? z) && (z <? 2 ^ 63))%Z then Some z else None
  | NaN | Inf _ => None
  end.

(** The row [where: { id, apiKeyId }] selects, with the slug it is stored
    under. *)
Definition owned_row (id apiKeyId : Z) (w : World) : option (string * Link) :=
  List.find (λ p, (link_id p.2 =? id)%Z && (link_apiKeyId p.2 =? apiKeyId)%Z)
            (map_to_list (links w)).

(** A value given to [update] for a required text column: [undefined]
    leaves the column as it is. *)
Definition set_required (v : value) (old : string) : option string :=
  match v with
  | VUndefined => Some old
  | VStr s => Some s
  | _ => None
  end.

(** The same for a nullable text column, which [null] empties. *)
Definition set_nullable (v : value) (old : option string)
  : option (option string) :=
  match v with
  | VUndefined => Some old
  | VNull => Some None
  | VStr s => Some (Some s)
  | _ => None
  end.

(** [prisma.link.update({ where: { id, apiKeyId }, data })] *)
Definition link_update (env : Env) (id : jsnum) (apiKeyId : Z)
    (destination slug title meta password : value)
    (expiresAt : option (option Z)) (webhookUrl : value)
  : M World (prisma_error + Link) :=
  w <- get ;;
  match as_int id,
        set_required destination "", set_required slug "",
        set_nullable title None, set_nullable password None,
        set_nullable webhookUrl None, expiresAt with
  | None, _, _, _, _, _, _ =>
    ret (inl (ValidationError "Invalid value provided. Expected Int"))
  | _, None, _, _, _, _, _ | _, _, None, _, _, _, _ =>
    ret (inl (ValidationError "Invalid value provided. Expected String"))
  | _, _, _, None, _, _, _ | _, _, _, _, None, _, _
  | _, _, _, _, _, None, _ =>
    ret (inl (ValidationError
                "Invalid value provided. Expected String or Null"))
  | _, _, _, _, _, _, Some None =>
    ret (inl (ValidationError "Invalid Date"))
  | Some n, Some _, Some _, Some _, Some _, Some _, _ =>
    if link_insert_fails env then ret (inl StoreUnreachable)
    else
      match owned_row n apiKeyId w with
      | None => ret (inl RecordNotFound)
      | Some (key, row) =>
        let slug' := default key (set_required slug key) in
        if negb (String.eqb slug' key) && bool_decide (is_Some (links w !! slug'))
        then ret (inl UniqueConstraint)
        else
          let l :=
            mkLink (link_id row) slug'
              (default "" (set_required destination (link_destination row)))
              (default None (set_nullable title (link_title row)))
              (link_apiKeyId row) (link_createdAt row)
              (default None (set_nullable password (link_password row)))
              (match expiresAt with Some (Some t) => Some t | _ => None end)
              (default None (set_nullable webhookUrl (link_webhookUrl row)))
              meta in
          modify (λ w, mkWorld (<[slug' := l]> (delete key (links w)))
                               (clicks w) (next_link_id w) (next_click_id w)
                               (trace w)) ;;;
          ret (inr l)
      end
  end.

(** [prisma.link.delete({ where: { id, apiKeyId } })]; the Click table
    refers to the link [ON DELETE RESTRICT]. *)
Definition link_delete (env : Env) (id : jsnum) (apiKeyId : Z)
  : M World (prisma_error + Link) :=
  w <- get ;;
  match as_int id with
  | None => ret (inl (ValidationError "Invalid value provided. Expected Int"))
  | Some n =>
    if link_insert_fails env then ret (inl StoreUnreachable)
    else
      match owned_row n apiKeyId w with
      | None => ret (inl RecordNotFound)
      | Some (key, row) =>
        if existsb (λ c, (click_linkId c =? link_id row)%Z) (clicks w)
        then ret (inl ForeignKeyConstraint)
        else
          modify (λ w, mkWorld (delete key (links w)) (clicks w)
                               (next_link_id w) (next_click_id w) (trace w)) ;;;
          ret (inr row)
      end
  end.

(** [err.code === "P2025"] *)
Definition is_P2025 (e : prisma_error) : bool :=
  negb (strict_ne (error_code e) (VStr "P2025")).

Section LinkControllerUpdate.
Context `{Bcrypt}.

(** [id] is [req.params.id]. *)
Definition updateLink (env : Env) (id : string) (req : Request)
  : M World Response :=
  (* const { destination, slug, ..., webhookUrl } = req.body *)
  destination <- get_prop (req_body req) "destination" ;;
  let slug := opt_prop (req_body req) "slug" in
  let title := opt_prop (req_body req) "title" in
  let meta := opt_prop (req_body req) "meta" in
  let password := opt_prop (req_body req) "password" in
  let expiresAt := opt_prop (req_body req) "expiresAt" in
  let webhookUrl := opt_prop (req_body req) "webhookUrl" in
  hashedPassword <- (if truthy password
                     then bcrypt_hash_js env password 10
                     else ret VNull) ;;
  r <- link_update env (parseInt id None) (req_apiKey_id req)
         destination slug title (JS.or meta (VObj PNil)) hashedPassword
         (if truthy expiresAt then Some (parse_date env expiresAt) else None)
         webhookUrl ;;
  match r with
  | inr link =>
    ret (SendJson 200
           (PCons "id" (VNum (link_id link) 0)
             (PCons "slug" (VStr (link_slug link))
               (PCons "shortUrl"
                  (VStr (req_protocol req ++ "://" ++ req_host req ++ "/"
                         ++ link_slug link)) PNil))))
  | inl err =>
    if is_P2025 err
    then ret (SendJson 404 (PCons "error" (VStr "Link not found") PNil))
    else ret (SendJson 400
                (PCons "error" (VStr "Link update failed")
                  (PCons "details" (VStr (error_message err)) PNil)))
  end.
End LinkControllerUpdate.

(** [id] is [req.params.id]. *)
Definition deleteLink (env : Env) (id : string) (req : Request)
  : M World Response :=
  r <- link_delete env (parseInt id None) (req_apiKey_id req) ;;
  match r with
  | inr _ =>
    ret (SendJson 200
           (PCons "message" (VStr "Link deleted successfully") PNil))
  | inl err =>
    if is_P2025 err
    then ret (SendJson 404 (PCons "error" (VStr "Link not found") PNil))
    else ret (SendJson 400
                (PCons "error" (VStr "Link deletion failed")
                  (PCons "details" (VStr (error_message err)) PNil)))
  end.

(** ** middleware/pagination.js *)

(** A parameter of [req.query] as the query parser leaves it: a string,
    an array (a repeated parameter) or an object (a bracketed one). A
    parameter the request does not have reads as [undefined]. *)
Inductive qvalue : Type :=
| QString (s : string)
| QArray (items : qvalues)
| QObject
with qvalues : Type :=
| QNil
| QCons (q : qvalue) (rest : qvalues).

(** ToString; an array is joined with commas. *)
Fixpoint to_text (q : qvalue) : string :=
  match q with
  | QString s => s
  | QArray items => join_text items
  | QObject => "[object Object]"
  end
with join_text (items : qvalues) : string :=
  match items with
  | QNil => ""
  | QCons q QNil => to_text q
  | QCons q rest => to_text q ++ "," ++ join_text rest
  end.

Definition query_text (q : option qvalue) : string :=
  match q with
  | Some q => to_text q
  | None => "undefined"
  end.

Definition isNaN (n : jsnum) : bool :=
  match n with NaN => true | _ => false end.

(** [n <= m], [n < m] and [n > m] for a finite [m]; every comparison with
    [NaN] is false. *)
Definition num_le (n : jsnum) (m : Z) : bool :=
  match n with
  | NaN => false
  | Fin z => (z <=? m)%Z
  | Inf negative => negative
  end.

Definition num_lt (n : jsnum) (m : Z) : bool :=
  match n with
  | NaN => false
  | Fin z => (z <? m)%Z
  | Inf negative => negative
  end.

Definition num_gt (n : jsnum) (m : Z) : bool :=
  match n with
  | NaN => false
  | Fin z => (z >? m)%Z
  | Inf negative => negb negative
  end.

(** The middleware [paginationMiddleware(maxLimit)], from the two
    parameters it reads to the two numbers it assigns to [req.query.limit]
    and [req.query.offset] before it calls [next()]. *)
Definition paginationMiddleware (maxLimit : Z) (limit offset : option qvalue)
  : jsnum * jsnum :=
  let limit := parseInt (query_text limit) (Some 10%Z) in
  let limit := if isNaN limit || num_le limit 0 then Fin 10
               else if num_gt limit maxLimit then Fin maxLimit
               else limit in
  let offset := parseInt (query_text offset) (Some 10%Z) in
  let offset := if isNaN offset || num_lt offset 0 then Fin 0 else offset in
  (limit, offset).

(** ** link.controller.js: listing *)

(** [req.query.limit] and [req.query.offset] as [listLinks] finds them:
    the number [paginationMiddleware] assigned, or what the query parser
    left. *)
Inductive qparam : Type :=
| QNumber (n : jsnum)
| QRaw (q : option qvalue).

(** A value given for [skip] or [take]: [undefined] leaves the argument
    out ([Some None]), anything but an integer is refused ([None]). *)
Definition as_count (p : qparam) : option (option Z) :=
  match p with
  | QRaw None => Some None
  | QRaw (Some _) => None
  | QNumber n => match as_int n with
                 | Some z => Some (Some z)
                 | None => None
                 end
  end.

(** [orderBy: { createdAt: "desc" }] *)
Definition newer_link (a b : Link) : Prop :=
  (link_createdAt b ≤ link_createdAt a)%Z.

#[global] Instance newer_link_dec (a b : Link) : Decision (newer_link a b).
Proof. unfold newer_link. apply _. Defined.

(** The rows [where: { apiKeyId }] selects, newest first. *)
Definition owned_links (w : World) (apiKeyId : Z) : list Link :=
  merge_sort newer_link
    (List.filter (λ l, (link_apiKeyId l =? apiKeyId)%Z)
                 (List.map snd (map_to_list (links w)))).

(** [skip] and [take] of [findMany]; a negative [take] counts from the
    end. *)
Definition page (skip take : option Z) (rows : list Link) : list Link :=
  match take with
  | None => drop (Z.to_nat (default 0%Z skip)) rows
  | Some n =>
    if (0 <=? n)%Z
    then firstn (Z.to_nat n) (drop (Z.to_nat (default 0%Z skip)) rows)
    else List.rev (firstn (Z.to_nat (- n))
                     (drop (Z.to_nat (default 0%Z skip)) (List.rev rows)))
  end.

(** [prisma.link.findMany({ where: { apiKeyId }, skip, take, orderBy })] *)
Definition link_findMany (env : Env) (apiKeyId : Z) (skip take : qparam)
  : M World (list Link) :=
  match as_count skip, as_count take with
  | None, _ | _, None =>
    throw (PrismaError "Invalid value provided. Expected Int")
  | Some skip, Some take =>
    if match skip with Some z => (z <? 0)%Z | None => false end
    then throw (PrismaError
                  "Invalid value for skip argument: Value can only be positive")
    else if link_lookup_fails env
    then throw (PrismaError "Can't reach database server")
    else w <- get ;; ret (page skip take (owned_links w apiKeyId))
  end.

(** [prisma.link.count({ where: { apiKeyId } })] *)
Definition link_count (env : Env) (apiKeyId : Z) : M World nat :=
  if link_lookup_fails env
  then throw (PrismaError "Can't reach database server")
  else w <- get ;; ret (length (owned_links w apiKeyId)).

Inductive ListResponse : Type :=
| ListFailed (status : Z) (body : props)
| Listed (links : list Link) (limit offset : qparam) (total : nat).

Definition listLinks (env : Env) (limit offset : qparam) (req : Request)
  : M World ListResponse :=
  try_catch
    (links <- link_findMany env (req_apiKey_id req) offset limit ;;
     total <- link_count env (req_apiKey_id req) ;;
     ret (Listed links limit offset total))
    (λ err, ret (ListFailed 400
              (PCons "error" (VStr "Failed to list links")
                (PCons "details" (VStr (message err)) PNil)))).

(** ** link.controller.js: the bulk handlers *)

(** What the [try] block of a bulk handler can throw besides the errors
    of [bcrypt.hash] and of reading a property: the rejection of a Prisma
    call, or the [ReferenceError] of reading a name that nothing binds. *)
Inductive thrown : Type :=
| Rejected (e : prisma_error)
| ReferenceError (name : string).

(** [err.message] *)
Definition thrown_message (t : thrown) : string :=
  match t with
  | Rejected e => error_message e
  | ReferenceError name => name ++ " is not defined"
  end.

(** Reading the identifier [name] where [scope] lists the bindings in
    force. *)
Definition read_name (scope : list (string * value)) (name : string)
  : thrown + value :=
  match List.find (λ b, String.eqb b.1 name) scope with
  | Some b => inr b.2
  | None => inl (ReferenceError name)
  end.

(** The bindings of the module link.controller.js: its [require]s, its
    function declarations and the names of the module wrapper. They hold
    functions and objects, which is all that matters of them here. Node's
    global object has no [webhookUrl]. *)
Definition module_scope : list (string * value) :=
  List.map (λ name, (name, VObj PNil))
    ["prisma"; "uuidv4"; "bcrypt"; "paginationMiddleware";
     "createLink"; "getLinkStats"; "updateLink"; "deleteLink"; "listLinks";
     "bulkCreateLinks"; "bulkUpdateLinks"; "bulkDeleteLinks";
     "exports"; "require"; "module"; "__filename"; "__dirname"].

(** [req.body.links], [req.body.updates] or [req.body.ids]: an array, or
    any other value. *)
Inductive body_field (A : Type) : Type :=
| IsArray (items : list A)
| NotArray (v : value).
Arguments IsArray {A} items.
Arguments NotArray {A} v.

(** [!field || !Array.isArray(field) || field.length === 0] *)
Definition missing_or_empty {A} (field : body_field A) : bool :=
  match field with
  | NotArray _ => true
  | IsArray items => (length items =? 0)%nat
  end.

Definition items_of {A} (field : body_field A) : list A :=
  match field with
  | IsArray items => items
  | NotArray _ => []
  end.

Inductive BulkResponse : Type :=
| BulkFailed (status : Z) (body : props)
| BulkCreated (links : list props)       (* res.json({ links: createdLinks }) *)
| BulkUpdated (updated : Z)              (* res.json({ updated }) *)
| BulkDeleted (deleted : nat).           (* res.json({ deleted }) *)

Section LinkControllerBulk.
Context `{Bcrypt}.

(** The [for ... of] loop of [bulkCreateLinks] over the items left, with
    [createdLinks] as built so far; the result is what leaves the loop:
    the array, or what was thrown. *)
Fixpoint bulk_create_loop (env : Env) (req : Request) (links : list value)
    (createdLinks : list props) : M World (thrown + list props) :=
  match links with
  | [] => ret (inr createdLinks)
  | linkData :: rest =>
    (* const { destination, slug, ..., expiresAt } = linkData *)
    destination <- get_prop linkData "destination" ;;
    let slug := opt_prop linkData "slug" in
    let title := opt_prop linkData "title" in
    let meta := opt_prop linkData "meta" in
    let password := opt_prop linkData "password" in
    let expiresAt := opt_prop linkData "expiresAt" in
    if negb (truthy destination)
    then bulk_create_loop env req rest createdLinks       (* continue *)
    else
      let finalSlug :=
        JS.or slug (VStr (String.substring 0 8 (fresh_uuid env))) in
      hashedPassword <- (if truthy password
                         then bcrypt_hash_js env password 10
                         else ret VNull) ;;
      let scope :=
        ([("req", VObj PNil); ("res", VObj PNil); ("links", VObj PNil);
          ("createdLinks", VObj PNil); ("linkData", linkData);
          ("destination", destination); ("slug", slug); ("title", title);
          ("meta", meta); ("password", password); ("expiresAt", expiresAt);
          ("finalSlug", finalSlug); ("hashedPassword", hashedPassword)]
         ++ module_scope)%list in
      (* the object literal given to prisma.link.create ends in the
         shorthand property [webhookUrl] *)
      match read_name scope "webhookUrl" with
      | inl t => ret (inl t)
      | inr webhookUrl =>
        link <- link_create env finalSlug destination title
                  (req_apiKey_id req) (JS.or meta (VObj PNil)) hashedPassword
                  (if truthy expiresAt
                   then Some (parse_date env expiresAt) else None)
                  webhookUrl ;;
        bulk_create_loop env req rest
          (createdLinks ++
           [PCons "id" (VNum (link_id link) 0)
              (PCons "slug" (VStr (link_slug link))
                (PCons "shortUrl"
                   (VStr (req_protocol req ++ "://" ++ req_host req ++ "/"
                          ++ link_slug link)) PNil))])%list
      end
  end.

(** [links] is [req.body.links]. *)
Definition bulkCreateLinks (env : Env) (req : Request)
    (links : body_field value) : M World BulkResponse :=
  (* const { links } = req.body *)
  _ <- get_prop (req_body req) "links" ;;
  if missing_or_empty links
  then ret (BulkFailed 400
              (PCons "error"
                 (VStr "links array is required and must not be empty") PNil))
  else
    try_catch
      (r <- bulk_create_loop env req (items_of links) [] ;;
       match r with
       | inr createdLinks => ret (BulkCreated createdLinks)
       | inl t =>
         ret (BulkFailed 400
                (PCons "error" (VStr "Bulk link creation failed")
                  (PCons "details" (VStr (thrown_message t)) PNil)))
       end)
      (λ err, ret (BulkFailed 400
                (PCons "error" (VStr "Bulk link creation failed")
                  (PCons "details" (VStr (message err)) PNil)))).

(** The loop of [bulkUpdateLinks]. An item is paired with the number
    [parseInt(id)] reads from its [id]. *)
Fixpoint bulk_update_loop (env : Env) (req : Request)
    (updates : list (jsnum * value)) (updatedCount : Z)
  : M World (thrown + Z) :=
  match updates with
  | [] => ret (inr updatedCount)
  | (id, updateData) :: rest =>
    (* const { id, destination, ..., expiresAt } = updateData *)
    destination <- get_prop updateData "destination" ;;
    let slug := opt_prop updateData "slug" in
    let title := opt_prop updateData "title" in
    let meta := opt_prop updateData "meta" in
    let password := opt_prop updateData "password" in
    let expiresAt := opt_prop updateData "expiresAt" in
    hashedPassword <- (if truthy password
                       then bcrypt_hash_js env password 10
                       else ret VNull) ;;
    let scope :=
      ([("req", VObj PNil); ("res", VObj PNil); ("updates", VObj PNil);
        ("updatedCount", VNum updatedCount 0); ("updateData", updateData);
        ("id", opt_prop updateData "id");
        ("destination", destination); ("slug", slug); ("title", title);
        ("meta", meta); ("password", password); ("expiresAt", expiresAt);
        ("hashedPassword", hashedPassword)]
       ++ module_scope)%list in
    match read_name scope "webhookUrl" with
    | inl t => ret (inl t)
    | inr webhookUrl =>
      r <- link_update env id (req_apiKey_id req) destination slug title
             (JS.or meta (VObj PNil)) hashedPassword
             (if truthy expiresAt
              then Some (parse_date env expiresAt) else None)
             webhookUrl ;;
      match r with
      | inl err => ret (inl (Rejected err))
      | inr _ => bulk_update_loop env req rest (updatedCount + 1)
      end
    end
  end.

(** [updates] is [req.body.updates]. *)
Definition bulkUpdateLinks (env : Env) (req : Request)
    (updates : body_field (jsnum * value)) : M World BulkResponse :=
  (* const { updates } = req.body *)
  _ <- get_prop (req_body req) "updates" ;;
  if missing_or_empty updates
  then ret (BulkFailed 400
              (PCons "error"
                 (VStr "updates array is required and must not be empty")
                 PNil))
  else
    try_catch
      (r <- bulk_update_loop env req (items_of updates) 0 ;;
       match r with
       | inr updatedCount => ret (BulkUpdated updatedCount)
       | inl t =>
         ret (BulkFailed 400
                (PCons "error" (VStr "Bulk link update failed")
                  (PCons "details" (VStr (thrown_message t)) PNil)))
       end)
      (λ err, ret (BulkFailed 400
                (PCons "error" (VStr "Bulk link update failed")
                  (PCons "details" (VStr (message err)) PNil)))).
End LinkControllerBulk.

(** The rows [where: { id: { in: ids }, apiKeyId }] selects. *)
Definition selected (ids : list Z) (apiKeyId : Z) (l : Link) : bool :=
  bool_decide (link_id l ∈ ids) && (link_apiKeyId l =? apiKeyId)%Z.

(** [prisma.link.deleteMany({ where: { id: { in: ids }, apiKeyId } })]:
    one statement, which the foreign key of the Click table refuses as a
    whole when a selected link has clicks. *)
Definition link_deleteMany (env : Env) (ids : list jsnum) (apiKeyId : Z)
  : M World (prisma_error + nat) :=
  w <- get ;;
  match mapM as_int ids with
  | None => ret (inl (ValidationError "Invalid value provided. Expected Int"))
  | Some ids =>
    if link_insert_fails env then ret (inl StoreUnreachable)
    else
      let doomed :=
        List.filter (selected ids apiKeyId)
                    (List.map snd (map_to_list (links w))) in
      if existsb (λ c, existsb (λ l, (click_linkId c =? link_id l)%Z) doomed)
                 (clicks w)
      then ret (inl ForeignKeyConstraint)
      else
        modify (λ w, mkWorld
                       (filter (λ kl, selected ids apiKeyId kl.2 = false)
                               (links w))
                       (clicks w) (next_link_id w) (next_click_id w)
                       (trace w)) ;;;
        ret (inr (length doomed))
  end.

(** [ids] is [req.body.ids], each element as [parseInt] reads it. *)
Definition bulkDeleteLinks (env : Env) (req : Request)
    (ids : body_field jsnum) : M World BulkResponse :=
  (* const { ids } = req.body *)
  _ <- get_prop (req_body req) "ids" ;;
  if missing_or_empty ids
  then ret (BulkFailed 400
              (PCons "error"
                 (VStr "ids array is required and must not be empty") PNil))
  else
    r <- link_deleteMany env (items_of ids) (req_apiKey_id req) ;;
    match r with
    | inr count => ret (BulkDeleted count)
    | inl err =>
      ret (BulkFailed 400
             (PCons "error" (VStr "Bulk link deletion failed")
               (PCons "details" (VStr (error_message err)) PNil)))
    end.

(** ** server.js: the routes up to the public redirect

    A request path is the list of its segments. A route is a method, a
    pattern and the handler that ends its chain; Express tries the routes
    in the order of their registration and a handler that answers ends the
    search. *)

Inductive method : Type := GET | POST | PUT | DELETE.

Inductive segment : Type :=
| Lit (s : string)          (* a fixed segment *)
| Param (name : string).    (* [:name], any one segment *)

Definition method_eqb (a b : method) : bool :=
  match a, b with
  | GET, GET | POST, POST | PUT, PUT | DELETE, DELETE => true
  | _, _ => false
  end.

(** ASCII lower case: routes are matched without regard to case. *)
Definition lower_ascii (c : ascii) : ascii :=
  let n := nat_of_ascii c in
  if ((65 <=? n) && (n <=? 90))%nat then ascii_of_nat (n + 32) else c.

Fixpoint lower (s : string) : string :=
  match s with
  | EmptyString => EmptyString
  | String c rest => String (lower_ascii c) (lower rest)
  end.

(** The parameters a pattern binds on a path, if it matches it. *)
Fixpoint match_path (pattern : list segment) (path : list string)
  : option (list (string * string)) :=
  match pattern, path with
  | [], [] => Some []
  | Lit s :: pattern', x :: path' =>
    if String.eqb (lower s) (lower x) then match_path pattern' path' else None
  | Param name :: pattern', x :: path' =>
    if String.eqb x "" then None
    else cons (name, x) <$> match_path pattern' path'
  | _, _ => None
  end.

Definition routes : list (method * list segment * string) :=
  [(POST, [Lit "signup"], "authController.signup");
   (POST, [Lit "login"], "authController.login");
   (POST, [Lit "password"; Lit "reset-request"],
    "passwordController.requestPasswordReset");
   (POST, [Lit "password"; Lit "reset"], "passwordController.resetPassword");
   (GET, [Lit "swagger.json"], "swaggerSpec");
   (POST, [Lit "api"; Lit "api-keys"], "authController.createApiKey");
   (PUT, [Lit "api"; Lit "password"], "passwordController.changePassword");
   (GET, [Lit "api"; Lit "roles"], "roleController.getRoles");
   (POST, [Lit "api"; Lit "roles"], "roleController.createRole");
   (PUT, [Lit "api"; Lit "roles"; Param "id"], "roleController.updateRole");
   (DELETE, [Lit "api"; Lit "roles"; Param "id"],
    "roleController.deleteRole");
   (POST, [Lit "api"; Lit "users"; Lit "roles"],
    "roleController.assignRoleToUser");
   (DELETE, [Lit "api"; Lit "users"; Param "userId"; Lit "roles";
             Param "roleId"], "roleController.removeRoleFromUser");
   (GET, [Lit "api"; Lit "users"; Param "userId"; Lit "roles"],
    "roleController.getUserRoles");
   (GET, [Lit "api"; Lit "permissions"], "roleController.getPermissions");
   (POST, [Lit "api"; Lit "permissions"], "roleController.createPermission");
   (POST, [Lit "api"; Lit "roles"; Param "roleId"; Lit "permissions"],
    "roleController.assignPermissionToRole");
   (DELETE, [Lit "api"; Lit "roles"; Param "roleId"; Lit "permissions";
             Param "permissionId"],
    "roleController.removePermissionFromRole");
   (POST, [Lit "api"; Lit "links"], "linksController.createLink");
   (GET, [Lit "api"; Lit "links"], "linksController.listLinks");
   (PUT, [Lit "api"; Lit "links"; Param "id"], "linksController.updateLink");
   (DELETE, [Lit "api"; Lit "links"; Param "id"],
    "linksController.deleteLink");
   (GET, [Lit "api"; Lit "links"; Param "slug"; Lit "stats"],
    "linksController.getLinkStats");
   (POST, [Lit "api"; Lit "links"; Lit "bulk"],
    "linksController.bulkCreateLinks");
   (PUT, [Lit "api"; Lit "links"; Lit "bulk"],
    "linksController.bulkUpdateLinks");
   (DELETE, [Lit "api"; Lit "links"; Lit "bulk"],
    "linksController.bulkDeleteLinks");
   (GET, [Param "slug"], "trackController.redirectHandler")].

(** The first route that matches, with the parameters it binds. *)
Fixpoint first_match (table : list (method * list segment * string))
    (m : method) (path : list string)
  : option (string * list (string * string)) :=
  match table with
  | [] => None
  | (m', pattern, handler) :: table' =>
    match (if method_eqb m' m then match_path pattern path else None) with
    | Some params => Some (handler, params)
    | None => first_match table' m path
    end
  end.

Definition dispatch (m : method) (path : list string)
  : option (string * list (string * string)) :=
  first_match routes m path.

(** * Words of the specification *)

(** The link named by the request. *)
Definition found (w : World) (req : Request) (link : Link) : Prop :=
  links w !! req_params_slug req = Some link.

(** [expiresAt] is set and strictly in the past. *)
Definition is_expired (env : Env) (link : Link) : Prop :=
  ∃ t, link_expiresAt link = Some t ∧ t < now env.

(** The link carries a password. *)
Definition protected_by (link : Link) (stored : string) : Prop :=
  link_password link = Some stored ∧ stored ≠ "".

(** [bodyParser.json()] left something in [req.body] whose properties can
    be read (body-parser 1.x leaves [{}] when the request has no JSON
    body). *)
Definition has_body (req : Request) : Prop :=
  req_body req ≠ VUndefined ∧ req_body req ≠ VNull.

(** Reading the supplied password does not throw: the query string has
    one, or [req.body] can be read. *)
Definition password_readable (req : Request) : Prop :=
  truthy (req_query_password req) = true ∨ has_body req.

(** The password the request supplies, from the query string or else the
    body. *)
Definition providedPassword (req : Request) : value :=
  JS.or (req_query_password req) (opt_prop (req_body req) "password").

(** No password on the link, or the supplied one is the stored one. *)
Definition gate_passes (req : Request) (link : Link) : Prop :=
  ∀ stored, protected_by link stored → providedPassword req = VStr stored.

(** The link resolves: it exists, is not expired, the gate passes. *)
Definition resolves (env : Env) (w : World) (req : Request) (link : Link)
  : Prop :=
  found w req link ∧ ¬ is_expired env link ∧ gate_passes req link.


(** [Some n] when the handler answered with status [n], [None] when its
    promise rejected. *)
Definition http_status (o : result Response) : option Z :=
  match o with
  | Ok r => Some (status_of r)
  | Throw _ => None
  end.

(** What the click insert leaves in the trace. *)
Definition click_outcome (env : Env) (req : Request) (link : Link) (w : World)
  : list event :=
  if click_insert_fails env
  then [ConsoleError "Failed to record click" "Can't reach database server"]
  else [ClickCreated (mkClick (next_click_id w) (link_id link)
                              (make_clickData env req))].

(** What the receiver's answer leaves in the trace after the POST. *)
Definition post_outcome (env : Env) (url : string) : list event :=
  if post_fails env url
  then [ConsoleError "Webhook delivery failed:" "connect ECONNREFUSED"]
  else [].

Definition webhook_outcome (env : Env) (req : Request) (link : Link)
  : list event :=
  match link_webhookUrl link with
  | Some url =>
    if String.eqb url "" then []
    else WebhookPost url (make_payload env (make_clickData env req) link)
         :: post_outcome env url
  | None => []
  end.

Definition is_webhook_post (e : event) : bool :=
  match e with WebhookPost _ _ => true | _ => false end.

Definition is_click_created (e : event) : bool :=
  match e with ClickCreated _ => true | _ => false end.


(** The specification's sentence that no webhook is posted when the click
    insert fails. *)
Definition webhook_only_after_successful_insert : Prop :=
  ∀ env req w link,
    link_lookup_fails env = false → resolves env w req link →
    click_insert_fails env = true →
    List.filter is_webhook_post (trace (snd (redirectHandler env req w)))
    = List.filter is_webhook_post (trace w).

(** *** The geo resolver *)

Module GeoSpec.
Import Geo.
Local Open Scope list_scope.
Local Open Scope Z_scope.

(** The URL [lookup] requests for [ip]. *)
Definition url_of (env : Env) (ip : string) : string :=
  (GEO_API env ++ "/" ++ ip)%string.

(** The external calls made so far, oldest first. *)
Fixpoint fetches (t : list event) : list string :=
  match t with
  | [] => []
  | Fetch url :: t' => url :: fetches t'
  | _ :: t' => fetches t'
  end.

(** A provider failure: network error, non-success response, body that
    is not JSON, or a payload whose [status] is not ["success"]. *)
Inductive provider_failure : fetch_outcome → Prop :=
| fail_network msg : provider_failure (NetworkFailure msg)
| fail_http body : provider_failure (HttpResponse false body)
| fail_malformed : provider_failure (HttpResponse true None)
| fail_status data :
    opt_prop data "status" ≠ VStr "success" →
    provider_failure (HttpResponse true (Some data)).

(** A provider success with payload [data]. *)
Definition provider_success (o : fetch_outcome) (data : value) : Prop :=
  o = HttpResponse true (Some data) ∧ opt_prop data "status" = VStr "success".

(** [ip] is absent from the cache, or its entry has outlived the TTL. *)
Definition cache_miss (env : Env) (ip : string) (w : World) : Prop :=
  fst (LRU.get cache_ttl (now env) ip (cache w)) = None.

Definition falsy (v : value) : Prop := truthy v = false.

(** The normalized result, field by field. *)
Definition normalize (ip : string) (data : value) : GeoResult :=
  mkGeo ip
        (JS.or (opt_prop data "country") VNull)
        (JS.or (opt_prop data "regionName")
               (JS.or (opt_prop data "region") VNull))
        (JS.or (opt_prop data "city") VNull)
        (JS.or (opt_prop data "lat") VNull)
        (JS.or (opt_prop data "lon") VNull).


(** A series of lookups, each at its own time and against its own state
    of the provider. *)
Fixpoint lookups (ops : list (Env * option string)) (w : World) : World :=
  match ops with
  | [] => w
  | (env, ip) :: ops' => lookups ops' (snd (lookup env ip w))
  end.

(** The cache holds [e] under key [k], with at most [n] entries used more
    recently than it. *)
Definition holds {V : Type} (k : string) (e : LRU.entry V) (n : nat)
    (c : LRU.t V) : Prop :=
  LRU.e_key e = k
  ∧ ∃ pre post, c = pre ++ e :: post
                ∧ (length pre ≤ n)%nat
                ∧ Forall (λ x, LRU.is_key k x = false) pre.

End GeoSpec.

(** ** Scenarios of the specification *)

Module Scenario.

(** A stand-in for bcrypt with the right output format. *)
Fixpoint repeat_char (n : nat) (c : Ascii.ascii) : string :=
  match n with
  | O => ""
  | S n' => String c (repeat_char n' c)
  end.

Definition toy_bcrypt : Bcrypt := {|
  bcrypt_hash salt data rounds :=
    "$2b$10$" ++ repeat_char 53 (match data ++ salt with
                                 | String c _ => c
                                 | EmptyString => "."%char
                                 end);
  bcrypt_hash_length := λ _ _ _, eq_refl;
|}.

Definition env0 : Env := {|
  now := 1000;
  link_lookup_fails := false;
  link_insert_fails := false;
  click_insert_fails := false;
  post_fails := λ _, false;
  fresh_uuid := "3b241101-e2bb-4255-8caf-4136c566a962";
  fresh_salt := "N9qo8uLOickgx2ZMRZoMye";
  parse_date := λ v, match v with VNum m 0 => Some m | _ => None end;
|}.

(** The analytics store and the webhook receiver are both down. *)
Definition env_degraded : Env := {|
  now := 1000;
  link_lookup_fails := false;
  link_insert_fails := false;
  click_insert_fails := true;
  post_fails := λ _, true;
  fresh_uuid := fresh_uuid env0;
  fresh_salt := fresh_salt env0;
  parse_date := parse_date env0;
|}.

Definition world_of (l : Link) : World := {|
  links := {[ link_slug l := l ]};
  clicks := [];
  next_link_id := link_id l + 1;
  next_click_id := 1;
  trace := [];
|}.

Definition empty_world : World := {|
  links := ∅; clicks := []; next_link_id := 1; next_click_id := 1; trace := [];
|}.

Definition get (slug : string) (password : value) : Request := {|
  req_params_slug := slug;
  req_query_password := password;
  req_body := VObj PNil;
  req_logger := VObj (PCons "ip" (VStr "203.0.113.9") (PCons "geo" VNull PNil));
  req_ip := VStr "203.0.113.9";
  req_headers := PCons "user-agent" (VStr "curl/8.5.0") PNil;
  req_apiKey_id := 0;
  req_protocol := "http";
  req_host := "localhost:4000";
|}.

Definition post (body : props) : Request := {|
  req_params_slug := "";
  req_query_password := VUndefined;
  req_body := VObj body;
  req_logger := VUndefined;
  req_ip := VStr "203.0.113.9";
  req_headers := PNil;
  req_apiKey_id := 7;
  req_protocol := "http";
  req_host := "localhost:4000";
|}.

(** slug [promo1], no password, no expiry, with a webhook *)
Definition promo1 : Link := {|
  link_id := 1; link_slug := "promo1";
  link_destination := "https://example.com/landing";
  link_title := None; link_apiKeyId := 7; link_createdAt := 0;
  link_password := None; link_expiresAt := None;
  link_webhookUrl := Some "https://hooks.example.com/clicks";
  link_meta := VObj PNil;
|}.

(** slug [old], expired one second ago *)
Definition old : Link := {|
  link_id := 2; link_slug := "old";
  link_destination := "https://example.com/old";
  link_title := None; link_apiKeyId := 7; link_createdAt := 0;
  link_password := None; link_expiresAt := Some 0;
  link_webhookUrl := None; link_meta := VObj PNil;
|}.

(** slug [edge], expiring at this very instant *)
Definition edge : Link := {|
  link_id := 3; link_slug := "edge";
  link_destination := "https://example.com/edge";
  link_title := None; link_apiKeyId := 7; link_createdAt := 0;
  link_password := None; link_expiresAt := Some 1000;
  link_webhookUrl := None; link_meta := VObj PNil;
|}.

(** slug [secret], protected; the column holds what [createLink] stored *)
Definition secret : Link := {|
  link_id := 4; link_slug := "secret";
  link_destination := "https://example.com/secret";
  link_title := None; link_apiKeyId := 7; link_createdAt := 0;
  link_password :=
    Some (@bcrypt_hash toy_bcrypt "N9qo8uLOickgx2ZMRZoMye" "hunter2" 10);
  link_expiresAt := None;
  link_webhookUrl := None; link_meta := VObj PNil;
|}.

(** The body of [POST /api/links] creating [secret]. *)
Definition create_secret : props :=
  PCons "destination" (VStr "https://example.com/secret")
    (PCons "slug" (VStr "secret") (PCons "password" (VStr "hunter2") PNil)).

End Scenario.

Section CreatedSecret.
Context `{Bcrypt}.

(** The row [createLink] writes for the body [Scenario.create_secret],
  and the world after it. *)
Definition created_secret : Link := {|
link_id := 1; link_slug := "secret";
link_destination := "https://example.com/secret";
link_title := None; link_apiKeyId := 7; link_createdAt := 1000;
link_password := Some (bcrypt_hash "N9qo8uLOickgx2ZMRZoMye" "hunter2" 10);
link_expiresAt := None; link_webhookUrl := None; link_meta := VObj PNil;
|}.

Definition world_with_secret : World := {|
links := {[ "secret" := created_secret ]};
clicks := [];
next_link_id := 2;
next_click_id := 1;
trace := [LinkCreated created_secret];
|}.

End CreatedSecret.

Module EmptyPassword.



End EmptyPassword.

Module GeoScenario.
Import Geo.
Local Open Scope Z_scope.

Definition success_payload : value :=
  VObj (PCons "status" (VStr "success")
         (PCons "country" (VStr "Iceland")
           (PCons "regionName" (VStr "")
             (PCons "region" (VStr "")
               (PCons "city" (VStr "Reykjavik")
                 (PCons "lat" (VNum 0 0)
                   (PCons "lon" (VNum (-21) 0) PNil))))))).

Definition fail_payload : value :=
  VObj (PCons "status" (VStr "fail")
         (PCons "message" (VStr "reserved range") PNil)).

(** The provider answers. *)
Definition env_up : Env := {|
  now := 5000;
  GEO_API_URL := VUndefined;
  provider := λ _, HttpResponse true (Some success_payload);
|}.

(** The provider reports a failure. *)
Definition env_fail : Env := {|
  now := 5000;
  GEO_API_URL := VUndefined;
  provider := λ _, HttpResponse true (Some fail_payload);
|}.

(** Half an hour later the provider is unreachable. *)
Definition env_down : Env := {|
  now := 5000 + 1800000;
  GEO_API_URL := VUndefined;
  provider := λ _, NetworkFailure "fetch failed";
|}.

Definition cold : World := {| cache := []; trace := [] |}.

(** 500 other addresses, each looked up once while the provider answers. *)
Definition crowd : list (Env * option string) :=
  List.map (λ n : nat,
              (env_up,
               Some ("10.0." ++ pretty (n / 250)%nat ++ "."
                     ++ pretty (n mod 250)%nat)%string))
           (seq 0 500).

End GeoScenario.

(** Further scenarios of the geo resolver. *)
Module GeoScenario2.
Import Geo.
Local Open Scope Z_scope.

(** Two hours after [GeoScenario.env_up] the provider answers again. *)
Definition env_late : Env := {|
  now := 5000 + 7200000;
  GEO_API_URL := VUndefined;
  provider := λ _, HttpResponse true (Some GeoScenario.success_payload);
|}.

(** Three lookups of other addresses, ten minutes after the first. *)
Definition env_soon : Env := {|
  now := 5000 + 600000;
  GEO_API_URL := VUndefined;
  provider := λ _, HttpResponse true (Some GeoScenario.success_payload);
|}.

Definition passers_by : list (Env * option string) :=
  [(env_soon, Some "198.51.100.1"); (env_soon, None);
   (env_soon, Some "198.51.100.2")].

(** A payload with [region] but no [regionName]. *)
Definition region_only_payload : value :=
  VObj (PCons "status" (VStr "success")
         (PCons "country" (VStr "Kenya")
           (PCons "region" (VStr "30")
             (PCons "city" (VStr "Nairobi")
               (PCons "lat" (VNum (-1) 0)
                 (PCons "lon" (VNum 37 0) PNil)))))).

Definition env_region_only : Env := {|
  now := 5000;
  GEO_API_URL := VUndefined;
  provider := λ _, HttpResponse true (Some region_only_payload);
|}.

End GeoScenario2.

(** ** Words for the link controller *)

(** [slug || uuidv4().slice(0, 8)] of [createLink]. *)
Definition final_slug (env : Env) (req : Request) : value :=
  JS.or (opt_prop (req_body req) "slug")
        (VStr (String.substring 0 8 (fresh_uuid env))).

(** A password [bcrypt.hash] is not asked to hash, or a string. *)
Definition hashable (password : value) : Prop :=
  truthy password = false ∨ ∃ pw, password = VStr pw.

(** A value Prisma takes for a nullable text column: a string, [null] or
    [undefined]. *)
Definition nullable_text (v : value) : Prop := ∃ o, as_text v = Ok o.

(** The [expiresAt] that [createLink] and [updateLink] hand to Prisma. *)
Definition requested_expiry (env : Env) (req : Request) : option (option Z) :=
  if truthy (opt_prop (req_body req) "expiresAt")
  then Some (parse_date env (opt_prop (req_body req) "expiresAt"))
  else None.

(** The row a successful [prisma.link.create] writes. *)
Definition new_link (env : Env) (req : Request) (w : World)
    (slug destination : string) (title password webhookUrl : option string)
    (expiresAt : option Z) : Link :=
  mkLink (next_link_id w) slug destination title (req_apiKey_id req) (now env)
         password expiresAt webhookUrl
         (JS.or (opt_prop (req_body req) "meta") (VObj PNil)).

(** The body of the 200 of [createLink]. *)
Definition created_body (req : Request) (l : Link) : props :=
  PCons "slug" (VStr (link_slug l))
    (PCons "shortUrl"
       (VStr (req_protocol req ++ "://" ++ req_host req ++ "/" ++ link_slug l))
      (PCons "id" (VNum (link_id l) 0) PNil)).

Section StoredPassword.
Context `{Bcrypt}.

(** What [createLink] and [updateLink] put in the password column for a
    hashable password: the bcrypt hash at cost 10, or [null]. *)
Definition stored_password (env : Env) (password : value) : value :=
  match password with
  | VStr pw => if String.eqb pw "" then VNull
               else VStr (bcrypt_hash (fresh_salt env) pw 10)
  | _ => VNull
  end.
End StoredPassword.

(** Scenarios for the link controller. *)
Module LinkScenario.

(** [POST /api/links] with a destination only. *)
Definition create_plain : Request :=
  Scenario.post (PCons "destination" (VStr "https://example.com/landing") PNil).

(** [POST /api/links] asking for the slug [promo1]. *)
Definition create_promo1 : Request :=
  Scenario.post
    (PCons "destination" (VStr "https://example.com/other")
      (PCons "slug" (VStr "promo1") PNil)).

(** [POST /api/links] without a destination. *)
Definition create_nothing : Request :=
  Scenario.post (PCons "slug" (VStr "empty") PNil).

(** A request whose body the parser left undefined. *)
Definition bare_get (slug : string) : Request := {|
  req_params_slug := slug;
  req_query_password := VUndefined;
  req_body := VUndefined;
  req_logger := VUndefined;
  req_ip := VStr "203.0.113.9";
  req_headers := PNil;
  req_apiKey_id := 0;
  req_protocol := "http";
  req_host := "localhost:4000";
|}.

End LinkScenario.

(** ** Words for updating, deleting and listing links *)

(** The primary key of the Link table: no two rows share an id. *)
Definition ids_unique (w : World) : Prop :=
  ∀ k1 k2 r1 r2,
    links w !! k1 = Some r1 → links w !! k2 = Some r2 →
    link_id r1 = link_id r2 → k1 = k2.

(** The API key [k] made the link [row] with id [n], stored under [key]. *)
Definition owns (w : World) (k n : Z) (key : string) (row : Link) : Prop :=
  links w !! key = Some row ∧ link_id row = n ∧ link_apiKeyId row = k.

(** The API key [k] has no link with id [n]. *)
Definition owns_none (w : World) (k n : Z) : Prop :=
  ∀ key row, links w !! key = Some row → link_id row = n →
             link_apiKeyId row ≠ k.

(** [parseInt(req.params.id)] is the integer [n], and fits the column. *)
Definition names_id (id : string) (n : Z) : Prop :=
  as_int (parseInt id None) = Some n.

(** A body whose fields Prisma accepts as the data of an update. *)
Definition updatable (env : Env) (body : value) : Prop :=
  is_Some (set_required (opt_prop body "destination") "")
  ∧ is_Some (set_required (opt_prop body "slug") "")
  ∧ is_Some (set_nullable (opt_prop body "title") None)
  ∧ is_Some (set_nullable (opt_prop body "webhookUrl") None)
  ∧ (truthy (opt_prop body "expiresAt") = true →
     is_Some (parse_date env (opt_prop body "expiresAt"))).

Definition not_found_body : props :=
  PCons "error" (VStr "Link not found") PNil.

(** The body of a 400 of the link controller. *)
Definition failed_body (what details : string) : props :=
  PCons "error" (VStr what) (PCons "details" (VStr details) PNil).

(** The body of the 200 of [updateLink]. *)
Definition updated_body (req : Request) (l : Link) : props :=
  PCons "id" (VNum (link_id l) 0)
    (PCons "slug" (VStr (link_slug l))
      (PCons "shortUrl"
         (VStr (req_protocol req ++ "://" ++ req_host req ++ "/" ++ link_slug l))
        PNil)).

(** What [updateLink] answers to the outcome of [prisma.link.update]. *)
Definition update_response (req : Request) (r : prisma_error + Link)
  : Response :=
  match r with
  | inr link => SendJson 200 (updated_body req link)
  | inl err =>
    if is_P2025 err then SendJson 404 not_found_body
    else SendJson 400 (failed_body "Link update failed" (error_message err))
  end.

Definition deleted_body : props :=
  PCons "message" (VStr "Link deleted successfully") PNil.

(** An item the loop of [bulkCreateLinks] passes over: it can be read and
    has no destination. *)
Definition skipped (item : value) : Prop :=
  item ≠ VUndefined ∧ item ≠ VNull
  ∧ truthy (opt_prop item "destination") = false.

(** A number that fits a 64-bit integer column. *)
Definition fits_int (n : Z) : Prop := (- 2 ^ 63 ≤ n < 2 ^ 63)%Z.

(** Scenarios for updating, deleting and listing. *)
Module UpdateScenario.

(** A request of the API key [apiKey] with the JSON body [body]. *)
Definition by_key (apiKey : Z) (body : props) : Request := {|
  req_params_slug := "";
  req_query_password := VUndefined;
  req_body := VObj body;
  req_logger := VUndefined;
  req_ip := VStr "203.0.113.9";
  req_headers := PNil;
  req_apiKey_id := apiKey;
  req_protocol := "http";
  req_host := "localhost:4000";
|}.

(** A body changing the destination only. *)
Definition move : Request :=
  by_key 7 (PCons "destination" (VStr "https://example.com/moved") PNil).

(** The same from another API key. *)
Definition move_foreign : Request :=
  by_key 9 (PCons "destination" (VStr "https://example.com/moved") PNil).

(** The click of one visit of [promo1]. *)
Definition visit : Click :=
  mkClick 1 1 (make_clickData Scenario.env0 (Scenario.get "promo1" VUndefined)).

(** [promo1] after that visit. *)
Definition visited : World := {|
  links := {[ "promo1" := Scenario.promo1 ]};
  clicks := [visit];
  next_link_id := 2;
  next_click_id := 2;
  trace := [];
|}.

(** Two items of a bulk request: one without a destination, one with. *)
Definition no_destination : value := VObj (PCons "title" (VStr "Draft") PNil).

Definition with_destination : value :=
  VObj (PCons "destination" (VStr "https://example.com/a") PNil).

End UpdateScenario.

(** * Properties *)

(** ** Evaluation lemmas *)

Lemma truthy_text (o : option string) :
  truthy (of_text o) = true ↔ ∃ s, o = Some s ∧ s ≠ "".
Proof.
  destruct o as [s|]; simpl.
  - rewrite negb_true_iff. split.
    + intros E. exists s. split; [done|]. intros ->. discriminate.
    + intros (s' & [= <-] & Hne). by apply String.eqb_neq.
  - split; [discriminate|]. intros (s & [=] & _).
Qed.

Lemma strict_ne_str (v : value) (s : string) :
  strict_ne v (VStr s) = false ↔ v = VStr s.
Proof.
  destruct v; simpl; try (split; [discriminate|congruence]).
  rewrite negb_false_iff. split.
  - intros E%String.eqb_eq. congruence.
  - intros [= ->]. apply String.eqb_refl.
Qed.

Lemma expiry_test (env : Env) (link : Link) :
  match link_expiresAt link with
  | Some expiresAt => now env >? expiresAt
  | None => false
  end = true ↔ is_expired env link.
Proof.
  unfold is_expired. destruct (link_expiresAt link) as [t|].
  - split.
    + intros Hgt. exists t. split; [done|]. lia.
    + intros (t' & [= <-] & Hlt). lia.
  - split; [discriminate|]. intros (t & [=] & _).
Qed.

(** The test guarding the 401, in the words of the specification. *)
Lemma gate_test (req : Request) (link : Link) :
  (if truthy (of_text (link_password link))
   then negb (truthy (providedPassword req))
        || strict_ne (providedPassword req) (of_text (link_password link))
   else false) = false ↔ gate_passes req link.
Proof.
  unfold gate_passes, protected_by.
  destruct (truthy (of_text (link_password link))) eqn:Hpw.
  - apply truthy_text in Hpw as (s & Hs & Hne). rewrite Hs. simpl.
    rewrite orb_false_iff, negb_false_iff, strict_ne_str. split.
    + intros [_ ->] stored [[= <-] _]. done.
    + intros Hall. rewrite (Hall s) by done. split; [|done].
      simpl. apply negb_true_iff. by apply String.eqb_neq.
  - split; [|done]. intros _ stored [Hs Hne].
    assert (truthy (of_text (link_password link)) = true) as Ht
      by (apply truthy_text; eauto).
    congruence.
Qed.

Lemma read_providedPassword_ok (req : Request) (w : World) :
  password_readable req →
  read_providedPassword req w = (Ok (providedPassword req), w).
Proof.
  unfold read_providedPassword, providedPassword, or_else, JS.or, get_prop,
    has_body.
  intros [Hq | [Hu Hn]].
  - by rewrite Hq.
  - destruct (truthy (req_query_password req)); [done|].
    by destruct (req_body req).
Qed.

(** Reading the supplied password gives it or throws, and changes
    nothing. *)
Lemma read_providedPassword_cases (req : Request) (w : World) :
  read_providedPassword req w = (Ok (providedPassword req), w)
  ∨ (∃ e, read_providedPassword req w = (Throw e, w)).
Proof.
  unfold read_providedPassword, providedPassword, or_else, JS.or, get_prop.
  destruct (truthy (req_query_password req)); [by left|].
  destruct (req_body req); eauto.
Qed.

(** A request that supplies a string can be read. *)
Lemma provided_string_readable (req : Request) (s : string) :
  providedPassword req = VStr s → password_readable req.
Proof.
  unfold providedPassword, password_readable, has_body, JS.or.
  destruct (truthy (req_query_password req)); [by left|].
  intros Hbody. right. by destruct (req_body req).
Qed.

(** [redirectHandler] once the link row has been read. *)
Lemma redirectHandler_found (env : Env) (req : Request) (w : World) (link : Link) :
  link_lookup_fails env = false → found w req link →
  redirectHandler env req w =
    if match link_expiresAt link with
       | Some expiresAt => now env >? expiresAt
       | None => false
       end
    then (Ok (Send 410 "Gone"), w)
    else if truthy (of_text (link_password link))
    then match read_providedPassword req w with
         | (Ok provided, w') =>
           if negb (truthy provided)
              || strict_ne provided (of_text (link_password link))
           then (Ok (SendJson 401 challenge_body), w')
           else record_and_redirect env req link w'
         | (Throw e, w') => (Throw e, w')
         end
    else record_and_redirect env req link w.
Proof.
  intros Hup Hfound. unfold redirectHandler, link_findUnique, bind, get, ret.
  rewrite Hup. unfold found in Hfound. rewrite Hfound.
  repeat case_match; done.
Qed.

(** The same when the supplied password can be read. *)
Lemma redirectHandler_found_readable (env : Env) (req : Request) (w : World)
    (link : Link) :
  link_lookup_fails env = false → found w req link →
  password_readable req ∨ truthy (of_text (link_password link)) = false →
  redirectHandler env req w =
    if match link_expiresAt link with
       | Some expiresAt => now env >? expiresAt
       | None => false
       end
    then (Ok (Send 410 "Gone"), w)
    else if (if truthy (of_text (link_password link))
             then negb (truthy (providedPassword req))
                  || strict_ne (providedPassword req)
                               (of_text (link_password link))
             else false)
    then (Ok (SendJson 401 challenge_body), w)
    else record_and_redirect env req link w.
Proof.
  intros Hup Hfound Hread.
  rewrite (redirectHandler_found env req w link Hup Hfound).
  destruct Hread as [Hread | Hnone].
  - rewrite (read_providedPassword_ok req w Hread).
    repeat case_match; done.
  - rewrite Hnone. repeat case_match; done.
Qed.

(** What can happen to a request for a link that has not expired. *)
Lemma redirectHandler_live (env : Env) (req : Request) (w : World)
    (link : Link) :
  link_lookup_fails env = false → found w req link →
  match link_expiresAt link with
  | Some expiresAt => now env >? expiresAt
  | None => false
  end = false →
  (∃ e, redirectHandler env req w = (Throw e, w))
  ∨ redirectHandler env req w = (Ok (SendJson 401 challenge_body), w)
  ∨ redirectHandler env req w = record_and_redirect env req link w.
Proof.
  intros Hup Hfound Hlive.
  rewrite (redirectHandler_found env req w link Hup Hfound), Hlive.
  destruct (truthy (of_text (link_password link))); [|by right; right].
  destruct (read_providedPassword_cases req w) as [-> | (e & ->)];
    [|by left; exists e].
  destruct (negb (truthy (providedPassword req)) || strict_ne _ _);
    [by right; left|by right; right].
Qed.

Lemma redirectHandler_not_found (env : Env) (req : Request) (w : World) :
  link_lookup_fails env = false → links w !! req_params_slug req = None →
  redirectHandler env req w = (Ok (Send 404 "Not found"), w).
Proof.
  intros Hup Hnone. unfold redirectHandler, link_findUnique, bind, get, ret.
  by rewrite Hup, Hnone.
Qed.

(** [sendWebhook] never rejects. *)
Lemma sendWebhook_ok (env : Env) (url : value) (cd : ClickData) (link : Link)
    (w : World) :
  fst (sendWebhook env url cd link w) = Ok tt.
Proof.
  unfold sendWebhook, try_catch, axios_post, console_error, emit, bind,
    modify, throw, ret.
  destruct (truthy url); simpl; [|done].
  destruct url; simpl; try done.
  destruct (post_fails env s); done.
Qed.

(** Whatever the store and the receiver do, the tail of the handler
    answers with the redirect. *)
Lemma record_and_redirect_response (env : Env) (req : Request) (link : Link)
    (w : World) :
  fst (record_and_redirect env req link w)
  = Ok (Redirect 302 (link_destination link)).
Proof.
  unfold record_and_redirect, try_catch, click_create, console_error, emit,
    bind, modify, get, throw, ret.
  destruct (click_insert_fails env); simpl;
    (destruct (truthy (of_text (link_webhookUrl link))); simpl; [|done]);
    match goal with
    | |- context [sendWebhook ?e ?u ?c ?l ?s] =>
      pose proof (sendWebhook_ok e u c l s) as Hs;
      destruct (sendWebhook e u c l s) as [[[]|err] s']; simpl in Hs; try done
    end.
Qed.

(** The tail of the handler, run to the end. *)
Lemma record_and_redirect_run (env : Env) (req : Request) (link : Link)
    (w : World) :
  record_and_redirect env req link w =
    (Ok (Redirect 302 (link_destination link)),
     mkWorld (links w)
             (if click_insert_fails env then clicks w
              else clicks w ++ [mkClick (next_click_id w) (link_id link)
                                        (make_clickData env req)])
             (next_link_id w)
             (if click_insert_fails env then next_click_id w
              else next_click_id w + 1)
             (trace w ++ click_outcome env req link w
                      ++ webhook_outcome env req link)).
Proof.
  unfold record_and_redirect, click_outcome, webhook_outcome, post_outcome,
    sendWebhook, axios_post, try_catch, click_create, console_error, emit,
    bind, modify, get, throw, ret.
  destruct (click_insert_fails env); simpl;
    (destruct (link_webhookUrl link) as [url|]; simpl;
     [destruct (String.eqb url ""); simpl;
      [|destruct (post_fails env url); simpl]|]);
    rewrite <- ?app_assoc; simpl; rewrite ?app_nil_r; done.
Qed.

(** ** The concrete scenarios of the specification *)

(** [GET /promo1]: 302 to the destination, and exactly one Click row. *)
Example promo1_redirects :
  fst (redirectHandler Scenario.env0 (Scenario.get "promo1" VUndefined)
         (Scenario.world_of Scenario.promo1))
  = Ok (Redirect 302 "https://example.com/landing")
  ∧ length (clicks (snd (redirectHandler Scenario.env0
                           (Scenario.get "promo1" VUndefined)
                           (Scenario.world_of Scenario.promo1)))) = 1%nat.
Proof. by split. Qed.

(** [GET /secret] without a password: the 401 challenge. *)
Example secret_challenges :
  redirectHandler Scenario.env0 (Scenario.get "secret" VUndefined)
                  (Scenario.world_of Scenario.secret)
  = (Ok (SendJson 401 challenge_body), Scenario.world_of Scenario.secret).
Proof. reflexivity. Qed.

(** [GET /old], expired one second ago: 410 and no Click row. *)
Example old_is_gone :
  redirectHandler Scenario.env0 (Scenario.get "old" VUndefined)
                  (Scenario.world_of Scenario.old)
  = (Ok (Send 410 "Gone"), Scenario.world_of Scenario.old).
Proof. reflexivity. Qed.

(** [GET /edge], expiring at this very millisecond: still served. *)
Example edge_is_served :
  fst (redirectHandler Scenario.env0 (Scenario.get "edge" VUndefined)
         (Scenario.world_of Scenario.edge))
  = Ok (Redirect 302 "https://example.com/edge").
Proof. reflexivity. Qed.

(** [GET /promo1] with the click store and the webhook receiver down:
    still the redirect. *)
Example promo1_redirects_when_degraded :
  fst (redirectHandler Scenario.env_degraded (Scenario.get "promo1" VUndefined)
         (Scenario.world_of Scenario.promo1))
  = Ok (Redirect 302 "https://example.com/landing").
Proof. reflexivity. Qed.

(** ** Expiry *)

(** C2. A link whose [expiresAt] is set and strictly before the current
    time is answered with 410 whatever its password and whatever password
    the request carries, and only such a link is: one expiring at exactly
    the current time is not answered with 410, nor is one without
    [expiresAt]. *)
Theorem expired_iff_strictly_past (env : Env) (req : Request) (w : World)
    (link : Link) :
  link_lookup_fails env = false → found w req link →
  (is_expired env link →
     redirectHandler env req w = (Ok (Send 410 "Gone"), w))
  ∧ (http_status (fst (redirectHandler env req w)) = Some 410
     ↔ is_expired env link)
  ∧ (link_expiresAt link = Some (now env) →
     http_status (fst (redirectHandler env req w)) ≠ Some 410)
  ∧ (link_expiresAt link = None →
     http_status (fst (redirectHandler env req w)) ≠ Some 410).
Proof.
  intros Hup Hfound.
  assert (http_status (fst (redirectHandler env req w)) = Some 410
          ↔ is_expired env link) as Hiff.
  { rewrite <- expiry_test.
    destruct (match link_expiresAt link with
              | Some t => now env >? t | None => false end) eqn:Hexp.
    - by rewrite (redirectHandler_found env req w link Hup Hfound), Hexp.
    - split; [|discriminate].
      destruct (redirectHandler_live env req w link Hup Hfound Hexp)
        as [(e & ->) | [-> | ->]]; simpl; try discriminate.
      rewrite record_and_redirect_response. discriminate. }
  split; [|split; [done|split]].
  - intros Hexp. rewrite (redirectHandler_found env req w link Hup Hfound).
    apply expiry_test in Hexp. by rewrite Hexp.
  - intros Heq. rewrite Hiff. intros (t & Ht & Hlt).
    rewrite Heq in Ht. injection Ht as <-. lia.
  - intros Hnone. rewrite Hiff. intros (t & Ht & _). congruence.
Qed.

Lemma expired_iff_strictly_past_witness :
  redirectHandler Scenario.env0 (Scenario.get "old" VUndefined)
                  (Scenario.world_of Scenario.old)
  = (Ok (Send 410 "Gone"), Scenario.world_of Scenario.old).
Proof.
  apply (expired_iff_strictly_past Scenario.env0
           (Scenario.get "old" VUndefined) (Scenario.world_of Scenario.old)
           Scenario.old).
  - reflexivity.
  - reflexivity.
  - exists 0. split; [reflexivity|]. simpl. lia.
Defined.

(** ** The four responses *)






(** ** Denials have no side effects *)

(** C4. A request answered with 404, 410 or 401 leaves the world as it
    was: no Click row is created, nothing is logged, no webhook is
    posted. *)
Theorem denial_has_no_side_effect (env : Env) (req : Request) (w w' : World)
    (r : Response) :
  redirectHandler env req w = (Ok r, w') →
  status_of r = 404 ∨ status_of r = 410 ∨ status_of r = 401 →
  w' = w
  ∧ clicks w' = clicks w
  ∧ List.filter is_click_created (trace w')
    = List.filter is_click_created (trace w)
  ∧ List.filter is_webhook_post (trace w')
    = List.filter is_webhook_post (trace w).
Proof.
  intros Hrun Hstatus.
  assert (w' = w) as ->; [|done].
  destruct (link_lookup_fails env) eqn:Hup.
  { unfold redirectHandler, link_findUnique, bind, throw in Hrun.
    rewrite Hup in Hrun. discriminate. }
  destruct (links w !! req_params_slug req) as [link|] eqn:Hl.
  - destruct (match link_expiresAt link with
              | Some t => now env >? t | None => false end) eqn:Hexp.
    + rewrite (redirectHandler_found env req w link Hup Hl), Hexp in Hrun.
      by simplify_eq.
    + destruct (redirectHandler_live env req w link Hup Hl Hexp)
        as [(e & Hthrow) | [Hdenied | Htail]].
      * congruence.
      * congruence.
      * rewrite Htail, record_and_redirect_run in Hrun. simplify_eq.
        simpl in Hstatus. lia.
  - rewrite (redirectHandler_not_found env req w Hup Hl) in Hrun.
    by simplify_eq.
Qed.

Lemma denial_has_no_side_effect_witness :
  Scenario.world_of Scenario.secret = Scenario.world_of Scenario.secret
  ∧ clicks (Scenario.world_of Scenario.secret) = []
  ∧ List.filter is_click_created (trace (Scenario.world_of Scenario.secret)) = []
  ∧ List.filter is_webhook_post (trace (Scenario.world_of Scenario.secret)) = [].
Proof.
  apply (denial_has_no_side_effect Scenario.env0
           (Scenario.get "secret" VUndefined)
           (Scenario.world_of Scenario.secret)
           (Scenario.world_of Scenario.secret)
           (SendJson 401 challenge_body)).
  - reflexivity.
  - right. right. reflexivity.
Defined.

(** ** Redirect availability over analytics completeness *)

Lemma redirectHandler_resolved (env : Env) (req : Request) (w : World)
    (link : Link) :
  link_lookup_fails env = false → resolves env w req link →
  redirectHandler env req w = record_and_redirect env req link w.
Proof.
  intros Hup (Hfound & Hnexp & Hgate).
  rewrite (redirectHandler_found_readable env req w link Hup Hfound).
  - apply gate_test in Hgate. rewrite Hgate.
    rewrite <- expiry_test in Hnexp.
    by destruct (match link_expiresAt link with
                 | Some t => now env >? t | None => false end).
  - destruct (truthy (of_text (link_password link))) eqn:Hpw; [|by right].
    left. apply truthy_text in Hpw as (stored & Hs & Hne).
    apply (provided_string_readable req stored). by apply Hgate.
Qed.

(** C5. A link that resolves is answered with the 302 to its destination
    whether or not the click insert and the webhook POST succeed; a failed
    insert writes no row and is logged, a failed POST is logged. *)
Theorem redirect_survives_downstream_failures (env : Env) (req : Request)
    (w : World) (link : Link) :
  link_lookup_fails env = false → resolves env w req link →
  ∃ w', redirectHandler env req w
        = (Ok (Redirect 302 (link_destination link)), w')
    ∧ (click_insert_fails env = true →
       clicks w' = clicks w
       ∧ ConsoleError "Failed to record click" "Can't reach database server"
         ∈ trace w')
    ∧ (∀ url, link_webhookUrl link = Some url → url ≠ "" →
       post_fails env url = true →
       ConsoleError "Webhook delivery failed:" "connect ECONNREFUSED"
         ∈ trace w').
Proof.
  intros Hup Hres.
  rewrite (redirectHandler_resolved env req w link Hup Hres).
  rewrite record_and_redirect_run. eexists. split; [done|]. simpl. split.
  - intros Hfail. unfold click_outcome. rewrite Hfail. split; [done|].
    set_solver.
  - intros url Hurl Hne Hpost. unfold webhook_outcome, post_outcome.
    rewrite Hurl, Hpost. apply String.eqb_neq in Hne. rewrite Hne.
    set_solver.
Qed.

Lemma promo1_resolves (env : Env) (password : value) :
  resolves env (Scenario.world_of Scenario.promo1)
           (Scenario.get "promo1" password) Scenario.promo1.
Proof.
  split; [reflexivity|]. split.
  - intros (t & Ht & _). discriminate.
  - intros stored [Hs _]. discriminate.
Defined.

Lemma redirect_survives_downstream_failures_witness :
  ∃ w', redirectHandler Scenario.env_degraded
          (Scenario.get "promo1" VUndefined)
          (Scenario.world_of Scenario.promo1)
        = (Ok (Redirect 302 "https://example.com/landing"), w')
    ∧ (click_insert_fails Scenario.env_degraded = true →
       clicks w' = []
       ∧ ConsoleError "Failed to record click" "Can't reach database server"
         ∈ trace w')
    ∧ (∀ url, link_webhookUrl Scenario.promo1 = Some url → url ≠ "" →
       post_fails Scenario.env_degraded url = true →
       ConsoleError "Webhook delivery failed:" "connect ECONNREFUSED"
         ∈ trace w').
Proof.
  apply (redirect_survives_downstream_failures Scenario.env_degraded
           (Scenario.get "promo1" VUndefined)
           (Scenario.world_of Scenario.promo1) Scenario.promo1).
  - reflexivity.
  - apply promo1_resolves.
Defined.

(** ** The webhook and the click insert *)

(** With the click store down, [GET /promo1] writes no Click row and
    still posts to the link's webhook. *)
Lemma webhook_posted_despite_failed_insert :
  click_insert_fails Scenario.env_degraded = true
  ∧ clicks (snd (redirectHandler Scenario.env_degraded
                   (Scenario.get "promo1" VUndefined)
                   (Scenario.world_of Scenario.promo1))) = []
  ∧ List.filter is_webhook_post
      (trace (snd (redirectHandler Scenario.env_degraded
                     (Scenario.get "promo1" VUndefined)
                     (Scenario.world_of Scenario.promo1))))
    = [WebhookPost "https://hooks.example.com/clicks"
         (make_payload Scenario.env_degraded
            (make_clickData Scenario.env_degraded
               (Scenario.get "promo1" VUndefined))
            Scenario.promo1)]
  ∧ ¬ webhook_only_after_successful_insert.
Proof.
  split; [reflexivity|]. split; [reflexivity|]. split; [reflexivity|].
  intros Hspec.
  specialize (Hspec Scenario.env_degraded (Scenario.get "promo1" VUndefined)
                (Scenario.world_of Scenario.promo1) Scenario.promo1
                eq_refl (promo1_resolves _ _) eq_refl).
  discriminate Hspec.
Qed.

(** C6 (amended). For a link that resolves and has a webhook URL, the
    POST to that URL follows the click insert attempt whether the insert
    succeeded (a Click row was created) or failed (the failure was
    logged); nothing else is posted. *)
Theorem webhook_posted_after_insert_attempt (env : Env) (req : Request)
    (w : World) (link : Link) (url : string) :
  link_lookup_fails env = false → resolves env w req link →
  link_webhookUrl link = Some url → url ≠ "" →
  ∃ attempt,
    attempt = (if click_insert_fails env
               then ConsoleError "Failed to record click"
                                 "Can't reach database server"
               else ClickCreated (mkClick (next_click_id w) (link_id link)
                                          (make_clickData env req)))
    ∧ trace (snd (redirectHandler env req w))
      = (trace w ++ [attempt]
         ++ [WebhookPost url (make_payload env (make_clickData env req) link)]
         ++ post_outcome env url)%list
    ∧ List.filter is_webhook_post (post_outcome env url) = [].
Proof.
  intros Hup Hres Hurl Hne.
  rewrite (redirectHandler_resolved env req w link Hup Hres).
  rewrite record_and_redirect_run. simpl.
  unfold click_outcome, webhook_outcome. rewrite Hurl.
  apply String.eqb_neq in Hne. rewrite Hne.
  eexists. split; [reflexivity|]. split.
  - by destruct (click_insert_fails env).
  - unfold post_outcome. by destruct (post_fails env url).
Qed.

Lemma webhook_posted_after_insert_attempt_witness :
  ∃ attempt,
    attempt = ConsoleError "Failed to record click"
                           "Can't reach database server"
    ∧ trace (snd (redirectHandler Scenario.env_degraded
                    (Scenario.get "promo1" VUndefined)
                    (Scenario.world_of Scenario.promo1)))
      = ([] ++ [attempt]
         ++ [WebhookPost "https://hooks.example.com/clicks"
               (make_payload Scenario.env_degraded
                  (make_clickData Scenario.env_degraded
                     (Scenario.get "promo1" VUndefined))
                  Scenario.promo1)]
         ++ post_outcome Scenario.env_degraded
              "https://hooks.example.com/clicks")%list
    ∧ List.filter is_webhook_post
        (post_outcome Scenario.env_degraded
           "https://hooks.example.com/clicks") = [].
Proof.
  apply (webhook_posted_after_insert_attempt Scenario.env_degraded
           (Scenario.get "promo1" VUndefined)
           (Scenario.world_of Scenario.promo1) Scenario.promo1
           "https://hooks.example.com/clicks").
  - reflexivity.
  - apply promo1_resolves.
  - reflexivity.
  - discriminate.
Defined.

(** ** Creating links *)

Lemma link_create_spec (env : Env) (slug destination title : value)
    (apiKeyId : Z) (meta password : value) (expiresAt : option (option Z))
    (webhookUrl : value) (w w' : World) (r : result Link) :
  link_create env slug destination title apiKeyId meta password expiresAt
              webhookUrl w = (r, w') →
  match r with
  | Ok l =>
    as_required_text slug = Ok (link_slug l)
    ∧ as_required_text destination = Ok (link_destination l)
    ∧ as_text password = Ok (link_password l)
    ∧ links w !! link_slug l = None
    ∧ links w' = <[link_slug l := l]> (links w)
    ∧ clicks w' = clicks w
  | Throw _ => w' = w
  end.
Proof.
  unfold link_create, lift, bind, modify, emit, get, throw, ret.
  destruct (link_insert_fails env); [by intros [= <- <-]|].
  destruct (as_required_text slug) as [s|] eqn:Hs; [|by intros [= <- <-]].
  destruct (as_required_text destination) as [d|] eqn:Hd;
    [|by intros [= <- <-]].
  destruct (as_text title) as [t|]; [|by intros [= <- <-]].
  destruct (as_text password) as [p|] eqn:Hp; [|by intros [= <- <-]].
  destruct (as_text webhookUrl) as [h|]; [|by intros [= <- <-]].
  destruct expiresAt as [[e|]|]; simpl;
    try (by intros [= <- <-]);
    (destruct (links w !! s) eqn:Hl; simpl; intros [= <- <-]; done).
Qed.

(** What [store_link] puts in the password column. *)
Lemma store_link_password (env : Env) (req : Request) (finalSlug hashed : value)
    (w w' : World) (r : result Response) (slug : string) (l : Link) :
  store_link env req finalSlug hashed w = (r, w') →
  links w !! slug = None → links w' !! slug = Some l →
  as_text hashed = Ok (link_password l).
Proof.
  unfold store_link, try_catch, bind, ret.
  match goal with
  | |- context [link_create ?a ?b ?c ?d ?e ?f ?g ?h ?i ?j] =>
    destruct (link_create a b c d e f g h i j) as [r0 w0] eqn:Hc
  end.
  apply link_create_spec in Hc.
  destruct r0 as [l0|e]; intros [= <- <-] Hbefore Hafter; [|congruence].
  destruct Hc as (_ & _ & Hpw & Hnone & Hlinks & _).
  rewrite Hlinks in Hafter.
  destruct (decide (link_slug l0 = slug)) as [<-|Hne].
  - rewrite lookup_insert_eq in Hafter. congruence.
  - rewrite lookup_insert_ne in Hafter by done. congruence.
Qed.

Section LinkControllerFacts.
Context `{Bcrypt}.

(** A password shorter or longer than a bcrypt string is not its own
    hash. *)
Lemma plaintext_is_not_its_hash (salt pw : string) (rounds : Z) :
  String.length pw ≠ 60%nat → pw ≠ bcrypt_hash salt pw rounds.
Proof.
  intros Hlen Heq. apply Hlen. rewrite Heq at 1. apply bcrypt_hash_length.
Qed.

(** What [createLink] puts in the password column of the link it
    creates. *)
Lemma createLink_password (env : Env) (req : Request) (w w' : World)
    (r : Response) (slug : string) (l : Link) :
  createLink env req w = (Ok r, w') →
  links w !! slug = None → links w' !! slug = Some l →
  link_password l =
    match opt_prop (req_body req) "password" with
    | VStr pw => if String.eqb pw "" then None
                 else Some (bcrypt_hash (fresh_salt env) pw 10)
    | _ => None
    end.
Proof.
  unfold createLink, bcrypt_hash_js.
  intros Hrun Hbefore Hafter.
  assert (∃ destination,
    get_prop (S := World) (req_body req) "destination" w = (Ok destination, w))
    as (destination & Hdest).
  { unfold get_prop, bind, throw, ret in *.
    destruct (req_body req); try discriminate; eauto. }
  unfold bind at 1 in Hrun. rewrite Hdest in Hrun.
  destruct (truthy destination); simpl in Hrun;
    [|unfold ret in Hrun; injection Hrun as <- <-; congruence].
  assert (∀ hashed,
    store_link env req
      (JS.or (opt_prop (req_body req) "slug")
             (VStr (String.substring 0 8 (fresh_uuid env)))) hashed w
    = (Ok r, w') → Ok (link_password l) = as_text hashed) as Hstep.
  { intros hashed Hs. symmetry.
    by apply (store_link_password _ _ _ _ _ _ _ slug _ Hs). }
  destruct (opt_prop (req_body req) "password") as [| |b|m e| |pw|o];
    unfold bind, throw, ret in Hrun; simpl in Hrun.
  - by apply Hstep in Hrun as [= ->].
  - by apply Hstep in Hrun as [= ->].
  - destruct b; [discriminate|]. by apply Hstep in Hrun as [= ->].
  - destruct (m =? 0)%Z; simpl in Hrun; [|discriminate].
    by apply Hstep in Hrun as [= ->].
  - by apply Hstep in Hrun as [= ->].
  - destruct (String.eqb pw ""); simpl in Hrun;
      by apply Hstep in Hrun as [= ->].
  - discriminate.
Qed.
End LinkControllerFacts.

(** ** Password-protected links *)

Section PasswordGate.
Context `{Bcrypt}.

(** A protected link challenges every request that supplies anything
    but the content of its password column. *)
Lemma protected_link_challenges (env : Env) (req : Request) (w : World)
    (link : Link) (stored : string) :
  link_lookup_fails env = false → found w req link →
  ¬ is_expired env link → protected_by link stored →
  password_readable req →
  providedPassword req ≠ VStr stored →
  redirectHandler env req w = (Ok (SendJson 401 challenge_body), w).
Proof.
  intros Hup Hfound Hnexp Hprot Hread Hdiff.
  rewrite (redirectHandler_found_readable env req w link Hup Hfound)
    by (by left).
  rewrite <- expiry_test in Hnexp.
  destruct (match link_expiresAt link with
            | Some t => now env >? t | None => false end); [done|].
  match goal with
  | |- context [if ?b then (Ok (SendJson 401 _), _) else _] =>
    destruct b eqn:Hgate
  end; [done|].
  apply gate_test in Hgate. by specialize (Hgate stored Hprot).
Qed.

(** The column holds a bcrypt string, the request the plaintext: the
    two differ, and the request is challenged. *)
Lemma hashed_link_challenges_its_password (env : Env) (req : Request)
    (w : World) (link : Link) (salt pw : string) (rounds : Z) :
  link_lookup_fails env = false → found w req link →
  ¬ is_expired env link →
  link_password link = Some (bcrypt_hash salt pw rounds) →
  String.length pw ≠ 60%nat →
  providedPassword req = VStr pw →
  redirectHandler env req w = (Ok (SendJson 401 challenge_body), w).
Proof.
  intros Hup Hfound Hnexp Hpw Hlen Hprov.
  apply (protected_link_challenges env req w link
           (bcrypt_hash salt pw rounds)); try done.
  - split; [done|]. intros Hempty.
    pose proof (bcrypt_hash_length salt pw rounds) as Hl.
    rewrite Hempty in Hl. discriminate.
  - by apply (provided_string_readable req pw).
  - rewrite Hprov. intros [= Heq].
    by apply (plaintext_is_not_its_hash salt pw rounds).
Qed.

(** Whoever supplies the content of the password column itself gets
    through. *)
Lemma stored_hash_opens_link (env : Env) (req : Request) (w : World)
    (link : Link) (stored : string) :
  link_lookup_fails env = false → found w req link →
  ¬ is_expired env link → link_password link = Some stored →
  providedPassword req = VStr stored →
  fst (redirectHandler env req w)
  = Ok (Redirect 302 (link_destination link)).
Proof.
  intros Hup Hfound Hnexp Hpw Hprov.
  rewrite (redirectHandler_resolved env req w link Hup).
  - apply record_and_redirect_response.
  - split; [done|]. split; [done|].
    intros s [Hs _]. congruence.
Qed.

(** C1, at the scenario of the specification. [POST /api/links] with
    slug [secret] and password [hunter2] answers 200 and stores the
    bcrypt hash of [hunter2]; [GET /secret?password=hunter2] is then
    answered with the 401 challenge, not with the redirect, and no
    click is recorded. *)
Theorem correct_password_is_challenged :
  createLink Scenario.env0 (Scenario.post Scenario.create_secret)
             Scenario.empty_world
  = (Ok (SendJson 200
           (PCons "slug" (VStr "secret")
             (PCons "shortUrl" (VStr "http://localhost:4000/secret")
               (PCons "id" (VNum 1 0) PNil)))), world_with_secret)
  ∧ redirectHandler Scenario.env0 (Scenario.get "secret" (VStr "hunter2"))
                    world_with_secret
    = (Ok (SendJson 401 challenge_body), world_with_secret).
Proof.
  split; [vm_compute; reflexivity|].
  apply (hashed_link_challenges_its_password _ _ _ created_secret
           "N9qo8uLOickgx2ZMRZoMye" "hunter2" 10).
  - reflexivity.
  - apply lookup_singleton_eq.
  - intros (t & Ht & _). discriminate.
  - reflexivity.
  - simpl. lia.
  - reflexivity.
Qed.
End PasswordGate.

Lemma correct_password_is_challenged_witness :
  @createLink Scenario.toy_bcrypt Scenario.env0
              (Scenario.post Scenario.create_secret) Scenario.empty_world
  = (Ok (SendJson 200
           (PCons "slug" (VStr "secret")
             (PCons "shortUrl" (VStr "http://localhost:4000/secret")
               (PCons "id" (VNum 1 0) PNil)))),
     @world_with_secret Scenario.toy_bcrypt)
  ∧ redirectHandler Scenario.env0 (Scenario.get "secret" (VStr "hunter2"))
                    (@world_with_secret Scenario.toy_bcrypt)
    = (Ok (SendJson 401 challenge_body),
       @world_with_secret Scenario.toy_bcrypt).
Proof.
  exact (@correct_password_is_challenged Scenario.toy_bcrypt).
Defined.

(** When the body parser has left [req.body] undefined, a request for a
    protected link that carries no [?password=] makes the handler throw
    before it answers. *)
Lemma unparsed_body_rejects (env : Env) (req : Request) (w : World)
    (link : Link) (stored : string) :
  link_lookup_fails env = false → found w req link →
  ¬ is_expired env link → protected_by link stored →
  truthy (req_query_password req) = false → req_body req = VUndefined →
  redirectHandler env req w
  = (Throw (TypeError "Cannot read properties of undefined"), w).
Proof.
  intros Hup Hfound Hnexp Hprot Hq Hbody.
  rewrite (redirectHandler_found env req w link Hup Hfound).
  rewrite <- expiry_test in Hnexp.
  destruct (match link_expiresAt link with
            | Some t => now env >? t | None => false end); [done|].
  assert (truthy (of_text (link_password link)) = true) as ->
    by (apply truthy_text; exists stored; apply Hprot).
  unfold read_providedPassword, or_else, get_prop, throw.
  by rewrite Hq, Hbody.
Qed.

(** ** The empty password *)

Lemma unprotected_link_redirects (env : Env) (req : Request) (w : World)
    (link : Link) :
  link_lookup_fails env = false → found w req link →
  link_password link = None → ¬ is_expired env link →
  fst (redirectHandler env req w) = Ok (Redirect 302 (link_destination link)).
Proof.
  intros Hup Hfound Hpw Hnexp.
  rewrite (redirectHandler_resolved env req w link Hup).
  - apply record_and_redirect_response.
  - split; [done|]. split; [done|]. intros s [Hs _]. congruence.
Qed.




(** * The geo resolver *)

Module GeoFacts.
Import Geo GeoSpec.
Local Open Scope list_scope.
Local Open Scope Z_scope.

(** ** The cache *)

Section CacheFacts.
Context {V : Type}.
Variables (max : nat) (ttl : Z).
Implicit Types (c : LRU.t V) (k : string) (v : V).

Lemma find_remove k c :
  List.find (LRU.is_key k) (LRU.remove k c) = None.
Proof.
  unfold LRU.remove. induction c as [|e c IH]; simpl; [done|].
  destruct (LRU.is_key k e) eqn:He; simpl; [done|]. by rewrite He.
Qed.

(** A miss leaves the key absent. *)
Lemma get_miss_absent now k c :
  fst (LRU.get ttl now k c) = None →
  List.find (LRU.is_key k) (snd (LRU.get ttl now k c)) = None.
Proof.
  unfold LRU.get. destruct (List.find (LRU.is_key k) c) as [e|] eqn:Hf;
    [|done].
  destruct (LRU.is_stale ttl now e); simpl; [|discriminate].
  intros _. apply find_remove.
Qed.

Lemma get_absent now k c :
  List.find (LRU.is_key k) c = None → LRU.get ttl now k c = (None, c).
Proof. unfold LRU.get. by intros ->. Qed.

(** An entry read within [ttl] of being set is a hit. *)
Lemma get_set now now' k v c :
  (now' - now ≤ ttl)%Z →
  fst (LRU.get ttl now' k (LRU.set max now k v c)) = Some v.
Proof.
  intros Hfresh. unfold LRU.get, LRU.set, LRU.is_stale. simpl.
  unfold LRU.is_key at 1. simpl. rewrite String.eqb_refl. simpl.
  destruct (now' - now >? ttl) eqn:Hgt; [lia|done].
Qed.

(** An entry read later than [ttl] after being set is a miss. *)
Lemma get_set_stale now now' k v c :
  (ttl < now' - now)%Z →
  fst (LRU.get ttl now' k (LRU.set max now k v c)) = None.
Proof.
  intros Hstale. unfold LRU.get, LRU.set, LRU.is_stale. simpl.
  unfold LRU.is_key at 1. simpl. rewrite String.eqb_refl. simpl.
  destruct (now' - now >? ttl) eqn:Hgt; [done|lia].
Qed.

Lemma find_skip k (pre rest : LRU.t V) :
  Forall (λ x, LRU.is_key k x = false) pre →
  List.find (LRU.is_key k) (pre ++ rest) = List.find (LRU.is_key k) rest.
Proof.
  induction 1 as [|x pre Hx _ IH]; simpl; [done|]. by rewrite Hx.
Qed.

Lemma holds_find k e n c :
  holds k e n c → List.find (LRU.is_key k) c = Some e.
Proof.
  intros (Hk & pre & post & -> & _ & Hpre).
  rewrite (find_skip k pre _ Hpre). simpl.
  unfold LRU.is_key. by rewrite Hk, String.eqb_refl.
Qed.

Lemma holds_weaken k e n m c :
  (n ≤ m)%nat → holds k e n c → holds k e m c.
Proof.
  intros Hle (Hk & pre & post & -> & Hlen & Hpre).
  split; [done|]. exists pre, post. split; [done|]. split; [lia|done].
Qed.

Lemma holds_head k e c : LRU.e_key e = k → holds k e 0 (e :: c).
Proof.
  intros Hk. split; [done|]. exists [], c. split; [done|].
  split; [simpl; lia|constructor].
Qed.

Lemma holds_cons k e n x c :
  LRU.is_key k x = false → holds k e n c → holds k e (S n) (x :: c).
Proof.
  intros Hx (Hk & pre & post & -> & Hlen & Hpre).
  split; [done|]. exists (x :: pre), post. split; [done|].
  split; [simpl; lia|by constructor].
Qed.

Lemma remove_keeps k k' (l : LRU.t V) :
  Forall (λ x, LRU.is_key k x = false) l →
  Forall (λ x, LRU.is_key k x = false) (LRU.remove k' l)
  ∧ (length (LRU.remove k' l) ≤ length l)%nat.
Proof.
  unfold LRU.remove.
  induction 1 as [|x l Hx _ [IH1 IH2]]; simpl; [by split|].
  destruct (negb (LRU.is_key k' x)); simpl; split;
    try done; try (by constructor); lia.
Qed.

Lemma holds_remove k k' e n c :
  k' ≠ k → holds k e n c → holds k e n (LRU.remove k' c).
Proof.
  intros Hne (Hk & pre & post & -> & Hlen & Hpre).
  split; [done|].
  exists (LRU.remove k' pre), (LRU.remove k' post).
  destruct (remove_keeps k k' pre Hpre) as [Hpre' Hlen'].
  split; [|split; [lia|done]].
  unfold LRU.remove. rewrite List.filter_app. simpl.
  assert (LRU.is_key k' e = false) as ->; [|done].
  unfold LRU.is_key. rewrite Hk. by apply String.eqb_neq.
Qed.

Lemma holds_firstn k e n m c :
  (n < m)%nat → holds k e n c → holds k e n (firstn m c).
Proof.
  intros Hlt (Hk & pre & post & -> & Hlen & Hpre).
  split; [done|].
  assert (∃ j, (m - length pre)%nat = S j) as [j Hj]
    by (exists (m - length pre - 1)%nat; lia).
  exists pre, (firstn j post).
  split; [|done].
  by rewrite List.firstn_app, List.firstn_all2, Hj by lia.
Qed.

(** A read of any key at a time when [e] is still live keeps [e]. *)
Lemma holds_get now k k' e n c :
  (now - LRU.e_start e ≤ ttl)%Z → holds k e n c →
  holds k e (S n) (snd (LRU.get ttl now k' c)).
Proof.
  intros Hlive Hholds. unfold LRU.get.
  destruct (decide (k' = k)) as [->|Hne].
  - rewrite (holds_find k e n c Hholds).
    unfold LRU.is_stale.
    destruct (now - LRU.e_start e >? ttl)%Z eqn:Hgt; [lia|]. simpl.
    apply (holds_weaken k e 0); [lia|].
    apply holds_head. by destruct Hholds.
  - destruct (List.find (LRU.is_key k') c) as [e'|] eqn:Hfind.
    + apply List.find_some in Hfind as [_ Hkey].
      destruct (LRU.is_stale ttl now e'); simpl.
      * apply (holds_weaken k e n); [lia|]. by apply holds_remove.
      * apply holds_cons; [|by apply holds_remove].
        unfold LRU.is_key in *. apply String.eqb_eq in Hkey.
        rewrite Hkey. by apply String.eqb_neq.
    + simpl. by apply (holds_weaken k e n); [lia|].
Qed.

(** A read of another key that misses leaves [e] where it is. *)
Lemma holds_get_miss now k k' e n c :
  k' ≠ k → fst (LRU.get ttl now k' c) = None → holds k e n c →
  holds k e n (snd (LRU.get ttl now k' c)).
Proof.
  intros Hne Hmiss Hholds. unfold LRU.get in *.
  destruct (List.find (LRU.is_key k') c) as [e'|]; [|done].
  destruct (LRU.is_stale ttl now e'); simpl in *; [|discriminate].
  by apply holds_remove.
Qed.

(** A write of another key keeps [e] while fewer than [max - 1] entries
    are ahead of it. *)
Lemma holds_set now k k' e n v c :
  k' ≠ k → (n < max - 1)%nat → holds k e n c →
  holds k e (S n) (LRU.set max now k' v c).
Proof.
  intros Hne Hroom Hholds. unfold LRU.set.
  apply holds_cons.
  - unfold LRU.is_key. simpl. by apply String.eqb_neq.
  - destruct (length (LRU.remove k' c) <? max)%nat.
    + by apply holds_remove.
    + apply holds_firstn; [lia|]. by apply holds_remove.
Qed.
End CacheFacts.

(** ** Evaluation lemmas *)

Lemma truthy_nonempty (ip : string) :
  ip ≠ "" → truthy (of_text (Some ip)) = true.
Proof. intros Hne. apply truthy_text. eauto. Qed.

Lemma lookup_absent_ip (env : Env) (w : World) (ip : option string) :
  ip = None ∨ ip = Some "" → lookup env ip w = (Ok None, w).
Proof. by intros [-> | ->]. Qed.

Lemma lookup_hit (env : Env) (w : World) (ip : string) (out : GeoResult) :
  ip ≠ "" → fst (LRU.get cache_ttl (now env) ip (cache w)) = Some out →
  lookup env (Some ip) w
  = (Ok (Some out),
     mkWorld (snd (LRU.get cache_ttl (now env) ip (cache w))) (trace w)).
Proof.
  intros Hne Hhit. unfold lookup, cache_get, bind, ret.
  rewrite (truthy_nonempty ip Hne). simpl.
  destruct (LRU.get cache_ttl (now env) ip (cache w)) as [r c].
  simpl in Hhit. by subst r.
Qed.

(** [lookup] on a miss, by what the provider answers. *)
Lemma lookup_miss (env : Env) (w : World) (ip : string) :
  ip ≠ "" → cache_miss env ip w →
  let c := snd (LRU.get cache_ttl (now env) ip (cache w)) in
  let url := url_of env ip in
  lookup env (Some ip) w =
    match provider env url with
    | NetworkFailure msg =>
      (Ok None, mkWorld c (trace w ++ [Fetch url;
                                       ConsoleError "Geo lookup failed" msg]))
    | HttpResponse false _ => (Ok None, mkWorld c (trace w ++ [Fetch url]))
    | HttpResponse true None =>
      (Ok None,
       mkWorld c (trace w ++ [Fetch url;
                              ConsoleError "Geo lookup failed"
                                           "Unexpected token in JSON"]))
    | HttpResponse true (Some data) =>
      match data with
      | VUndefined =>
        (Ok None,
         mkWorld c (trace w ++ [Fetch url; ConsoleLog "Geo data" data;
                                ConsoleError "Geo lookup failed"
                                  "Cannot read properties of undefined"]))
      | VNull =>
        (Ok None,
         mkWorld c (trace w ++ [Fetch url; ConsoleLog "Geo data" data;
                                ConsoleError "Geo lookup failed"
                                  "Cannot read properties of null"]))
      | _ =>
        if strict_ne (opt_prop data "status") (VStr "success")
        then (Ok None,
              mkWorld c (trace w ++ [Fetch url; ConsoleLog "Geo data" data]))
        else (Ok (Some (normalize ip data)),
              mkWorld (LRU.set cache_max (now env) ip (normalize ip data) c)
                      (trace w ++ [Fetch url; ConsoleLog "Geo data" data]))
      end
    end.
Proof.
  intros Hne Hmiss. unfold cache_miss in Hmiss. simpl.
  unfold lookup, cache_get, bind, ret.
  rewrite (truthy_nonempty ip Hne). simpl.
  destruct (LRU.get cache_ttl (now env) ip (cache w)) as [r c].
  simpl in Hmiss. subst r. simpl.
  unfold try_catch, fetch, res_json, get_prop, cache_set, emit, bind, modify,
    throw, ret, url_of, normalize.
  simpl.
  destruct (provider env (GEO_API env ++ "/" ++ ip)%string)
    as [msg|[] [data|]];
    simpl; rewrite <- ?app_assoc; simpl; try done.
  destruct data; simpl; rewrite <- ?app_assoc; simpl; try done;
    match goal with
    | |- context [strict_ne ?a ?b] => destruct (strict_ne a b)
    end; simpl; rewrite <- ?app_assoc; done.
Qed.

Lemma provider_failure_run (env : Env) (w : World) (ip : string) :
  ip ≠ "" → cache_miss env ip w →
  provider_failure (provider env (url_of env ip)) →
  ∃ logged,
    lookup env (Some ip) w
    = (Ok None,
       mkWorld (snd (LRU.get cache_ttl (now env) ip (cache w)))
               (trace w ++ Fetch (url_of env ip) :: logged))
    ∧ fetches logged = [].
Proof.
  intros Hne Hmiss Hfail. rewrite (lookup_miss env w ip Hne Hmiss).
  destruct Hfail as [msg|body| |data Hstatus].
  - by eexists.
  - by exists [].
  - by eexists.
  - assert (strict_ne (opt_prop data "status") (VStr "success") = true) as Hs.
    { destruct (strict_ne _ _) eqn:E; [done|].
      by apply strict_ne_str in E. }
    destruct data; rewrite ?Hs; by eexists.
Qed.

Lemma fetches_app (t t' : list event) :
  fetches (t ++ t') = fetches t ++ fetches t'.
Proof.
  induction t as [|e t IH]; simpl; [done|].
  destruct e; simpl; by rewrite IH.
Qed.

(** A lookup of an [ip] the cache does not hold calls the provider, and
    never throws. *)
Lemma lookup_absent_fetches (env : Env) (w : World) (ip : string) :
  ip ≠ "" → List.find (LRU.is_key ip) (cache w) = None →
  ∃ r w', lookup env (Some ip) w = (Ok r, w')
          ∧ fetches (trace w') = fetches (trace w) ++ [url_of env ip].
Proof.
  intros Hne Habs.
  assert (cache_miss env ip w) as Hmiss
    by (unfold cache_miss; by rewrite get_absent).
  rewrite (lookup_miss env w ip Hne Hmiss).
  destruct (provider env (url_of env ip)) as [msg|[] [data|]];
    try destruct data;
    try match goal with
        | |- context [strict_ne ?a ?b] => destruct (strict_ne a b)
        end;
    eexists _, _; (split; [reflexivity|]); simpl;
    by rewrite fetches_app.
Qed.

(** ** Failures *)

(** C7. [lookup] of a [null] or empty [ip] returns [null] and touches
    nothing. On a cache miss, whatever way the provider fails, [lookup]
    returns [null] after one external call and stores nothing, so that the
    next lookup of the same [ip] calls the provider again. *)
Theorem failed_lookup_is_null_and_uncached (env : Env) (w : World) :
  (∀ ip, ip = None ∨ ip = Some "" → lookup env ip w = (Ok None, w))
  ∧ (∀ ip, ip ≠ "" → cache_miss env ip w →
       provider_failure (provider env (url_of env ip)) →
       ∃ w1, lookup env (Some ip) w = (Ok None, w1)
         ∧ fetches (trace w1) = fetches (trace w) ++ [url_of env ip]
         ∧ List.find (LRU.is_key ip) (cache w1) = None
         ∧ ∀ env2, ∃ r2 w2,
             lookup env2 (Some ip) w1 = (Ok r2, w2)
             ∧ fetches (trace w2)
               = fetches (trace w1) ++ [url_of env2 ip]).
Proof.
  split; [apply lookup_absent_ip|].
  intros ip Hne Hmiss Hfail.
  destruct (provider_failure_run env w ip Hne Hmiss Hfail)
    as (logged & Hrun & Hlogged).
  eexists. split; [exact Hrun|]. simpl.
  assert (List.find (LRU.is_key ip)
            (snd (LRU.get cache_ttl (now env) ip (cache w))) = None) as Habs
    by (by apply get_miss_absent).
  split; [|split; [done|]].
  - rewrite fetches_app. simpl. by rewrite Hlogged.
  - intros env2. by apply lookup_absent_fetches.
Qed.

Lemma failed_lookup_is_null_and_uncached_witness :
  ∃ w1, lookup GeoScenario.env_fail (Some "203.0.113.9") GeoScenario.cold
        = (Ok None, w1)
    ∧ fetches (trace w1)
      = fetches (trace GeoScenario.cold)
        ++ [url_of GeoScenario.env_fail "203.0.113.9"]
    ∧ List.find (LRU.is_key "203.0.113.9") (cache w1) = None
    ∧ ∀ env2, ∃ r2 w2,
        lookup env2 (Some "203.0.113.9") w1 = (Ok r2, w2)
        ∧ fetches (trace w2)
          = fetches (trace w1) ++ [url_of env2 "203.0.113.9"].
Proof.
  apply (failed_lookup_is_null_and_uncached GeoScenario.env_fail
           GeoScenario.cold).
  - discriminate.
  - reflexivity.
  - apply fail_status. discriminate.
Defined.

(** ** Normalization *)

Lemma falsy_values :
  (∀ e, falsy (VNum 0 e)) ∧ falsy (VStr "") ∧ falsy VUndefined ∧ falsy VNull.
Proof. by repeat split. Qed.

Lemma or_null_falsy (v : value) : falsy v → JS.or v VNull = VNull.
Proof. unfold falsy, JS.or. by intros ->. Qed.

Lemma provider_success_run (env : Env) (w : World) (ip : string)
    (data : value) :
  ip ≠ "" → cache_miss env ip w →
  provider_success (provider env (url_of env ip)) data →
  lookup env (Some ip) w
  = (Ok (Some (normalize ip data)),
     mkWorld (LRU.set cache_max (now env) ip (normalize ip data)
                (snd (LRU.get cache_ttl (now env) ip (cache w))))
             (trace w ++ [Fetch (url_of env ip); ConsoleLog "Geo data" data])).
Proof.
  intros Hne Hmiss [Hresp Hstatus].
  rewrite (lookup_miss env w ip Hne Hmiss), Hresp.
  destruct data; try discriminate. by rewrite Hstatus.
Qed.

(** C9. On a provider success the result [lookup] returns, which is the
    one it stores, has [null] in every field whose source is falsy: a
    [lat] or [lon] of 0 and an empty [country], [city] or region become
    [null], exactly as a field the provider left out. *)
Theorem falsy_fields_become_null (env : Env) (w : World) (ip : string)
    (data : value) :
  ip ≠ "" → cache_miss env ip w →
  provider_success (provider env (url_of env ip)) data →
  ∃ out w1,
    lookup env (Some ip) w = (Ok (Some out), w1)
    ∧ fst (LRU.get cache_ttl (now env) ip (cache w1)) = Some out
    ∧ (falsy (opt_prop data "country") → geo_country out = VNull)
    ∧ (falsy (opt_prop data "regionName") → falsy (opt_prop data "region") →
       geo_region out = VNull)
    ∧ (falsy (opt_prop data "city") → geo_city out = VNull)
    ∧ (falsy (opt_prop data "lat") → geo_lat out = VNull)
    ∧ (falsy (opt_prop data "lon") → geo_lon out = VNull)
    ∧ (∀ e, opt_prop data "lat" = VNum 0 e → geo_lat out = VNull)
    ∧ (∀ e, opt_prop data "lon" = VNum 0 e → geo_lon out = VNull)
    ∧ (opt_prop data "country" = VStr "" → geo_country out = VNull)
    ∧ (opt_prop data "city" = VStr "" → geo_city out = VNull)
    ∧ (opt_prop data "regionName" = VStr "" → opt_prop data "region" = VStr "" →
       geo_region out = VNull)
    ∧ (opt_prop data "lat" = VUndefined → geo_lat out = VNull)
    ∧ (opt_prop data "country" = VUndefined → geo_country out = VNull).
Proof.
  intros Hne Hmiss Hsucc.
  exists (normalize ip data). eexists.
  split; [by apply provider_success_run|]. simpl.
  split; [apply get_set; unfold cache_ttl; lia|].
  repeat split.
  - apply or_null_falsy.
  - intros H1 H2. unfold JS.or at 1. rewrite H1. by apply or_null_falsy.
  - apply or_null_falsy.
  - apply or_null_falsy.
  - apply or_null_falsy.
  - by intros e ->.
  - by intros e ->.
  - by intros ->.
  - by intros ->.
  - by intros -> ->.
  - by intros ->.
  - by intros ->.
Qed.

Lemma cold_success :
  provider_success
    (provider GeoScenario.env_up (url_of GeoScenario.env_up "203.0.113.9"))
    GeoScenario.success_payload.
Proof. by split. Defined.

Lemma falsy_fields_become_null_witness :
  lookup GeoScenario.env_up (Some "203.0.113.9") GeoScenario.cold
  = (Ok (Some (mkGeo "203.0.113.9" (VStr "Iceland") VNull (VStr "Reykjavik")
                     VNull (VNum (-21) 0))),
     snd (lookup GeoScenario.env_up (Some "203.0.113.9") GeoScenario.cold)).
Proof.
  destruct (falsy_fields_become_null GeoScenario.env_up GeoScenario.cold
              "203.0.113.9" GeoScenario.success_payload)
    as (out & w1 & Hrun & _).
  - discriminate.
  - reflexivity.
  - exact cold_success.
  - reflexivity.
Defined.

(** ** Caching *)

(** C8. After a lookup that went to the provider and succeeded, a second
    lookup of the same [ip] no later than one hour after the first
    returns the first result and makes no external call, whatever the
    provider would answer at that time. *)
Theorem second_lookup_is_served_from_cache (env1 env2 : Env) (w0 w1 : World)
    (ip : string) (out : GeoResult) :
  cache_miss env1 ip w0 →
  lookup env1 (Some ip) w0 = (Ok (Some out), w1) →
  now env2 - now env1 ≤ 3600000 →
  ∃ w2, lookup env2 (Some ip) w1 = (Ok (Some out), w2)
        ∧ trace w2 = trace w1
        ∧ fetches (trace w2) = fetches (trace w1).
Proof.
  intros Hmiss Hfirst Hfresh.
  assert (ip ≠ "") as Hne by (intros ->; discriminate).
  assert (fst (LRU.get cache_ttl (now env2) ip (cache w1)) = Some out) as Hhit.
  { rewrite (lookup_miss env1 w0 ip Hne Hmiss) in Hfirst.
    destruct (provider env1 (url_of env1 ip)) as [msg|[] [data|]];
      try discriminate.
    destruct data; try discriminate;
      match type of Hfirst with
      | context [strict_ne ?a ?b] => destruct (strict_ne a b)
      end; try discriminate;
      injection Hfirst as <- <-; simpl; apply get_set;
      unfold cache_ttl; lia. }
  rewrite (lookup_hit env2 w1 ip out Hne Hhit).
  by eexists.
Qed.

Lemma second_lookup_is_served_from_cache_witness :
  ∃ w2, lookup GeoScenario.env_down (Some "203.0.113.9")
          (snd (lookup GeoScenario.env_up (Some "203.0.113.9")
                  GeoScenario.cold))
        = (Ok (Some (normalize "203.0.113.9" GeoScenario.success_payload)), w2)
    ∧ trace w2
      = trace (snd (lookup GeoScenario.env_up (Some "203.0.113.9")
                      GeoScenario.cold))
    ∧ fetches (trace w2)
      = fetches (trace (snd (lookup GeoScenario.env_up (Some "203.0.113.9")
                               GeoScenario.cold))).
Proof.
  apply (second_lookup_is_served_from_cache GeoScenario.env_up
           GeoScenario.env_down GeoScenario.cold).
  - reflexivity.
  - reflexivity.
  - simpl. lia.
Defined.

(** One lookup of any address moves a live entry back by at most one
    place. *)
Lemma lookup_keeps (env : Env) (ip' : option string) (w : World)
    (k : string) (e : LRU.entry GeoResult) (n : nat) :
  holds k e n (cache w) → now env - LRU.e_start e ≤ cache_ttl →
  (n < cache_max - 1)%nat →
  holds k e (S n) (cache (snd (lookup env ip' w))).
Proof.
  intros Hholds Hlive Hroom.
  destruct ip' as [i|];
    [|by apply (holds_weaken k e n); [lia|]].
  destruct (decide (i = "")) as [->|Hne];
    [by apply (holds_weaken k e n); [lia|]|].
  destruct (fst (LRU.get cache_ttl (now env) i (cache w))) as [out|] eqn:Hget.
  - rewrite (lookup_hit env w i out Hne Hget). simpl. by apply holds_get.
  - assert (i ≠ k) as Hik.
    { intros ->. unfold LRU.get in Hget.
      rewrite (holds_find k e n _ Hholds) in Hget.
      unfold LRU.is_stale in Hget.
      destruct (now env - LRU.e_start e >? cache_ttl) eqn:Hgt; [lia|].
      discriminate. }
    pose proof (holds_get_miss cache_ttl (now env) k i e n (cache w)
                  Hik Hget Hholds) as Hkept.
    pose proof (holds_weaken k e n (S n) _ ltac:(lia) Hkept) as Hkept'.
    rewrite (lookup_miss env w i Hne Hget).
    destruct (provider env (url_of env i)) as [msg|[] [data|]]; simpl;
      try done.
    destruct data; simpl; try done;
      match goal with
      | |- context [strict_ne ?a ?b] => destruct (strict_ne a b)
      end; simpl; try done;
      by apply holds_set.
Qed.

Lemma lookups_keep (ops : list (Env * option string)) (w : World)
    (k : string) (e : LRU.entry GeoResult) (n : nat) :
  holds k e n (cache w) →
  Forall (λ op, now (fst op) - LRU.e_start e ≤ cache_ttl) ops →
  (n + length ops ≤ cache_max - 1)%nat →
  holds k e (n + length ops) (cache (lookups ops w)).
Proof.
  revert w n.
  induction ops as [|[env ip'] ops IH]; intros w n Hholds Hlive Hroom.
  - simpl. by rewrite Nat.add_0_r.
  - inversion Hlive as [|? ? Hnow Hrest]; subst.
    cbn [lookups length fst] in *.
    replace (n + S (length ops))%nat with (S n + length ops)%nat in * by lia.
    apply IH; [|done|done].
    apply lookup_keeps; [done|done|lia].
Qed.

(** The same with lookups in between: fewer than 500 of them, of any
    addresses, none later than one hour after the first lookup, leave the
    first result in the cache. *)
Lemma served_from_cache_after_other_lookups (env1 env2 : Env)
    (ops : list (Env * option string)) (w0 w1 : World) (ip : string)
    (out : GeoResult) :
  cache_miss env1 ip w0 →
  lookup env1 (Some ip) w0 = (Ok (Some out), w1) →
  (length ops < 500)%nat →
  Forall (λ op, now (fst op) - now env1 ≤ 3600000) ops →
  now env2 - now env1 ≤ 3600000 →
  ∃ w3, lookup env2 (Some ip) (lookups ops w1) = (Ok (Some out), w3)
        ∧ trace w3 = trace (lookups ops w1).
Proof.
  intros Hmiss Hfirst Hfew Hlive Hfresh.
  assert (ip ≠ "") as Hne by (intros ->; discriminate).
  assert (holds ip (LRU.mkEntry ip out (now env1)) 0 (cache w1)) as Hholds.
  { rewrite (lookup_miss env1 w0 ip Hne Hmiss) in Hfirst.
    destruct (provider env1 (url_of env1 ip)) as [msg|[] [data|]];
      try discriminate.
    destruct data; try discriminate;
      match type of Hfirst with
      | context [strict_ne ?a ?b] => destruct (strict_ne a b)
      end; try discriminate;
      injection Hfirst as <- <-; simpl; by apply holds_head. }
  pose proof (lookups_keep ops w1 ip _ 0 Hholds Hlive) as Hkept.
  simpl in Hkept. unfold cache_max in Hkept.
  specialize (Hkept ltac:(lia)).
  assert (fst (LRU.get cache_ttl (now env2) ip (cache (lookups ops w1)))
          = Some out) as Hhit.
  { unfold LRU.get. rewrite (holds_find ip _ _ _ Hkept).
    unfold LRU.is_stale. simpl.
    destruct (now env2 - now env1 >? cache_ttl) eqn:Hgt;
      [unfold cache_ttl in Hgt; lia|done]. }
  rewrite (lookup_hit env2 _ ip out Hne Hhit). by eexists.
Qed.

(** The bound is the capacity of the cache: once 500 other addresses have
    been cached, the first one has been evicted and is fetched again. *)
Lemma capacity_evicts_least_recently_used :
  length GeoScenario.crowd = 500%nat
  ∧ Forall (λ op, now (fst op) - now GeoScenario.env_up ≤ 3600000)
           GeoScenario.crowd
  ∧ fst (lookup GeoScenario.env_down (Some "203.0.113.9")
           (lookups GeoScenario.crowd
              (snd (lookup GeoScenario.env_up (Some "203.0.113.9")
                      GeoScenario.cold))))
    = Ok None
  ∧ last (fetches (trace (snd (lookup GeoScenario.env_down
                                 (Some "203.0.113.9")
                                 (lookups GeoScenario.crowd
                                    (snd (lookup GeoScenario.env_up
                                            (Some "203.0.113.9")
                                            GeoScenario.cold)))))))
    = Some "http://ip-api.com/json/203.0.113.9".
Proof.
  split; [reflexivity|]. split.
  - apply List.Forall_forall. intros [env ip'] Hin.
    apply List.in_map_iff in Hin as (n & [= <- _] & _). simpl. lia.
  - split; vm_compute; reflexivity.
Qed.

(** Once the hour has passed the provider is asked again. *)
Lemma lookup_after_ttl_fetches (env1 env2 : Env) (w0 w1 : World)
    (ip : string) (out : GeoResult) :
  cache_miss env1 ip w0 →
  lookup env1 (Some ip) w0 = (Ok (Some out), w1) →
  3600000 < now env2 - now env1 →
  ∃ r w2, lookup env2 (Some ip) w1 = (Ok r, w2)
          ∧ fetches (trace w2) = fetches (trace w1) ++ [url_of env2 ip].
Proof.
  intros Hmiss Hfirst Hstale.
  assert (ip ≠ "") as Hne by (intros ->; discriminate).
  assert (cache_miss env2 ip w1) as Hmiss2.
  { unfold cache_miss.
    rewrite (lookup_miss env1 w0 ip Hne Hmiss) in Hfirst.
    destruct (provider env1 (url_of env1 ip)) as [msg|[] [data|]];
      try discriminate.
    destruct data; try discriminate;
      match type of Hfirst with
      | context [strict_ne ?a ?b] => destruct (strict_ne a b)
      end; try discriminate;
      injection Hfirst as <- <-; simpl; apply get_set_stale;
      unfold cache_ttl; lia. }
  rewrite (lookup_miss env2 w1 ip Hne Hmiss2).
  destruct (provider env2 (url_of env2 ip)) as [msg|[] [data|]];
    try destruct data;
    try match goal with
        | |- context [strict_ne ?a ?b] => destruct (strict_ne a b)
        end;
    eexists _, _; (split; [reflexivity|]); simpl;
    by rewrite fetches_app.
Qed.

End GeoFacts.

(** * Further properties of the geo resolver *)

Module GeoMore.
Import Geo GeoSpec GeoFacts.
Local Open Scope list_scope.
Local Open Scope Z_scope.

(** ** The size of the cache *)

Section CacheSize.
Context {V : Type}.
Variables (max : nat) (ttl : Z).
Implicit Types (c : LRU.t V) (k : string) (v : V).




End CacheSize.



(** ** Errors and external calls *)


(** ** Caching across other lookups, and expiry *)

(** X3. After a lookup that went to the provider and succeeded, fewer
    than 500 lookups of any addresses later, none of them later than one
    hour after the first, a lookup of the same address within that hour
    still returns the first result without an external call. *)
Theorem cached_result_survives_other_lookups (env1 env2 : Env)
    (ops : list (Env * option string)) (w0 w1 : World) (ip : string)
    (out : GeoResult) :
  cache_miss env1 ip w0 →
  lookup env1 (Some ip) w0 = (Ok (Some out), w1) →
  (length ops < 500)%nat →
  Forall (λ op, now (fst op) - now env1 ≤ 3600000) ops →
  now env2 - now env1 ≤ 3600000 →
  ∃ w3, lookup env2 (Some ip) (lookups ops w1) = (Ok (Some out), w3)
        ∧ fetches (trace w3) = fetches (trace (lookups ops w1)).
Proof.
  intros Hmiss Hfirst Hfew Hlive Hfresh.
  destruct (served_from_cache_after_other_lookups env1 env2 ops w0 w1 ip out
              Hmiss Hfirst Hfew Hlive Hfresh) as (w3 & Hrun & Htrace).
  exists w3. split; [done|]. by rewrite Htrace.
Qed.

Lemma cached_result_survives_other_lookups_witness :
  ∃ w3, lookup GeoScenario.env_down (Some "203.0.113.9")
          (lookups GeoScenario2.passers_by
             (snd (lookup GeoScenario.env_up (Some "203.0.113.9")
                     GeoScenario.cold)))
        = (Ok (Some (normalize "203.0.113.9" GeoScenario.success_payload)), w3)
    ∧ fetches (trace w3)
      = fetches (trace (lookups GeoScenario2.passers_by
                          (snd (lookup GeoScenario.env_up (Some "203.0.113.9")
                                  GeoScenario.cold)))).
Proof.
  apply (cached_result_survives_other_lookups GeoScenario.env_up
           GeoScenario.env_down GeoScenario2.passers_by GeoScenario.cold).
  - reflexivity.
  - reflexivity.
  - simpl. lia.
  - repeat constructor; simpl; lia.
  - simpl. lia.
Defined.

(** X4. Once more than one hour has passed since the lookup that cached
    an address, the next lookup of it calls the provider again. *)
Theorem expired_entry_is_fetched_again (env1 env2 : Env) (w0 w1 : World)
    (ip : string) (out : GeoResult) :
  cache_miss env1 ip w0 →
  lookup env1 (Some ip) w0 = (Ok (Some out), w1) →
  3600000 < now env2 - now env1 →
  ∃ r w2, lookup env2 (Some ip) w1 = (Ok r, w2)
          ∧ fetches (trace w2) = fetches (trace w1) ++ [url_of env2 ip].
Proof.
  intros Hmiss Hfirst Hstale.
  by apply (lookup_after_ttl_fetches env1 env2 w0 w1 ip out).
Qed.

Lemma expired_entry_is_fetched_again_witness :
  ∃ r w2, lookup GeoScenario2.env_late (Some "203.0.113.9")
            (snd (lookup GeoScenario.env_up (Some "203.0.113.9")
                    GeoScenario.cold))
          = (Ok r, w2)
    ∧ fetches (trace w2)
      = fetches (trace (snd (lookup GeoScenario.env_up (Some "203.0.113.9")
                               GeoScenario.cold)))
        ++ [url_of GeoScenario2.env_late "203.0.113.9"].
Proof.
  apply (expired_entry_is_fetched_again GeoScenario.env_up
           GeoScenario2.env_late GeoScenario.cold _ "203.0.113.9"
           (normalize "203.0.113.9" GeoScenario.success_payload)).
  - reflexivity.
  - reflexivity.
  - simpl. lia.
Defined.

(** ** Normalization of truthy fields *)

Lemma or_truthy (a b : value) : truthy a = true → JS.or a b = a.
Proof. unfold JS.or. by intros ->. Qed.

(** X5. On a provider success the result carries the address asked for
    and every truthy field of the payload unchanged; the region is
    [regionName] when that is truthy and [region] otherwise. *)
Theorem truthy_fields_pass_through (env : Env) (w : World) (ip : string)
    (data : value) :
  ip ≠ "" → cache_miss env ip w →
  provider_success (provider env (url_of env ip)) data →
  ∃ out w1,
    lookup env (Some ip) w = (Ok (Some out), w1)
    ∧ geo_ip out = ip
    ∧ (truthy (opt_prop data "country") = true →
       geo_country out = opt_prop data "country")
    ∧ (truthy (opt_prop data "city") = true →
       geo_city out = opt_prop data "city")
    ∧ (truthy (opt_prop data "lat") = true →
       geo_lat out = opt_prop data "lat")
    ∧ (truthy (opt_prop data "lon") = true →
       geo_lon out = opt_prop data "lon")
    ∧ (truthy (opt_prop data "regionName") = true →
       geo_region out = opt_prop data "regionName")
    ∧ (truthy (opt_prop data "regionName") = false →
       truthy (opt_prop data "region") = true →
       geo_region out = opt_prop data "region").
Proof.
  intros Hne Hmiss Hsucc.
  exists (normalize ip data). eexists.
  split; [by apply provider_success_run|]. simpl.
  split; [done|].
  repeat split; try apply or_truthy.
  intros Hname Hregion. unfold JS.or at 1. rewrite Hname.
  by apply or_truthy.
Qed.

Lemma truthy_fields_pass_through_witness :
  ∃ out w1,
    lookup GeoScenario2.env_region_only (Some "197.248.0.1") GeoScenario.cold
    = (Ok (Some out), w1)
    ∧ geo_ip out = "197.248.0.1"%string
    ∧ (truthy (opt_prop GeoScenario2.region_only_payload "country") = true →
       geo_country out = opt_prop GeoScenario2.region_only_payload "country")
    ∧ (truthy (opt_prop GeoScenario2.region_only_payload "city") = true →
       geo_city out = opt_prop GeoScenario2.region_only_payload "city")
    ∧ (truthy (opt_prop GeoScenario2.region_only_payload "lat") = true →
       geo_lat out = opt_prop GeoScenario2.region_only_payload "lat")
    ∧ (truthy (opt_prop GeoScenario2.region_only_payload "lon") = true →
       geo_lon out = opt_prop GeoScenario2.region_only_payload "lon")
    ∧ (truthy (opt_prop GeoScenario2.region_only_payload "regionName") = true →
       geo_region out
       = opt_prop GeoScenario2.region_only_payload "regionName")
    ∧ (truthy (opt_prop GeoScenario2.region_only_payload "regionName") = false →
       truthy (opt_prop GeoScenario2.region_only_payload "region") = true →
       geo_region out = opt_prop GeoScenario2.region_only_payload "region").
Proof.
  apply (truthy_fields_pass_through GeoScenario2.env_region_only
           GeoScenario.cold "197.248.0.1" GeoScenario2.region_only_payload).
  - discriminate.
  - reflexivity.
  - by split.
Defined.

End GeoMore.

(** * Further properties of the handlers *)

(** ** webhook.service.js *)

(** X6. [sendWebhook] never rejects and never touches the store. Without
    a URL it does nothing at all; with one it makes exactly one POST, of
    the event [link_click] with the click data and the link's id, slug
    and destination, and logs the failure when the receiver does not
    answer. *)
Theorem sendWebhook_is_contained (env : Env) (url : value) (cd : ClickData)
    (link : Link) (w : World) :
  ∃ w', sendWebhook env url cd link w = (Ok tt, w')
    ∧ links w' = links w ∧ clicks w' = clicks w
    ∧ (truthy url = false → w' = w)
    ∧ (∀ s, url = VStr s → s ≠ "" →
       trace w' = (trace w ++ WebhookPost s (make_payload env cd link)
                              :: post_outcome env s)%list)
    ∧ wp_event (make_payload env cd link) = "link_click"
    ∧ wp_click (make_payload env cd link) = cd
    ∧ wp_link_id (make_payload env cd link) = link_id link
    ∧ wp_link_slug (make_payload env cd link) = link_slug link
    ∧ wp_link_destination (make_payload env cd link) = link_destination link.
Proof.
  unfold sendWebhook, try_catch, axios_post, console_error, emit, bind,
    modify, throw, ret, post_outcome.
  destruct (truthy url) eqn:Hurl; simpl.
  - destruct url as [| |b|m e| |s|o]; simpl in *; try discriminate;
      try (eexists; repeat split; simpl; try done; intros ? [=]).
    destruct (post_fails env s) eqn:Hpost; eexists;
      (repeat split; simpl; try done);
      intros s' [= <-] _; rewrite Hpost; by rewrite <- ?app_assoc.
  - eexists. repeat split; try done. intros s -> Hne. simpl in Hurl.
    apply negb_false_iff, String.eqb_eq in Hurl. done.
Qed.

(** ** track.controller.js *)

(** X7. A visit that resolves while the click store answers appends
    exactly one Click row: it carries the link's id, the time of the
    request, the address from the request logger (or else [req.ip]), the
    user agent, and [null] for each geo field the logger has no value
    for. The Link table is unchanged. *)
Theorem resolved_visit_records_one_click (env : Env) (req : Request)
    (w : World) (link : Link) :
  link_lookup_fails env = false → resolves env w req link →
  click_insert_fails env = false →
  ∃ w' c,
    redirectHandler env req w
    = (Ok (Redirect 302 (link_destination link)), w')
    ∧ clicks w' = (clicks w ++ [c])%list
    ∧ links w' = links w
    ∧ click_id c = next_click_id w
    ∧ click_linkId c = link_id link
    ∧ cd_occurredAt (click_data c) = now env
    ∧ cd_ip (click_data c)
      = JS.or (opt_prop (req_logger req) "ip") (req_ip req)
    ∧ cd_ua (click_data c) = prop "user-agent" (req_headers req)
    ∧ (truthy (opt_prop (req_logger req) "geo") = false →
       cd_country (click_data c) = VNull
       ∧ cd_region (click_data c) = VNull
       ∧ cd_city (click_data c) = VNull).
Proof.
  intros Hup Hres Hstore.
  rewrite (redirectHandler_resolved env req w link Hup Hres).
  rewrite record_and_redirect_run, Hstore.
  eexists _, _. split; [reflexivity|]. simpl.
  do 7 (split; [done|]).
  intros Hgeo. unfold make_clickData. simpl.
  unfold JS.or at 2 4 6. by rewrite Hgeo.
Qed.

Lemma resolved_visit_records_one_click_witness :
  ∃ w' c,
    redirectHandler Scenario.env0 (Scenario.get "promo1" VUndefined)
                    (Scenario.world_of Scenario.promo1)
    = (Ok (Redirect 302 "https://example.com/landing"), w')
    ∧ clicks w' = ([] ++ [c])%list
    ∧ links w' = links (Scenario.world_of Scenario.promo1)
    ∧ click_id c = 1
    ∧ click_linkId c = 1
    ∧ cd_occurredAt (click_data c) = 1000
    ∧ cd_ip (click_data c)
      = JS.or (opt_prop (req_logger (Scenario.get "promo1" VUndefined)) "ip")
              (req_ip (Scenario.get "promo1" VUndefined))
    ∧ cd_ua (click_data c)
      = prop "user-agent" (req_headers (Scenario.get "promo1" VUndefined))
    ∧ (truthy (opt_prop (req_logger (Scenario.get "promo1" VUndefined)) "geo")
       = false →
       cd_country (click_data c) = VNull
       ∧ cd_region (click_data c) = VNull
       ∧ cd_city (click_data c) = VNull).
Proof.
  apply (resolved_visit_records_one_click Scenario.env0
           (Scenario.get "promo1" VUndefined)
           (Scenario.world_of Scenario.promo1) Scenario.promo1).
  - reflexivity.
  - apply promo1_resolves.
  - reflexivity.
Defined.

(** What the tail of the handler does to the tables. *)
Lemma record_and_redirect_tables (env : Env) (req : Request) (link : Link)
    (w : World) :
  links (snd (record_and_redirect env req link w)) = links w
  ∧ ∃ added, clicks (snd (record_and_redirect env req link w))
             = (clicks w ++ added)%list
             ∧ (length added ≤ 1)%nat.
Proof.
  rewrite record_and_redirect_run. simpl. split; [done|].
  destruct (click_insert_fails env).
  - exists []. rewrite app_nil_r. split; [done|simpl; lia].
  - eexists. split; [reflexivity|simpl; lia].
Qed.

(** X8. Whatever the request and whatever fails, [redirectHandler] leaves
    the Link table as it was, removes no Click row and appends at most
    one. *)
Theorem redirectHandler_only_appends_clicks (env : Env) (req : Request)
    (w : World) :
  links (snd (redirectHandler env req w)) = links w
  ∧ ∃ added, clicks (snd (redirectHandler env req w))
             = (clicks w ++ added)%list
             ∧ (length added ≤ 1)%nat.
Proof.
  assert (links w = links w
          ∧ ∃ added, clicks w = (clicks w ++ added)%list
                     ∧ (length added ≤ 1)%nat) as Hsame.
  { split; [done|]. exists []. rewrite app_nil_r. split; [done|simpl; lia]. }
  destruct (link_lookup_fails env) eqn:Hup.
  { unfold redirectHandler, link_findUnique, bind, throw. by rewrite Hup. }
  destruct (links w !! req_params_slug req) as [link|] eqn:Hl.
  - destruct (match link_expiresAt link with
              | Some t => now env >? t | None => false end) eqn:Hexp.
    + by rewrite (redirectHandler_found env req w link Hup Hl), Hexp.
    + destruct (redirectHandler_live env req w link Hup Hl Hexp)
        as [(e & ->) | [-> | ->]]; try done.
      apply record_and_redirect_tables.
  - by rewrite (redirectHandler_not_found env req w Hup Hl).
Qed.

(** X10. When the body parser has left [req.body] undefined and the
    request carries no [?password=], a request for an unexpired protected
    link makes the handler throw a TypeError before any response, and
    nothing is recorded. *)
Theorem undefined_body_throws_on_protected_link (env : Env) (req : Request)
    (w : World) (link : Link) (stored : string) :
  link_lookup_fails env = false → found w req link →
  ¬ is_expired env link → protected_by link stored →
  truthy (req_query_password req) = false → req_body req = VUndefined →
  redirectHandler env req w
  = (Throw (TypeError "Cannot read properties of undefined"), w).
Proof. apply unparsed_body_rejects. Qed.

Lemma undefined_body_throws_on_protected_link_witness :
  redirectHandler Scenario.env0 (LinkScenario.bare_get "secret")
                  (Scenario.world_of Scenario.secret)
  = (Throw (TypeError "Cannot read properties of undefined"),
     Scenario.world_of Scenario.secret).
Proof.
  apply (undefined_body_throws_on_protected_link Scenario.env0
           (LinkScenario.bare_get "secret")
           (Scenario.world_of Scenario.secret) Scenario.secret
           (@bcrypt_hash Scenario.toy_bcrypt "N9qo8uLOickgx2ZMRZoMye"
              "hunter2" 10)).
  - reflexivity.
  - reflexivity.
  - intros (t & Ht & _). discriminate.
  - split; [reflexivity|discriminate].
  - reflexivity.
  - reflexivity.
Defined.

(** ** link.controller.js: createLink *)

Lemma get_prop_ok {S : Type} (v : value) (k : string) (s : S) :
  v ≠ VUndefined → v ≠ VNull → get_prop v k s = (Ok (opt_prop v k), s).
Proof. intros Hu Hn. unfold get_prop. by destruct v. Qed.

(** [store_link], by what [prisma.link.create] does. *)
Lemma store_link_run (env : Env) (req : Request) (finalSlug hashed : value)
    (w : World) :
  store_link env req finalSlug hashed w =
    match link_create env finalSlug (opt_prop (req_body req) "destination")
            (opt_prop (req_body req) "title") (req_apiKey_id req)
            (JS.or (opt_prop (req_body req) "meta") (VObj PNil)) hashed
            (requested_expiry env req)
            (opt_prop (req_body req) "webhookUrl") w with
    | (Ok l, w') => (Ok (SendJson 200 (created_body req l)), w')
    | (Throw e, w') =>
      (Ok (SendJson 400
             (PCons "error" (VStr "Link creation failed")
               (PCons "details" (VStr (message e)) PNil))), w')
    end.
Proof.
  unfold store_link, requested_expiry, created_body, try_catch, bind, ret.
  match goal with
  | |- context [link_create ?a ?b ?c ?d ?x ?f ?g ?h ?i ?j] =>
    by destruct (link_create a b c d x f g h i j) as [[created|err] w']
  end.
Qed.

(** A successful [prisma.link.create]. *)
Lemma link_create_ok (env : Env) (req : Request) (w : World)
    (slug destination : string) (title password webhookUrl : value)
    (t p h : option string) (expiresAt : option (option Z)) (e : option Z)
    (meta : value) (k : Z) :
  link_insert_fails env = false →
  as_text title = Ok t → as_text password = Ok p →
  as_text webhookUrl = Ok h →
  expiresAt = None ∧ e = None ∨ expiresAt = Some e ∧ e ≠ None →
  links w !! slug = None →
  let l := mkLink (next_link_id w) slug destination t k (now env) p e h meta in
  link_create env (VStr slug) (VStr destination) title k meta password
              expiresAt webhookUrl w
  = (Ok l, mkWorld (<[slug := l]> (links w)) (clicks w) (next_link_id w + 1)
                   (next_click_id w) (trace w ++ [LinkCreated l])).
Proof.
  intros Hup Ht Hp Hh He Hfree. simpl.
  unfold link_create, lift, bind, modify, emit, get, throw, ret.
  rewrite Hup. simpl. rewrite Ht, Hp, Hh.
  destruct He as [[-> ->] | [-> Hne]].
  - by rewrite Hfree.
  - destruct e as [t0|]; [|done]. by rewrite Hfree.
Qed.

(** [prisma.link.create] never touches an existing row or a click. *)
Lemma link_create_frame (env : Env) (slug destination title : value)
    (apiKeyId : Z) (meta password : value) (expiresAt : option (option Z))
    (webhookUrl : value) (w : World) :
  let w' := snd (link_create env slug destination title apiKeyId meta
                   password expiresAt webhookUrl w) in
  (∀ s l, links w !! s = Some l → links w' !! s = Some l)
  ∧ clicks w' = clicks w.
Proof.
  simpl.
  destruct (link_create env slug destination title apiKeyId meta password
              expiresAt webhookUrl w) as [r w'] eqn:Hc.
  apply link_create_spec in Hc. simpl.
  destruct r as [l|e]; [|by subst].
  destruct Hc as (_ & _ & _ & Hfree & Hlinks & Hclicks).
  split; [|done]. intros s l0 Hs. rewrite Hlinks.
  rewrite lookup_insert_ne; [done|]. intros <-. congruence.
Qed.

Section CreateLinkFacts.
Context `{Bcrypt}.

Lemma hash_step (env : Env) (password : value) (w : World) :
  hashable password →
  (if truthy password then bcrypt_hash_js env password 10 else ret VNull) w
  = (Ok (stored_password env password), w).
Proof.
  unfold hashable, bcrypt_hash_js, stored_password, ret.
  intros [Hfalsy | [pw ->]].
  - rewrite Hfalsy. destruct password; try done. simpl in Hfalsy.
    apply negb_false_iff in Hfalsy. by rewrite Hfalsy.
  - simpl. by destruct (String.eqb pw "").
Qed.

(** [createLink] up to the [try] block. *)
Lemma createLink_run (env : Env) (req : Request) (w : World) :
  has_body req →
  truthy (opt_prop (req_body req) "destination") = true →
  hashable (opt_prop (req_body req) "password") →
  createLink env req w
  = store_link env req (final_slug env req)
      (stored_password env (opt_prop (req_body req) "password")) w.
Proof.
  intros [Hu Hn] Hdest Hhash. unfold createLink, bind at 1.
  rewrite (get_prop_ok _ _ _ Hu Hn), Hdest. simpl.
  unfold bind. by rewrite (hash_step env _ w Hhash).
Qed.

(** X11. [createLink] without a destination (missing, empty, or otherwise
    falsy) answers 400 [destination is required] and changes nothing. *)
Theorem createLink_requires_destination (env : Env) (req : Request)
    (w : World) :
  has_body req →
  truthy (opt_prop (req_body req) "destination") = false →
  createLink env req w
  = (Ok (SendJson 400 (PCons "error" (VStr "destination is required") PNil)),
     w).
Proof.
  intros [Hu Hn] Hdest. unfold createLink, bind at 1.
  by rewrite (get_prop_ok _ _ _ Hu Hn), Hdest.
Qed.

(** X12. [createLink] asking for a slug that is taken answers 400
    [Link creation failed] with the store's unique-constraint message, and
    changes nothing: the existing link keeps its slug. *)
Theorem createLink_rejects_taken_slug (env : Env) (req : Request) (w : World)
    (slug destination : string) (existing : Link) :
  has_body req →
  opt_prop (req_body req) "destination" = VStr destination →
  destination ≠ "" →
  opt_prop (req_body req) "slug" = VStr slug → slug ≠ "" →
  hashable (opt_prop (req_body req) "password") →
  nullable_text (opt_prop (req_body req) "title") →
  nullable_text (opt_prop (req_body req) "webhookUrl") →
  requested_expiry env req ≠ Some None →
  link_insert_fails env = false →
  links w !! slug = Some existing →
  createLink env req w
  = (Ok (SendJson 400
           (PCons "error" (VStr "Link creation failed")
             (PCons "details"
                (VStr "Unique constraint failed on the fields: (`slug`)")
                PNil))), w).
Proof.
  intros Hbody Hdest Hdne Hslug Hsne Hhash Htitle Hhook Hexp Hup Htaken.
  rewrite (createLink_run env req w Hbody); [|by rewrite Hdest;
    simpl; apply negb_true_iff, String.eqb_neq|done].
  rewrite store_link_run.
  unfold final_slug. rewrite Hslug, Hdest.
  assert (truthy (VStr slug) = true) as Hts
    by (simpl; by apply negb_true_iff, String.eqb_neq).
  unfold JS.or at 1. rewrite Hts.
  unfold link_create, lift, bind, modify, emit, get, throw, ret.
  rewrite Hup. simpl.
  destruct Htitle as [t ->]. destruct Hhook as [h Hh].
  assert (∃ p, as_text (stored_password env
                          (opt_prop (req_body req) "password")) = Ok p)
    as [p Hp].
  { unfold stored_password.
    destruct (opt_prop (req_body req) "password"); simpl; eauto.
    destruct (String.eqb s ""); simpl; eauto. }
  rewrite Hp, Hh.
  destruct (requested_expiry env req) as [[e|]|]; try done;
    by rewrite Htaken.
Qed.
End CreateLinkFacts.

Lemma createLink_requires_destination_witness :
  @createLink Scenario.toy_bcrypt Scenario.env0 LinkScenario.create_nothing
              Scenario.empty_world
  = (Ok (SendJson 400 (PCons "error" (VStr "destination is required") PNil)),
     Scenario.empty_world).
Proof.
  apply (@createLink_requires_destination Scenario.toy_bcrypt).
  - split; discriminate.
  - reflexivity.
Defined.

Lemma createLink_rejects_taken_slug_witness :
  @createLink Scenario.toy_bcrypt Scenario.env0 LinkScenario.create_promo1
              (Scenario.world_of Scenario.promo1)
  = (Ok (SendJson 400
           (PCons "error" (VStr "Link creation failed")
             (PCons "details"
                (VStr "Unique constraint failed on the fields: (`slug`)")
                PNil))), Scenario.world_of Scenario.promo1).
Proof.
  apply (@createLink_rejects_taken_slug Scenario.toy_bcrypt Scenario.env0
           LinkScenario.create_promo1 (Scenario.world_of Scenario.promo1)
           "promo1" "https://example.com/other" Scenario.promo1).
  - split; discriminate.
  - reflexivity.
  - discriminate.
  - reflexivity.
  - discriminate.
  - by left.
  - by exists None.
  - by exists None.
  - discriminate.
  - reflexivity.
  - reflexivity.
Defined.

Section CreateLinkRoundTrip.
Context `{Bcrypt}.

(** X14. Whatever the request and whatever fails, [createLink] changes no
    existing link (none is overwritten, none removed) and no Click row. *)
Theorem createLink_keeps_existing_rows (env : Env) (req : Request)
    (w : World) :
  (∀ s l, links w !! s = Some l →
          links (snd (createLink env req w)) !! s = Some l)
  ∧ clicks (snd (createLink env req w)) = clicks w.
Proof.
  unfold createLink, bcrypt_hash_js, get_prop, bind, throw, ret.
  assert (∀ fs hp,
    (∀ s l, links w !! s = Some l →
            links (snd (store_link env req fs hp w)) !! s = Some l)
    ∧ clicks (snd (store_link env req fs hp w)) = clicks w) as Hstore.
  { intros fs hp. rewrite store_link_run.
    match goal with
    | |- context [link_create ?a ?b ?c ?d ?x ?f ?g ?h ?i ?j] =>
      pose proof (link_create_frame a b c d x f g h i j) as Hframe;
      destruct (link_create a b c d x f g h i j) as [[created|err] w']
    end; exact Hframe. }
  assert (links w = links w ∧ clicks w = clicks w) as [_ _] by done.
  destruct (req_body req) as [| |b|m e| |s|o]; simpl; try done.
  all: match goal with
       | |- context [negb (truthy ?d)] => destruct (negb (truthy d))
       end; simpl; try done.
  all: match goal with
       | |- context [truthy ?pw] =>
         destruct (truthy pw); simpl; [destruct pw; simpl; try done|]
       end; apply Hstore.
Qed.

(** X13. Create, then resolve. A [createLink] with a destination, a free
    slug (given, or else the first eight characters of a fresh uuid), no
    password and an [expiresAt] that is absent or a valid date answers 200
    with that slug and the short URL built from it; from then on, until
    the expiry if there is one, [GET /{slug}] redirects to the destination
    that was given. *)
Theorem created_link_resolves (env : Env) (req : Request) (w : World)
    (slug destination : string) :
  has_body req →
  opt_prop (req_body req) "destination" = VStr destination →
  destination ≠ "" →
  final_slug env req = VStr slug →
  truthy (opt_prop (req_body req) "password") = false →
  nullable_text (opt_prop (req_body req) "title") →
  nullable_text (opt_prop (req_body req) "webhookUrl") →
  requested_expiry env req ≠ Some None →
  link_insert_fails env = false →
  links w !! slug = None →
  ∃ l w1,
    createLink env req w = (Ok (SendJson 200 (created_body req l)), w1)
    ∧ link_slug l = slug
    ∧ links w1 !! slug = Some l
    ∧ (∀ env' req',
         link_lookup_fails env' = false → req_params_slug req' = slug →
         (∀ t, requested_expiry env req = Some (Some t) → (now env' ≤ t)%Z) →
         fst (redirectHandler env' req' w1) = Ok (Redirect 302 destination)).
Proof.
  intros Hbody Hdest Hdne Hslug Hnopw [t Ht] [h Hh] Hexp Hup Hfree.
  rewrite (createLink_run env req w Hbody); [|by rewrite Hdest;
    simpl; apply negb_true_iff, String.eqb_neq|by left].
  rewrite store_link_run, Hslug, Hdest.
  assert (stored_password env (opt_prop (req_body req) "password") = VNull)
    as ->.
  { unfold stored_password.
    destruct (opt_prop (req_body req) "password"); try done.
    simpl in Hnopw. apply negb_false_iff in Hnopw. by rewrite Hnopw. }
  assert (∃ e, requested_expiry env req = None ∧ e = None
               ∨ requested_expiry env req = Some e ∧ e ≠ None) as [e He].
  { destruct (requested_expiry env req) as [[t0|]|]; [|done|].
    - exists (Some t0). by right.
    - exists None. by left. }
  rewrite (link_create_ok env req w slug destination _ VNull _ t None h _ e
             _ _ Hup Ht eq_refl Hh He Hfree).
  eexists _, _. split; [reflexivity|]. simpl.
  split; [done|]. split; [apply lookup_insert_eq|].
  intros env' req' Hup' Hreq Hlive.
  match goal with
  | |- context [redirectHandler env' req' ?w1] =>
    rewrite (redirectHandler_resolved env' req' w1
               (mkLink (next_link_id w) slug destination t (req_apiKey_id req)
                       (now env) None e h
                       (JS.or (opt_prop (req_body req) "meta") (VObj PNil)))
               Hup')
  end.
  - by rewrite record_and_redirect_response.
  - split; [|split].
    + unfold found. simpl. rewrite Hreq. apply lookup_insert_eq.
    + intros (t0 & Ht0 & Hlt). simpl in Ht0. subst e.
      destruct He as [[_ [=]] | [He _]].
      specialize (Hlive t0 He). lia.
    + intros stored [Hs _]. discriminate.
Qed.
End CreateLinkRoundTrip.

Lemma created_link_resolves_witness :
  ∃ l w1,
    @createLink Scenario.toy_bcrypt Scenario.env0 LinkScenario.create_plain
                Scenario.empty_world
    = (Ok (SendJson 200 (created_body LinkScenario.create_plain l)), w1)
    ∧ link_slug l = "3b241101"
    ∧ links w1 !! "3b241101" = Some l
    ∧ (∀ env' req',
         link_lookup_fails env' = false → req_params_slug req' = "3b241101" →
         (∀ t, requested_expiry Scenario.env0 LinkScenario.create_plain
               = Some (Some t) → (now env' ≤ t)%Z) →
         fst (redirectHandler env' req' w1)
         = Ok (Redirect 302 "https://example.com/landing")).
Proof.
  apply (@created_link_resolves Scenario.toy_bcrypt Scenario.env0
           LinkScenario.create_plain Scenario.empty_world
           "3b241101" "https://example.com/landing").
  - split; discriminate.
  - reflexivity.
  - discriminate.
  - reflexivity.
  - reflexivity.
  - by exists None.
  - by exists None.
  - discriminate.
  - reflexivity.
  - reflexivity.
Defined.

Section CreateLinkPassword.
Context `{Bcrypt}.

(** X15. The password column of a link [createLink] has created is
    [null] when no non-empty string was given as password, and otherwise
    the 60-character bcrypt hash, at cost 10, of the password given: a
    password that is not itself 60 characters long is never stored as it
    was sent. *)
Theorem createLink_stores_hash_or_null (env : Env) (req : Request)
    (w w' : World) (r : Response) (slug : string) (l : Link) :
  createLink env req w = (Ok r, w') →
  links w !! slug = None → links w' !! slug = Some l →
  ((∀ pw, opt_prop (req_body req) "password" = VStr pw → pw = "")
   ∧ link_password l = None)
  ∨ (∃ pw, opt_prop (req_body req) "password" = VStr pw ∧ pw ≠ ""
           ∧ link_password l = Some (bcrypt_hash (fresh_salt env) pw 10)
           ∧ String.length (bcrypt_hash (fresh_salt env) pw 10) = 60%nat
           ∧ (String.length pw ≠ 60%nat → link_password l ≠ Some pw)).
Proof.
  intros Hrun Hbefore Hafter.
  pose proof (createLink_password env req w w' r slug l Hrun Hbefore Hafter)
    as Hcol.
  destruct (opt_prop (req_body req) "password") as [| |b|m e| |pw|o] eqn:Hpw;
    try (left; split; [by intros pw' [=]|done]).
  destruct (String.eqb_spec pw "") as [->|Hne].
  - left. split; [|done]. by intros pw' [= <-].
  - right. exists pw. split; [done|]. split; [done|]. split; [done|].
    split; [apply bcrypt_hash_length|].
    intros Hlen. rewrite Hcol. intros [= Heq].
    by apply (plaintext_is_not_its_hash (fresh_salt env) pw 10).
Qed.

(** X9. Whoever supplies, as the password, the content of the password
    column of a protected link (the bcrypt string [createLink] stored) is
    redirected, without knowing the password the link was created
    with. *)
Theorem stored_hash_is_accepted_as_password (env env' : Env)
    (req req' : Request) (w w' : World) (r : Response) (l : Link)
    (pw : string) :
  createLink env req w = (Ok r, w') →
  opt_prop (req_body req) "password" = VStr pw → pw ≠ "" →
  links w !! req_params_slug req' = None → found w' req' l →
  link_lookup_fails env' = false → ¬ is_expired env' l →
  providedPassword req' = VStr (bcrypt_hash (fresh_salt env) pw 10) →
  fst (redirectHandler env' req' w')
  = Ok (Redirect 302 (link_destination l)).
Proof.
  intros Hrun Hpw Hne Hbefore Hfound Hup Hlive Hsupplied.
  pose proof (createLink_password env req w w' r _ l Hrun Hbefore Hfound)
    as Hcol.
  rewrite Hpw in Hcol. apply String.eqb_neq in Hne. rewrite Hne in Hcol.
  by apply (stored_hash_opens_link env' req' w' l
              (bcrypt_hash (fresh_salt env) pw 10)).
Qed.
End CreateLinkPassword.

Lemma createLink_stores_hash_or_null_witness :
  ((∀ pw, opt_prop (req_body (Scenario.post Scenario.create_secret))
            "password" = VStr pw → pw = "")
   ∧ link_password (@created_secret Scenario.toy_bcrypt) = None)
  ∨ (∃ pw, opt_prop (req_body (Scenario.post Scenario.create_secret))
             "password" = VStr pw ∧ pw ≠ ""
           ∧ link_password (@created_secret Scenario.toy_bcrypt)
             = Some (@bcrypt_hash Scenario.toy_bcrypt
                       (fresh_salt Scenario.env0) pw 10)
           ∧ String.length (@bcrypt_hash Scenario.toy_bcrypt
                              (fresh_salt Scenario.env0) pw 10) = 60%nat
           ∧ (String.length pw ≠ 60%nat →
              link_password (@created_secret Scenario.toy_bcrypt) ≠ Some pw)).
Proof.
  apply (@createLink_stores_hash_or_null Scenario.toy_bcrypt Scenario.env0
           (Scenario.post Scenario.create_secret) Scenario.empty_world
           (@world_with_secret Scenario.toy_bcrypt)
           (SendJson 200
              (PCons "slug" (VStr "secret")
                (PCons "shortUrl" (VStr "http://localhost:4000/secret")
                  (PCons "id" (VNum 1 0) PNil))))
           "secret" (@created_secret Scenario.toy_bcrypt)).
  - vm_compute. reflexivity.
  - reflexivity.
  - vm_compute. reflexivity.
Defined.

Lemma stored_hash_is_accepted_as_password_witness :
  fst (redirectHandler Scenario.env0
         (Scenario.get "secret"
            (VStr (@bcrypt_hash Scenario.toy_bcrypt
                     "N9qo8uLOickgx2ZMRZoMye" "hunter2" 10)))
         (@world_with_secret Scenario.toy_bcrypt))
  = Ok (Redirect 302 "https://example.com/secret").
Proof.
  apply (@stored_hash_is_accepted_as_password Scenario.toy_bcrypt
           Scenario.env0 Scenario.env0
           (Scenario.post Scenario.create_secret)
           (Scenario.get "secret"
              (VStr (@bcrypt_hash Scenario.toy_bcrypt
                       "N9qo8uLOickgx2ZMRZoMye" "hunter2" 10)))
           Scenario.empty_world (@world_with_secret Scenario.toy_bcrypt)
           (SendJson 200
              (PCons "slug" (VStr "secret")
                (PCons "shortUrl" (VStr "http://localhost:4000/secret")
                  (PCons "id" (VNum 1 0) PNil))))
           (@created_secret Scenario.toy_bcrypt) "hunter2").
  - vm_compute. reflexivity.
  - reflexivity.
  - discriminate.
  - reflexivity.
  - vm_compute. reflexivity.
  - reflexivity.
  - intros (t & Ht & _). discriminate.
  - reflexivity.
Defined.

(** ** link.controller.js: getLinkStats *)

Section StatsFacts.
Local Open Scope Z_scope.
Local Open Scope list_scope.

#[local] Instance newer_total : Total newer.
Proof. intros a b. unfold newer. lia. Qed.

#[local] Instance newer_trans : Transitive newer.
Proof. intros a b c. unfold newer. lia. Qed.

Lemma clicks_of_sorted w link : StronglySorted newer (clicks_of w link).
Proof. apply (StronglySorted_merge_sort _). Qed.

Lemma clicks_of_perm w link :
  clicks_of w link
  ≡ₚ List.filter (λ c, (click_linkId c =? link_id link)%Z) (clicks w).
Proof. apply merge_sort_Permutation. Qed.

Lemma elem_of_clicks_of w link c :
  c ∈ clicks_of w link ↔ c ∈ clicks w ∧ click_linkId c = link_id link.
Proof.
  rewrite clicks_of_perm, !list_elem_of_In, filter_In, Z.eqb_eq. done.
Qed.

Lemma getLinkStats_found env req w link :
  link_lookup_fails env = false →
  found w req link →
  getLinkStats env req w
  = (Ok (Stats (link_slug link) (link_destination link)
               (length (clicks_of w link)) (firstn 100 (clicks_of w link))), w).
Proof.
  intros Hup Hfound. unfold getLinkStats, link_findUnique, bind, get, ret.
  rewrite Hup. cbn. unfold found in Hfound. rewrite Hfound. reflexivity.
Qed.

(** X16. [getLinkStats] of an existing slug answers with the link's slug
    and destination, with [clicksCount] the number of all clicks recorded
    for the link, and with at most 100 of them: clicks of this link only,
    newest first, and none left out that is newer than one shown. It reads
    only: the store is as before. It does not look at the API key of the
    request: the link need not be the caller's. *)
Theorem stats_count_all_clicks_and_show_the_newest env req w link :
  link_lookup_fails env = false →
  found w req link →
  ∃ shown,
    getLinkStats env req w
    = (Ok (Stats (link_slug link) (link_destination link)
             (length (List.filter (λ c, (click_linkId c =? link_id link)%Z)
                                  (clicks w)))
             shown), w)
    ∧ (length shown ≤ 100)%nat
    ∧ StronglySorted newer shown
    ∧ (∀ c, c ∈ shown → c ∈ clicks w ∧ click_linkId c = link_id link)
    ∧ (∀ c d, c ∈ shown → d ∈ clicks w → click_linkId d = link_id link →
              cd_occurredAt (click_data c) < cd_occurredAt (click_data d) →
              d ∈ shown).
Proof.
  intros Hup Hfound. exists (firstn 100 (clicks_of w link)).
  rewrite (getLinkStats_found env req w link Hup Hfound).
  rewrite (Permutation_length (clicks_of_perm w link)).
  split; [done|].
  pose proof (clicks_of_sorted w link) as Hsorted.
  rewrite <- (take_drop 100 (clicks_of w link)) in Hsorted.
  split; [rewrite length_take; lia|].
  split; [by apply StronglySorted_app_1_l in Hsorted|].
  split.
  - intros c Hc. apply elem_of_clicks_of.
    rewrite <- (take_drop 100 (clicks_of w link)).
    apply elem_of_app. by left.
  - intros c d Hc Hd Hlink Hlater.
    assert (d ∈ clicks_of w link) as Hall by by apply elem_of_clicks_of.
    rewrite <- (take_drop 100 (clicks_of w link)) in Hall.
    apply elem_of_app in Hall as [Hin|Hout]; [done|].
    pose proof (StronglySorted_app_1_elem_of _ _ _ c d Hsorted Hc Hout) as Hn.
    unfold newer in Hn. lia.
Qed.
End StatsFacts.

Lemma stats_count_all_clicks_and_show_the_newest_witness :
  ∃ shown,
    getLinkStats Scenario.env0 (Scenario.get "promo1" VUndefined)
                 UpdateScenario.visited
    = (Ok (Stats (link_slug Scenario.promo1)
                 (link_destination Scenario.promo1)
                 (length (List.filter
                            (λ c, (click_linkId c =? link_id Scenario.promo1)%Z)
                            (clicks UpdateScenario.visited)))
                 shown), UpdateScenario.visited)
    ∧ (length shown ≤ 100)%nat
    ∧ StronglySorted newer shown
    ∧ (∀ c, c ∈ shown →
            c ∈ clicks UpdateScenario.visited
            ∧ click_linkId c = link_id Scenario.promo1)
    ∧ (∀ c d, c ∈ shown → d ∈ clicks UpdateScenario.visited →
              click_linkId d = link_id Scenario.promo1 →
              (cd_occurredAt (click_data c) < cd_occurredAt (click_data d))%Z →
              d ∈ shown).
Proof.
  apply (stats_count_all_clicks_and_show_the_newest Scenario.env0
           (Scenario.get "promo1" VUndefined) UpdateScenario.visited
           Scenario.promo1).
  - reflexivity.
  - vm_compute. reflexivity.
Defined.

(** ** link.controller.js: updateLink and deleteLink *)

Section UpdateDeleteFacts.
Local Open Scope list_scope.

Lemma body_cases (req : Request) :
  (req_body req = VUndefined ∨ req_body req = VNull) ∨ has_body req.
Proof.
  unfold has_body. destruct (req_body req);
    [left; by left|left; by right|right; by split..].
Qed.

Lemma owned_row_Some n k w key row :
  owned_row n k w = Some (key, row) → owns w k n key row.
Proof.
  unfold owned_row, owns. intros Hf. apply find_some in Hf as [Hin Hb].
  apply list_elem_of_In, elem_of_map_to_list in Hin. simpl in Hb.
  apply andb_true_iff in Hb as [H1 H2].
  apply Z.eqb_eq in H1, H2. done.
Qed.

Lemma owned_row_None n k w : owned_row n k w = None → owns_none w k n.
Proof.
  unfold owned_row, owns_none. intros Hf key row Hrow Hid Hk.
  pose proof (find_none _ _ Hf (key, row)) as Hb. simpl in Hb.
  rewrite Hid, Hk, !Z.eqb_refl in Hb.
  discriminate Hb. by apply list_elem_of_In, elem_of_map_to_list.
Qed.

Lemma owns_none_owned_row n k w : owns_none w k n → owned_row n k w = None.
Proof.
  intros Hnone. destruct (owned_row n k w) as [[key row]|] eqn:Hf; [|done].
  apply owned_row_Some in Hf as (Hrow & Hid & Hk).
  by destruct (Hnone key row Hrow Hid).
Qed.

Lemma owns_owned_row n k w key row :
  ids_unique w → owns w k n key row → owned_row n k w = Some (key, row).
Proof.
  intros Huniq (Hrow & Hid & Hk).
  destruct (owned_row n k w) as [[key' row']|] eqn:Hf.
  - apply owned_row_Some in Hf as (Hrow' & Hid' & Hk').
    assert (key' = key) as -> by (eapply Huniq; [done..|congruence]).
    congruence.
  - apply owned_row_None in Hf. by destruct (Hf key row Hrow Hid).
Qed.

(** [prisma.link.update] never throws in the model: it returns its error;
    a failed update changes nothing, a successful one rewrites the row it
    selected and keeps every other row. *)
Lemma link_update_cases env id k d s t m p e h w :
  ∃ r w', link_update env id k d s t m p e h w = (Ok r, w')
    ∧ match r with
      | inl _ => w' = w
      | inr l =>
        ∃ n key row,
          as_int id = Some n ∧ owned_row n k w = Some (key, row)
          ∧ set_required s key = Some (link_slug l)
          ∧ (link_slug l = key ∨ links w !! link_slug l = None)
          ∧ w' = mkWorld (<[link_slug l := l]> (delete key (links w)))
                         (clicks w) (next_link_id w) (next_click_id w)
                         (trace w)
      end.
Proof.
  unfold link_update, bind, get, ret, modify.
  repeat case_match; simplify_eq; try (by eexists (inl _), w).
  all: eexists (inr _), _; split; [reflexivity|]; simpl.
  all: eexists _, _, _; split; [done|]; split; [done|].
  all: split; [by destruct s|]; split; [|done].
  all: match goal with
       | Hc : negb (?a =? ?b)%string && bool_decide _ = false |- _ =>
         apply andb_false_iff in Hc as [Hc|Hc];
         [left; apply negb_false_iff in Hc; by apply String.eqb_eq in Hc
         |right; apply bool_decide_eq_false in Hc;
          by apply eq_None_not_Some]
       end.
Qed.

(** The same for [prisma.link.delete]. *)
Lemma link_delete_cases env id k w :
  ∃ r w', link_delete env id k w = (Ok r, w')
    ∧ match r with
      | inl _ => w' = w
      | inr row =>
        ∃ n key,
          as_int id = Some n ∧ owned_row n k w = Some (key, row)
          ∧ w' = mkWorld (delete key (links w)) (clicks w) (next_link_id w)
                         (next_click_id w) (trace w)
      end.
Proof.
  unfold link_delete, bind, get, ret, modify.
  repeat case_match; simplify_eq; try (by eexists (inl _), w).
  eexists (inr _), _; split; [reflexivity|]. by eexists _, _.
Qed.

Lemma is_P2025_spec e : is_P2025 e = true ↔ e = RecordNotFound.
Proof. destruct e; by split. Qed.

(** [prisma.link.update] on data that passes validation. *)
Lemma link_update_valid env id k d s t m p e h w n d0 s0 t0 p0 h0 :
  as_int id = Some n →
  set_required d "" = Some d0 → set_required s "" = Some s0 →
  set_nullable t None = Some t0 → set_nullable p None = Some p0 →
  set_nullable h None = Some h0 → e ≠ Some None →
  link_insert_fails env = false →
  link_update env id k d s t m p e h w
  = match owned_row n k w with
    | None => (Ok (inl RecordNotFound), w)
    | Some (key, row) =>
      let slug' := default key (set_required s key) in
      if negb (String.eqb slug' key)
         && bool_decide (is_Some (links w !! slug'))
      then (Ok (inl UniqueConstraint), w)
      else
        let l :=
          mkLink (link_id row) slug'
            (default "" (set_required d (link_destination row)))
            (default None (set_nullable t (link_title row)))
            (link_apiKeyId row) (link_createdAt row)
            (default None (set_nullable p (link_password row)))
            (match e with Some (Some t) => Some t | _ => None end)
            (default None (set_nullable h (link_webhookUrl row)))
            m in
        (Ok (inr l),
         mkWorld (<[slug' := l]> (delete key (links w))) (clicks w)
                 (next_link_id w) (next_click_id w) (trace w))
    end.
Proof.
  intros Hid Hd Hs Ht Hp Hh He Hstore.
  unfold link_update, bind, get, ret, modify.
  rewrite Hid, Hd, Hs, Ht, Hp, Hh, Hstore.
  destruct e as [[t'|]|]; [|done|].
  all: destruct (owned_row n k w) as [[key row]|]; [|done].
  all: cbv zeta; by case_match.
Qed.

(** [prisma.link.delete] on a well-formed id. *)
Lemma link_delete_valid env id k w n :
  as_int id = Some n → link_insert_fails env = false →
  link_delete env id k w
  = match owned_row n k w with
    | None => (Ok (inl RecordNotFound), w)
    | Some (key, row) =>
      if existsb (λ c, (click_linkId c =? link_id row)%Z) (clicks w)
      then (Ok (inl ForeignKeyConstraint), w)
      else (Ok (inr row),
            mkWorld (delete key (links w)) (clicks w) (next_link_id w)
                    (next_click_id w) (trace w))
    end.
Proof.
  intros Hid Hstore. unfold link_delete, bind, get, ret, modify.
  rewrite Hid, Hstore.
  destruct (owned_row n k w) as [[key row]|]; [|done]. by case_match.
Qed.

Lemma stored_password_falsy `{Bcrypt} env p :
  truthy p = false → stored_password env p = VNull.
Proof.
  destruct p; try done. unfold stored_password, truthy.
  by destruct (String.eqb s "").
Qed.

Lemma stored_password_nullable `{Bcrypt} env p :
  ∃ o, set_nullable (stored_password env p) None = Some o
       ∧ (truthy p = false → o = None).
Proof.
  destruct p; try by (exists None).
  unfold stored_password, truthy.
  destruct (String.eqb s "") eqn:Hs; [by exists None|].
  eexists. split; [done|]. done.
Qed.

Section WithBcrypt.
Context `{Bcrypt}.

(** [updateLink] on a readable body with a hashable password: the answer
    is read off the outcome of [prisma.link.update]. *)
Lemma updateLink_run env id req w :
  has_body req →
  hashable (opt_prop (req_body req) "password") →
  ∃ r w',
    link_update env (parseInt id None) (req_apiKey_id req)
      (opt_prop (req_body req) "destination")
      (opt_prop (req_body req) "slug") (opt_prop (req_body req) "title")
      (JS.or (opt_prop (req_body req) "meta") (VObj PNil))
      (stored_password env (opt_prop (req_body req) "password"))
      (requested_expiry env req) (opt_prop (req_body req) "webhookUrl") w
    = (Ok r, w')
    ∧ updateLink env id req w = (Ok (update_response req r), w').
Proof.
  intros [Hu Hn] Hhash.
  match goal with
  | |- ∃ r w', link_update ?a ?b ?c ?d ?e ?f ?g ?h ?i ?j ?x = _ ∧ _ =>
    destruct (link_update_cases a b c d e f g h i j x)
      as (r & w' & Hupd & _)
  end.
  exists r, w'. split; [exact Hupd|].
  unfold updateLink, bind at 1. rewrite (get_prop_ok _ _ _ Hu Hn).
  cbv beta iota. unfold bind at 1.
  rewrite (hash_step env _ w Hhash). cbv beta iota. unfold bind at 1.
  unfold requested_expiry in Hupd. rewrite Hupd.
  destruct r as [err|link]; [simpl; destruct (is_P2025 err)|]; reflexivity.
Qed.

(** Otherwise it throws before it reaches the store. *)
Lemma updateLink_throws env id req w :
  ¬ (has_body req ∧ hashable (opt_prop (req_body req) "password")) →
  ∃ e, updateLink env id req w = (Throw e, w).
Proof.
  intros Hnot. unfold updateLink, bind at 1.
  destruct (body_cases req) as [[Hb|Hb]|[Hu Hn]].
  1,2: rewrite Hb; by eexists.
  rewrite (get_prop_ok _ _ _ Hu Hn). cbv beta iota. unfold bind at 1.
  destruct (truthy (opt_prop (req_body req) "password")) eqn:Hp.
  - unfold bcrypt_hash_js.
    destruct (opt_prop (req_body req) "password") eqn:Hpw;
      try by eexists.
    destruct Hnot. split; [done|]. right. by eexists.
  - destruct Hnot. split; [done|]. by left.
Qed.

Lemma updateLink_prefix env id req w :
  (has_body req ∧ hashable (opt_prop (req_body req) "password"))
  ∨ ∃ e, updateLink env id req w = (Throw e, w).
Proof.
  assert (has_body req ∨ ¬ has_body req) as [Hb|Hb].
  { unfold has_body. destruct (req_body req); try (by left).
    all: right; by intros [? ?]. }
  2: { right. apply updateLink_throws. by intros [? _]. }
  assert (hashable (opt_prop (req_body req) "password")
          ∨ ¬ hashable (opt_prop (req_body req) "password")) as [Hh|Hh].
  { unfold hashable.
    destruct (truthy (opt_prop (req_body req) "password")) eqn:Ht;
      [|left; by left].
    destruct (opt_prop (req_body req) "password");
      try (right; intros [?|[? ?]]; congruence).
    left. right. by eexists. }
  - by left.
  - right. apply updateLink_throws. by intros [_ ?].
Qed.

(** [updateLink] keeps every link of another API key, and the clicks. *)
Lemma updateLink_frame env id req w s l :
  links w !! s = Some l →
  link_apiKeyId l ≠ req_apiKey_id req →
  links (updateLink env id req w).2 !! s = Some l
  ∧ clicks (updateLink env id req w).2 = clicks w.
Proof.
  intros Hl Hforeign.
  destruct (updateLink_prefix env id req w) as [[Hb Hh]|[e ->]]; [|done].
  destruct (updateLink_run env id req w Hb Hh) as (r & w' & Hupd & ->).
  match type of Hupd with
  | link_update ?a ?b ?c ?d ?e ?f ?g ?h ?i ?j ?x = _ =>
    destruct (link_update_cases a b c d e f g h i j x)
      as (r2 & w2 & Hupd2 & Hcase)
  end.
  rewrite Hupd in Hupd2. simplify_eq. simpl.
  destruct r2 as [err|l']; [by subst|].
  destruct Hcase as (n & key & row & _ & Hrow & _ & Hslug & ->). simpl.
  apply owned_row_Some in Hrow as (Hrow & _ & Hk).
  split; [|done].
  assert (s ≠ key) by (intros ->; congruence).
  rewrite lookup_insert_ne, lookup_delete_ne; [done..|].
  destruct Hslug as [->| Hfree]; [done|]. intros Heq. congruence.
Qed.

Lemma updateLink_not_found env id req w n :
  has_body req →
  hashable (opt_prop (req_body req) "password") →
  updatable env (req_body req) →
  link_insert_fails env = false →
  names_id id n →
  owns_none w (req_apiKey_id req) n →
  updateLink env id req w = (Ok (SendJson 404 not_found_body), w).
Proof.
  intros Hb Hh ([d0 Hd] & [s0 Hs] & [t0 Ht] & [h0 Hhook] & Hdate)
         Hstore Hid Hnone.
  destruct (updateLink_run env id req w Hb Hh) as (r & w' & Hupd & ->).
  destruct (stored_password_nullable env (opt_prop (req_body req) "password"))
    as (p0 & Hp & _).
  erewrite link_update_valid in Hupd; [|done..| |done].
  - rewrite (owns_none_owned_row _ _ _ Hnone) in Hupd. by simplify_eq.
  - unfold requested_expiry. case_match; [|done].
    destruct (Hdate eq_refl) as [t' ->]. done.
Qed.

(** X19. An update is a replacement, not a patch: a [PUT] of the link's
    owner that names no password and no expiry (and keeps the slug)
    answers 200 and leaves the link without password and without expiry,
    whatever it had before; the destination is the one sent, or the old
    one when none is sent; the clicks stay. From then on every visit of
    the slug that finds the store is redirected to that destination, with
    no password asked. *)
Theorem update_without_password_unprotects env id req w n key row :
  has_body req →
  updatable env (req_body req) →
  truthy (opt_prop (req_body req) "password") = false →
  truthy (opt_prop (req_body req) "expiresAt") = false →
  opt_prop (req_body req) "slug" = VUndefined →
  link_insert_fails env = false →
  names_id id n →
  ids_unique w →
  owns w (req_apiKey_id req) n key row →
  ∃ l w',
    updateLink env id req w = (Ok (SendJson 200 (updated_body req l)), w')
    ∧ links w' = <[key := l]> (links w)
    ∧ clicks w' = clicks w
    ∧ link_slug l = key ∧ link_id l = n
    ∧ link_password l = None ∧ link_expiresAt l = None
    ∧ set_required (opt_prop (req_body req) "destination")
                   (link_destination row) = Some (link_destination l)
    ∧ ∀ env' visit,
        link_lookup_fails env' = false → req_params_slug visit = key →
        fst (redirectHandler env' visit w')
        = Ok (Redirect 302 (link_destination l)).
Proof.
  intros Hb ([d0 Hd] & [s0 Hs] & [t0 Ht] & [h0 Hhook] & Hdate)
         Hpw Hexp Hslug Hstore Hid Huniq Howns.
  destruct (updateLink_run env id req w Hb (or_introl Hpw))
    as (r & w' & Hupd & ->).
  rewrite (stored_password_falsy env _ Hpw) in Hupd.
  erewrite link_update_valid in Hupd; [|done..| |done];
    [|unfold requested_expiry; by rewrite Hexp].
  rewrite (owns_owned_row _ _ _ _ _ Huniq Howns) in Hupd.
  rewrite Hslug in Hupd. cbn [set_required default] in Hupd.
  cbv zeta in Hupd. rewrite String.eqb_refl in Hupd. simpl in Hupd.
  simplify_eq. eexists _, _. split; [reflexivity|]. simpl.
  destruct Howns as (Hrow & Hn & Hk).
  split; [by rewrite insert_delete_eq|]. split; [done|].
  split; [done|]. split; [done|].
  split; [done|].
  split; [unfold requested_expiry; by rewrite Hexp|].
  split.
  { destruct (opt_prop (req_body req) "destination"); by simplify_eq/=. }
  intros env' visit Hup Hvisit.
  match goal with
  | |- context [redirectHandler _ _ ?w1] =>
    match w1 with
    | context [<[_ := ?l1]> _] =>
      rewrite (unprotected_link_redirects env' visit w1 l1 Hup)
    end
  end; [done| | |].
  - unfold found. simpl. rewrite Hvisit. by rewrite lookup_insert_eq.
  - done.
  - intros (t' & Ht' & _). simpl in Ht'. unfold requested_expiry in Ht'.
    by rewrite Hexp in Ht'.
Qed.

Lemma updateLink_not_a_number env id req w :
  has_body req →
  hashable (opt_prop (req_body req) "password") →
  parseInt id None = NaN →
  ∃ details,
    updateLink env id req w
    = (Ok (SendJson 400 (failed_body "Link update failed" details)), w).
Proof.
  intros Hb Hh Hnan.
  destruct (updateLink_run env id req w Hb Hh) as (r & w' & Hupd & ->).
  unfold link_update, bind, get, ret in Hupd. rewrite Hnan in Hupd.
  simpl in Hupd. simplify_eq. by eexists.
Qed.
End WithBcrypt.

(** [deleteLink] keeps every link of another API key, and the clicks. *)
Lemma deleteLink_frame env id req w s l :
  links w !! s = Some l →
  link_apiKeyId l ≠ req_apiKey_id req →
  links (deleteLink env id req w).2 !! s = Some l
  ∧ clicks (deleteLink env id req w).2 = clicks w.
Proof.
  intros Hl Hforeign. unfold deleteLink, bind.
  destruct (link_delete_cases env (parseInt id None) (req_apiKey_id req) w)
    as (r & w' & -> & Hcase).
  destruct r as [err|row].
  - subst. by destruct (is_P2025 err).
  - destruct Hcase as (n & key & _ & Hrow & ->). simpl.
    apply owned_row_Some in Hrow as (Hrow & _ & Hk).
    split; [|done]. rewrite lookup_delete_ne; [done|].
    intros ->. congruence.
Qed.

(** X21. [deleteLink] of a link of the caller that has no clicks answers
    200 [Link deleted successfully] and removes that row and nothing
    else; from then on a visit of its slug is answered 404. *)
Theorem deleteLink_removes_the_link env id req w n key row :
  link_insert_fails env = false →
  names_id id n →
  ids_unique w →
  owns w (req_apiKey_id req) n key row →
  (∀ c, c ∈ clicks w → click_linkId c ≠ n) →
  ∃ w',
    deleteLink env id req w = (Ok (SendJson 200 deleted_body), w')
    ∧ links w' = delete key (links w)
    ∧ clicks w' = clicks w
    ∧ ∀ env' visit,
        link_lookup_fails env' = false → req_params_slug visit = key →
        redirectHandler env' visit w' = (Ok (Send 404 "Not found"), w').
Proof.
  intros Hstore Hid Huniq Howns Hfresh. unfold deleteLink, bind.
  rewrite (link_delete_valid _ _ _ _ n Hid Hstore).
  rewrite (owns_owned_row _ _ _ _ _ Huniq Howns).
  destruct Howns as (Hrow & Hn & Hk).
  destruct (existsb _ (clicks w)) eqn:Hex.
  { apply existsb_exists in Hex as (c & Hc & Heq).
    apply Z.eqb_eq in Heq. apply list_elem_of_In in Hc.
    destruct (Hfresh c Hc). congruence. }
  eexists. split; [reflexivity|]. simpl. split; [done|]. split; [done|].
  intros env' visit Hup Hvisit. apply redirectHandler_not_found; [done|].
  simpl. rewrite Hvisit. by rewrite lookup_delete_eq.
Qed.

(** X22. A link that has a click cannot be deleted: the Click table
    refers to it [ON DELETE RESTRICT], so [deleteLink] answers 400
    [Link deletion failed] and the store is unchanged. *)
Theorem deleteLink_refuses_a_visited_link env id req w n key row c :
  link_insert_fails env = false →
  names_id id n →
  ids_unique w →
  owns w (req_apiKey_id req) n key row →
  c ∈ clicks w → click_linkId c = n →
  ∃ details,
    deleteLink env id req w
    = (Ok (SendJson 400 (failed_body "Link deletion failed" details)), w).
Proof.
  intros Hstore Hid Huniq Howns Hc Hcn. unfold deleteLink, bind.
  rewrite (link_delete_valid _ _ _ _ n Hid Hstore).
  rewrite (owns_owned_row _ _ _ _ _ Huniq Howns).
  destruct Howns as (Hrow & Hn & Hk).
  replace (existsb _ (clicks w)) with true; [by eexists|].
  symmetry. apply existsb_exists. exists c.
  split; [by apply list_elem_of_In|]. apply Z.eqb_eq. congruence.
Qed.

Lemma deleteLink_not_found env id req w n :
  link_insert_fails env = false →
  names_id id n →
  owns_none w (req_apiKey_id req) n →
  deleteLink env id req w = (Ok (SendJson 404 not_found_body), w).
Proof.
  intros Hstore Hid Hnone. unfold deleteLink, bind.
  rewrite (link_delete_valid _ _ _ _ n Hid Hstore).
  by rewrite (owns_none_owned_row _ _ _ Hnone).
Qed.

Lemma deleteLink_not_a_number env id req w :
  parseInt id None = NaN →
  ∃ details,
    deleteLink env id req w
    = (Ok (SendJson 400 (failed_body "Link deletion failed" details)), w).
Proof.
  intros Hnan. unfold deleteLink, bind, link_delete, get, ret.
  rewrite Hnan. simpl. by eexists.
Qed.

Section UpdateAndDelete.
Context `{Bcrypt}.

(** X17. Neither [updateLink] nor [deleteLink] touches a link made with
    another API key, whatever id and body the request carries and
    whatever fails: the row is still there, unchanged, and so are the
    clicks. *)
Theorem update_and_delete_leave_other_keys_links env id req w s l :
  links w !! s = Some l →
  link_apiKeyId l ≠ req_apiKey_id req →
  (links (updateLink env id req w).2 !! s = Some l
   ∧ clicks (updateLink env id req w).2 = clicks w)
  ∧ (links (deleteLink env id req w).2 !! s = Some l
     ∧ clicks (deleteLink env id req w).2 = clicks w).
Proof.
  intros Hl Hforeign. split.
  - by apply updateLink_frame.
  - by apply deleteLink_frame.
Qed.

(** X18. An id that names no link of the calling API key (no such link,
    or a link of somebody else) is answered 404 [Link not found] by
    [deleteLink], and by [updateLink] when the body is one Prisma
    accepts; the store is unchanged. *)
Theorem foreign_id_is_not_found env id req w n :
  link_insert_fails env = false →
  names_id id n →
  owns_none w (req_apiKey_id req) n →
  deleteLink env id req w = (Ok (SendJson 404 not_found_body), w)
  ∧ (has_body req →
     hashable (opt_prop (req_body req) "password") →
     updatable env (req_body req) →
     updateLink env id req w = (Ok (SendJson 404 not_found_body), w)).
Proof.
  intros Hstore Hid Hnone. split.
  - by apply (deleteLink_not_found env id req w n).
  - intros Hb Hh Hok. by apply (updateLink_not_found env id req w n).
Qed.

(** X20. An id [parseInt] reads no number from (as [bulk] in
    [PUT /api/links/bulk], which the route [/api/links/:id] takes) is
    answered 400, not 404, by [deleteLink] and by [updateLink], and
    changes nothing. *)
Theorem non_numeric_id_is_rejected env id req w :
  parseInt id None = NaN →
  (∃ details,
     deleteLink env id req w
     = (Ok (SendJson 400 (failed_body "Link deletion failed" details)), w))
  ∧ (has_body req →
     hashable (opt_prop (req_body req) "password") →
     ∃ details,
       updateLink env id req w
       = (Ok (SendJson 400 (failed_body "Link update failed" details)), w)).
Proof.
  intros Hnan. split.
  - by apply deleteLink_not_a_number.
  - intros Hb Hh. by apply updateLink_not_a_number.
Qed.
End UpdateAndDelete.
End UpdateDeleteFacts.

Section UpdateDeleteWitnesses.
Local Open Scope list_scope.

Lemma ids_unique_world_of l : ids_unique (Scenario.world_of l).
Proof.
  intros k1 k2 r1 r2 H1 H2 _. simpl in H1, H2.
  apply lookup_singleton_Some in H1 as [<- _].
  by apply lookup_singleton_Some in H2 as [<- _].
Qed.

Lemma owns_none_world_of l k n :
  link_apiKeyId l ≠ k → owns_none (Scenario.world_of l) k n.
Proof.
  intros Hk key row Hrow _. simpl in Hrow.
  by apply lookup_singleton_Some in Hrow as [_ <-].
Qed.

Lemma update_without_password_unprotects_witness :
  ∃ l w',
    @updateLink Scenario.toy_bcrypt Scenario.env0 "4" UpdateScenario.move
      (Scenario.world_of Scenario.secret)
    = (Ok (SendJson 200 (updated_body UpdateScenario.move l)), w')
    ∧ links w' = <["secret" := l]> (links (Scenario.world_of Scenario.secret))
    ∧ clicks w' = clicks (Scenario.world_of Scenario.secret)
    ∧ link_slug l = "secret" ∧ link_id l = 4
    ∧ link_password l = None ∧ link_expiresAt l = None
    ∧ set_required (opt_prop (req_body UpdateScenario.move) "destination")
                   (link_destination Scenario.secret)
      = Some (link_destination l)
    ∧ ∀ env' visit,
        link_lookup_fails env' = false → req_params_slug visit = "secret" →
        fst (redirectHandler env' visit w')
        = Ok (Redirect 302 (link_destination l)).
Proof.
  apply (@update_without_password_unprotects Scenario.toy_bcrypt
           Scenario.env0 "4" UpdateScenario.move
           (Scenario.world_of Scenario.secret) 4 "secret" Scenario.secret).
  - split; discriminate.
  - do 4 (split; [by eexists|]). intros Hf. discriminate Hf.
  - reflexivity.
  - reflexivity.
  - reflexivity.
  - reflexivity.
  - vm_compute. reflexivity.
  - apply ids_unique_world_of.
  - split; [vm_compute; reflexivity|]. split; reflexivity.
Defined.

Lemma deleteLink_removes_the_link_witness :
  ∃ w',
    deleteLink Scenario.env0 "1" UpdateScenario.move
      (Scenario.world_of Scenario.promo1)
    = (Ok (SendJson 200 deleted_body), w')
    ∧ links w' = delete "promo1" (links (Scenario.world_of Scenario.promo1))
    ∧ clicks w' = clicks (Scenario.world_of Scenario.promo1)
    ∧ ∀ env' visit,
        link_lookup_fails env' = false → req_params_slug visit = "promo1" →
        redirectHandler env' visit w' = (Ok (Send 404 "Not found"), w').
Proof.
  apply (deleteLink_removes_the_link Scenario.env0 "1" UpdateScenario.move
           (Scenario.world_of Scenario.promo1) 1 "promo1" Scenario.promo1).
  - reflexivity.
  - vm_compute. reflexivity.
  - apply ids_unique_world_of.
  - split; [vm_compute; reflexivity|]. split; reflexivity.
  - intros c Hc. simpl in Hc. by apply elem_of_nil in Hc.
Defined.

Lemma ids_unique_visited : ids_unique UpdateScenario.visited.
Proof.
  intros k1 k2 r1 r2 H1 H2 _. simpl in H1, H2.
  apply lookup_singleton_Some in H1 as [<- _].
  by apply lookup_singleton_Some in H2 as [<- _].
Qed.

Lemma deleteLink_refuses_a_visited_link_witness :
  ∃ details,
    deleteLink Scenario.env0 "1" UpdateScenario.move UpdateScenario.visited
    = (Ok (SendJson 400 (failed_body "Link deletion failed" details)),
       UpdateScenario.visited).
Proof.
  apply (deleteLink_refuses_a_visited_link Scenario.env0 "1"
           UpdateScenario.move UpdateScenario.visited 1 "promo1"
           Scenario.promo1
           UpdateScenario.visit).
  - reflexivity.
  - vm_compute. reflexivity.
  - apply ids_unique_visited.
  - split; [vm_compute; reflexivity|]. split; reflexivity.
  - simpl. apply list_elem_of_here.
  - reflexivity.
Defined.

Lemma update_and_delete_leave_other_keys_links_witness :
  (links (@updateLink Scenario.toy_bcrypt Scenario.env0 "1"
            UpdateScenario.move_foreign
            (Scenario.world_of Scenario.promo1)).2 !! "promo1"
   = Some Scenario.promo1
   ∧ clicks (@updateLink Scenario.toy_bcrypt Scenario.env0 "1"
               UpdateScenario.move_foreign
               (Scenario.world_of Scenario.promo1)).2
     = clicks (Scenario.world_of Scenario.promo1))
  ∧ (links (deleteLink Scenario.env0 "1" UpdateScenario.move_foreign
              (Scenario.world_of Scenario.promo1)).2 !! "promo1"
     = Some Scenario.promo1
     ∧ clicks (deleteLink Scenario.env0 "1" UpdateScenario.move_foreign
                 (Scenario.world_of Scenario.promo1)).2
       = clicks (Scenario.world_of Scenario.promo1)).
Proof.
  apply (@update_and_delete_leave_other_keys_links Scenario.toy_bcrypt).
  - vm_compute. reflexivity.
  - vm_compute. discriminate.
Defined.

Lemma foreign_id_is_not_found_witness :
  deleteLink Scenario.env0 "1" UpdateScenario.move_foreign
    (Scenario.world_of Scenario.promo1)
  = (Ok (SendJson 404 not_found_body), Scenario.world_of Scenario.promo1)
  ∧ (has_body UpdateScenario.move_foreign →
     hashable (opt_prop (req_body UpdateScenario.move_foreign) "password") →
     updatable Scenario.env0 (req_body UpdateScenario.move_foreign) →
     @updateLink Scenario.toy_bcrypt Scenario.env0 "1"
       UpdateScenario.move_foreign (Scenario.world_of Scenario.promo1)
     = (Ok (SendJson 404 not_found_body),
        Scenario.world_of Scenario.promo1)).
Proof.
  apply (@foreign_id_is_not_found Scenario.toy_bcrypt Scenario.env0 "1"
           UpdateScenario.move_foreign (Scenario.world_of Scenario.promo1) 1).
  - reflexivity.
  - vm_compute. reflexivity.
  - apply owns_none_world_of. vm_compute. discriminate.
Defined.

Lemma non_numeric_id_is_rejected_witness :
  (∃ details,
     deleteLink Scenario.env0 "bulk" UpdateScenario.move
       (Scenario.world_of Scenario.promo1)
     = (Ok (SendJson 400 (failed_body "Link deletion failed" details)),
        Scenario.world_of Scenario.promo1))
  ∧ (has_body UpdateScenario.move →
     hashable (opt_prop (req_body UpdateScenario.move) "password") →
     ∃ details,
       @updateLink Scenario.toy_bcrypt Scenario.env0 "bulk"
         UpdateScenario.move (Scenario.world_of Scenario.promo1)
       = (Ok (SendJson 400 (failed_body "Link update failed" details)),
          Scenario.world_of Scenario.promo1)).
Proof.
  apply (@non_numeric_id_is_rejected Scenario.toy_bcrypt).
  vm_compute. reflexivity.
Defined.
End UpdateDeleteWitnesses.

(** ** middleware/pagination.js *)

Section PaginationFacts.
Local Open Scope Z_scope.

(** X23. For a positive [maxLimit], whatever the query string holds, the
    limit [paginationMiddleware] passes on is an integer from 1 to the
    larger of 10 and [maxLimit]; a missing limit becomes 10, also when
    [maxLimit] is smaller than 10. *)
Theorem pagination_limit_is_within_bounds maxLimit limit offset :
  0 < maxLimit →
  (∃ l, (paginationMiddleware maxLimit limit offset).1 = Fin l
        ∧ 1 ≤ l ≤ Z.max 10 maxLimit)
  ∧ (paginationMiddleware maxLimit None offset).1 = Fin 10.
Proof.
  intros Hmax. split; [|reflexivity].
  unfold paginationMiddleware. cbn [fst].
  destruct (parseInt (query_text limit) (Some 10)) as [|z|[]];
    cbn [isNaN num_le num_gt orb negb].
  - exists 10. split; [done|lia].
  - destruct (z <=? 0) eqn:Hz; [exists 10; split; [done|lia]|].
    destruct (z >? maxLimit) eqn:Hgt.
    + exists maxLimit. split; [done|lia].
    + exists z. split; [done|lia].
  - exists 10. split; [done|lia].
  - exists maxLimit. split; [done|lia].
Qed.

(** X24. The offset [paginationMiddleware] passes on is never negative
    and never [NaN]: it is a non-negative integer or [Infinity], with no
    upper bound; a missing offset becomes 0. *)
Theorem pagination_offset_is_never_negative maxLimit limit offset :
  ((paginationMiddleware maxLimit limit offset).2 = Inf false
   ∨ ∃ o, (paginationMiddleware maxLimit limit offset).2 = Fin o ∧ 0 ≤ o)
  ∧ (paginationMiddleware maxLimit limit None).2 = Fin 0.
Proof.
  split; [|reflexivity].
  unfold paginationMiddleware. cbn [snd].
  destruct (parseInt (query_text offset) (Some 10)) as [|z|[]];
    cbn [isNaN num_lt orb].
  - right. exists 0. split; [done|lia].
  - destruct (z <? 0) eqn:Hz; right.
    + exists 0. split; [done|lia].
    + exists z. split; [done|lia].
  - right. exists 0. split; [done|lia].
  - by left.
Qed.

Lemma pagination_limit_is_within_bounds_witness :
  (∃ l, (paginationMiddleware 20 (Some (QString "1000")) None).1 = Fin l
        ∧ 1 ≤ l ≤ Z.max 10 20)
  ∧ (paginationMiddleware 20 None None).1 = Fin 10.
Proof. apply pagination_limit_is_within_bounds. lia. Defined.
End PaginationFacts.

(** ** link.controller.js: listLinks *)

Section ListFacts.
Local Open Scope Z_scope.
Local Open Scope list_scope.

#[local] Instance newer_link_total : Total newer_link.
Proof. intros a b. unfold newer_link. lia. Qed.

#[local] Instance newer_link_trans : Transitive newer_link.
Proof. intros a b c. unfold newer_link. lia. Qed.

Lemma elem_of_owned_links w k l :
  l ∈ owned_links w k
  ↔ ∃ key, links w !! key = Some l ∧ link_apiKeyId l = k.
Proof.
  unfold owned_links. rewrite merge_sort_Permutation.
  rewrite list_elem_of_In, filter_In, <- list_elem_of_In, Z.eqb_eq.
  rewrite list_elem_of_fmap. split.
  - intros [([key l'] & -> & Hin) Hk]. exists key.
    by apply elem_of_map_to_list in Hin.
  - intros (key & Hl & Hk). split; [|done]. exists (key, l).
    split; [done|]. by apply elem_of_map_to_list.
Qed.

(** X25. [listLinks], given a limit and an offset that are numbers (as
    [paginationMiddleware] assigns them), answers with one page of the
    links of the calling API key and of no other: the links are ordered
    newest first, the page skips [offset] of them and holds at most
    [limit], and [total] counts them all. The store is as before. *)
Theorem listLinks_pages_the_callers_links env req w limit offset :
  link_lookup_fails env = false →
  0 < limit < 2 ^ 63 → 0 ≤ offset < 2 ^ 63 →
  ∃ all,
    listLinks env (QNumber (Fin limit)) (QNumber (Fin offset)) req w
    = (Ok (Listed (take (Z.to_nat limit) (drop (Z.to_nat offset) all))
                  (QNumber (Fin limit)) (QNumber (Fin offset)) (length all)),
       w)
    ∧ StronglySorted newer_link all
    ∧ ∀ l, l ∈ all
           ↔ ∃ key, links w !! key = Some l
                    ∧ link_apiKeyId l = req_apiKey_id req.
Proof.
  intros Hup Hlimit Hoffset. exists (owned_links w (req_apiKey_id req)).
  split; [|split].
  - unfold listLinks, try_catch, bind, link_findMany, link_count, as_count,
      as_int.
    replace ((- 2 ^ 63 <=? limit) && (limit <? 2 ^ 63)) with true
      by (symmetry; apply andb_true_iff; split; lia).
    replace ((- 2 ^ 63 <=? offset) && (offset <? 2 ^ 63)) with true
      by (symmetry; apply andb_true_iff; split; lia).
    replace (offset <? 0) with false by (symmetry; lia).
    rewrite Hup. unfold get, ret, page. cbn [default].
    replace (0 <=? limit) with true by (symmetry; lia). reflexivity.
  - apply (StronglySorted_merge_sort _).
  - intros l. apply elem_of_owned_links.
Qed.
End ListFacts.

Lemma listLinks_pages_the_callers_links_witness :
  ∃ all,
    listLinks Scenario.env0 (QNumber (Fin 20)) (QNumber (Fin 0))
              UpdateScenario.move (Scenario.world_of Scenario.promo1)
    = (Ok (Listed (take (Z.to_nat 20) (drop (Z.to_nat 0) all))
                  (QNumber (Fin 20)) (QNumber (Fin 0)) (length all)),
       Scenario.world_of Scenario.promo1)
    ∧ StronglySorted newer_link all
    ∧ ∀ l, l ∈ all
           ↔ ∃ key, links (Scenario.world_of Scenario.promo1) !! key = Some l
                    ∧ link_apiKeyId l = req_apiKey_id UpdateScenario.move.
Proof.
  apply (listLinks_pages_the_callers_links Scenario.env0 UpdateScenario.move
           (Scenario.world_of Scenario.promo1) 20 0).
  - reflexivity.
  - lia.
  - lia.
Defined.

(** ** link.controller.js: the bulk handlers *)

Section BulkFacts.
Context `{Bcrypt}.
Local Open Scope list_scope.

Lemma find_app_none {A} (p : A → bool) (l1 l2 : list A) :
  List.find p l1 = None → List.find p (l1 ++ l2) = List.find p l2.
Proof.
  induction l1 as [|a l1 IH]; [done|]. simpl. by destruct (p a).
Qed.

Lemma webhookUrl_is_unbound (locals : list (string * value)) :
  List.find (λ b, String.eqb b.1 "webhookUrl") locals = None →
  read_name (locals ++ module_scope) "webhookUrl"
  = inl (ReferenceError "webhookUrl").
Proof.
  intros Hlocals. unfold read_name. by rewrite (find_app_none _ _ _ Hlocals).
Qed.

(** The loop of [bulkCreateLinks] leaves the world as it is, and what
    comes out of it is the array it was entered with, or something
    thrown. *)
Lemma bulk_create_loop_inert env req links createdLinks w :
  ∃ r, bulk_create_loop env req links createdLinks w = (r, w)
       ∧ (r = Ok (inr createdLinks) ∨ (∃ t, r = Ok (inl t))
          ∨ ∃ e, r = Throw e).
Proof.
  induction links as [|linkData rest IH]; [eexists; split; [done|by left]|].
  cbn [bulk_create_loop]. unfold bind at 1, get_prop.
  destruct linkData eqn:Hitem; try (eexists; split; [done|]; right; right;
                                    by eexists).
  all: unfold ret at 1; cbv beta iota.
  all: destruct (negb (truthy _)); [exact IH|].
  all: unfold bind at 1.
  all: match goal with
       | |- context [(if truthy ?p then _ else _) _] =>
         destruct (truthy p);
         [unfold bcrypt_hash_js; destruct p|]
       end.
  all: try (eexists; split; [done|]; right; right; by eexists).
  all: unfold ret at 1; cbv beta iota.
  all: rewrite webhookUrl_is_unbound by reflexivity.
  all: eexists; split; [done|]; right; left; by eexists.
Qed.

(** X26. [bulkCreateLinks] never creates a link. The object it builds for
    [prisma.link.create] names [webhookUrl], which the loop does not bind
    (the item is destructured without it), so the first item with a
    destination ends the loop with a [ReferenceError]. Whatever the
    request and whatever fails, the store is unchanged, and a 200 can
    only carry an empty list. *)
Theorem bulkCreateLinks_never_creates env req links w :
  (bulkCreateLinks env req links w).2 = w
  ∧ ∀ created,
      (bulkCreateLinks env req links w).1 = Ok (BulkCreated created) →
      created = [].
Proof.
  destruct (bulkCreateLinks env req links w) as [res w1] eqn:Hrun.
  cbn [fst snd]. unfold bulkCreateLinks, bind at 1 in Hrun.
  assert (∀ body, (Ok (BulkFailed 400 body), w) = (res, w1) →
          w1 = w ∧ ∀ created, res = Ok (BulkCreated created) → created = [])
    as Hfailed by (intros; simplify_eq; split; [done|]; by intros ? [=]).
  destruct (body_cases req) as [[Hb|Hb]|[Hu Hn]].
  1,2: rewrite Hb in Hrun; unfold get_prop, throw in Hrun; simplify_eq.
  1,2: split; [done|]; by intros ? [=].
  rewrite (get_prop_ok _ _ _ Hu Hn) in Hrun. cbv beta iota in Hrun.
  destruct (missing_or_empty links); [eapply Hfailed; exact Hrun|].
  unfold try_catch, bind at 1 in Hrun.
  destruct (bulk_create_loop_inert env req (items_of links) [] w)
    as (r & Hloop & [->|[[t ->]|[err ->]]]).
  all: rewrite Hloop in Hrun.
  2,3: eapply Hfailed; exact Hrun.
  unfold ret in Hrun. simplify_eq.
  split; [done|]. intros ? ?. by simplify_eq.
Qed.

Lemma bulk_create_loop_skips env req pre rest createdLinks w :
  Forall skipped pre →
  bulk_create_loop env req (pre ++ rest) createdLinks w
  = bulk_create_loop env req rest createdLinks w.
Proof.
  induction 1 as [|item pre (Hu & Hn & Hd) _ IH]; [done|].
  cbn [app bulk_create_loop]. unfold bind at 1.
  rewrite (get_prop_ok _ _ _ Hu Hn). cbv beta iota. by rewrite Hd.
Qed.

(** X27. A bulk creation whose array holds an item with a destination is
    answered 400 [Bulk link creation failed] with the details
    [webhookUrl is not defined]; the items before it that have no
    destination are passed over silently, the items after it are never
    looked at, and nothing is stored. *)
Theorem bulkCreateLinks_fails_at_the_first_destination env req pre item post
    w :
  has_body req →
  Forall skipped pre →
  truthy (opt_prop item "destination") = true →
  hashable (opt_prop item "password") →
  bulkCreateLinks env req (IsArray (pre ++ item :: post)) w
  = (Ok (BulkFailed 400
           (failed_body "Bulk link creation failed"
                             "webhookUrl is not defined")), w).
Proof.
  intros [Hu Hn] Hpre Hdest Hhash.
  unfold bulkCreateLinks, bind at 1. rewrite (get_prop_ok _ _ _ Hu Hn).
  cbv beta iota.
  replace (missing_or_empty (IsArray (pre ++ item :: post))) with false
    by (simpl; rewrite length_app; simpl; symmetry; apply Nat.eqb_neq; lia).
  unfold try_catch, bind at 1. cbn [items_of].
  rewrite (bulk_create_loop_skips _ _ _ _ _ _ Hpre).
  cbn [bulk_create_loop]. unfold bind at 1.
  assert (item ≠ VUndefined ∧ item ≠ VNull) as [Hiu Hin]
    by (split; intros ->; discriminate Hdest).
  rewrite (get_prop_ok _ _ _ Hiu Hin). cbv beta iota. rewrite Hdest.
  cbn [negb]. unfold bind at 1. rewrite (hash_step env _ w Hhash).
  cbv beta iota. rewrite webhookUrl_is_unbound by reflexivity.
  reflexivity.
Qed.

(** X28. [bulkUpdateLinks] cannot succeed: given a body that can be
    read, whatever array it carries, the answer is a 400 and the store is
    unchanged. An empty or
    missing array is refused; otherwise the first item is either
    unreadable, or has a password [bcrypt] refuses, or runs into the
    unbound name [webhookUrl] before [prisma.link.update] is called. *)
Theorem bulkUpdateLinks_always_fails env req updates w :
  has_body req →
  ∃ body, bulkUpdateLinks env req updates w = (Ok (BulkFailed 400 body), w).
Proof.
  intros [Hu Hn]. unfold bulkUpdateLinks, bind at 1.
  rewrite (get_prop_ok _ _ _ Hu Hn). cbv beta iota.
  destruct updates as [[|[id updateData] rest]|v]; try by eexists.
  cbn [missing_or_empty length Nat.eqb items_of].
  unfold try_catch, bind at 1. cbn [bulk_update_loop].
  unfold bind at 1, get_prop.
  destruct updateData; try by eexists.
  all: unfold ret at 1; cbv beta iota; unfold bind at 1.
  all: match goal with
       | |- context [(if truthy ?p then _ else _) _] =>
         destruct (truthy p);
         [unfold bcrypt_hash_js; destruct p|]
       end.
  all: try by eexists.
  all: unfold ret at 1; cbv beta iota.
  all: rewrite webhookUrl_is_unbound by reflexivity.
  all: by eexists.
Qed.
End BulkFacts.

Lemma bulkCreateLinks_fails_at_the_first_destination_witness :
  @bulkCreateLinks Scenario.toy_bcrypt Scenario.env0 UpdateScenario.move
    (IsArray ([UpdateScenario.no_destination]
              ++ UpdateScenario.with_destination :: [VNull])%list)
    Scenario.empty_world
  = (Ok (BulkFailed 400
           (failed_body "Bulk link creation failed"
                        "webhookUrl is not defined")), Scenario.empty_world).
Proof.
  apply (@bulkCreateLinks_fails_at_the_first_destination Scenario.toy_bcrypt).
  - split; discriminate.
  - constructor; [|constructor]. split; [discriminate|].
    split; [discriminate|reflexivity].
  - reflexivity.
  - left. reflexivity.
Defined.

Lemma bulkUpdateLinks_always_fails_witness :
  ∃ body,
    @bulkUpdateLinks Scenario.toy_bcrypt Scenario.env0 UpdateScenario.move
      (IsArray [(Fin 1, UpdateScenario.with_destination)])
      (Scenario.world_of Scenario.promo1)
    = (Ok (BulkFailed 400 body), Scenario.world_of Scenario.promo1).
Proof.
  apply (@bulkUpdateLinks_always_fails Scenario.toy_bcrypt).
  split; discriminate.
Defined.

Section BulkDeleteFacts.
Local Open Scope Z_scope.
Local Open Scope list_scope.

Lemma mapM_as_int_Fin ids :
  Forall fits_int ids →
  mapM as_int (Fin <$> ids) = Some ids.
Proof.
  intros Hids. apply mapM_Some_2.
  induction Hids as [|n ids Hn _ IH]; constructor; [|done].
  unfold fits_int in Hn. unfold as_int.
  replace ((- 2 ^ 63 <=? n) && (n <? 2 ^ 63)) with true; [done|].
  symmetry. apply andb_true_iff. split; lia.
Qed.

Lemma selected_spec ids k l :
  selected ids k l = true ↔ link_id l ∈ ids ∧ link_apiKeyId l = k.
Proof.
  unfold selected. by rewrite andb_true_iff, bool_decide_eq_true, Z.eqb_eq.
Qed.

Lemma filter_length_perm {A} (p : A → bool) (l l' : list A) :
  l ≡ₚ l' → length (List.filter p l) = length (List.filter p l').
Proof.
  induction 1 as [|x l l' _ IH|x y l|l l' l'' _ IH1 _ IH2]; simpl.
  - done.
  - destruct (p x); simpl; by rewrite IH.
  - by destruct (p x), (p y).
  - by rewrite IH1.
Qed.

Lemma selected_count ids k (m : gmap string Link) :
  (length (List.filter (selected ids k) (snd <$> map_to_list m))
   + size (filter (λ kl : string * Link, selected ids k kl.2 = false) m)
   = size m)%nat.
Proof.
  induction m as [|key l m Hfresh IH] using map_ind.
  - by rewrite map_to_list_empty, map_filter_empty, map_size_empty.
  - rewrite (filter_length_perm _ _ (l :: (snd <$> map_to_list m)))
      by (by rewrite map_to_list_insert).
    rewrite map_size_insert_None by done. simpl.
    destruct (selected ids k l) eqn:Hsel.
    + rewrite map_filter_insert_False by (simpl; congruence).
      rewrite delete_id by done. simpl. lia.
    + rewrite map_filter_insert_True by done.
      rewrite map_size_insert_None
        by (apply map_lookup_filter_None; by left).
      lia.
Qed.

(** X29. [bulkDeleteLinks], given a non-empty array of ids none of whose
    links (of the caller) has a click, answers 200 and removes exactly the
    caller's links whose id is listed: every other link, of the caller or
    of anybody else, stays as it was, ids that name nothing are passed
    over, and [deleted] is the number of rows removed. *)
Theorem bulkDeleteLinks_removes_the_callers_listed_links env req ids w :
  has_body req →
  link_insert_fails env = false →
  ids ≠ [] →
  Forall fits_int ids →
  (∀ key l c, links w !! key = Some l → link_id l ∈ ids →
              link_apiKeyId l = req_apiKey_id req →
              c ∈ clicks w → click_linkId c ≠ link_id l) →
  ∃ n w',
    bulkDeleteLinks env req (IsArray (Fin <$> ids)) w
    = (Ok (BulkDeleted n), w')
    ∧ (∀ key l,
         links w' !! key = Some l
         ↔ links w !! key = Some l
           ∧ ¬ (link_id l ∈ ids ∧ link_apiKeyId l = req_apiKey_id req))
    ∧ clicks w' = clicks w
    ∧ (n + size (links w') = size (links w))%nat.
Proof.
  intros [Hu Hn] Hstore Hne Hids Hfresh.
  unfold bulkDeleteLinks, bind at 1. rewrite (get_prop_ok _ _ _ Hu Hn).
  cbv beta iota.
  replace (missing_or_empty (IsArray (Fin <$> ids))) with false
    by (destruct ids; done).
  cbn [items_of]. unfold bind at 1, link_deleteMany, bind at 1, get.
  rewrite (mapM_as_int_Fin _ Hids), Hstore.
  match goal with
  | |- context [existsb ?p (clicks w)] =>
    replace (existsb p (clicks w)) with false
  end.
  2: { symmetry. apply not_true_is_false. intros Hex.
       apply existsb_exists in Hex as (c & Hc & Hex).
       apply existsb_exists in Hex as (l & Hl & Heq).
       apply Z.eqb_eq in Heq. apply filter_In in Hl as [Hl Hsel].
       apply selected_spec in Hsel as [Hid Hk].
       apply list_elem_of_In, list_elem_of_fmap in Hl
         as ([key l'] & -> & Hl).
       apply elem_of_map_to_list in Hl. apply list_elem_of_In in Hc.
       by destruct (Hfresh key l' c). }
  eexists _, _. split; [reflexivity|]. simpl.
  split; [|split; [done|apply selected_count]].
  intros key l. rewrite map_lookup_filter_Some. simpl.
  by rewrite <- selected_spec, not_true_iff_false.
Qed.
End BulkDeleteFacts.

Lemma bulkDeleteLinks_removes_the_callers_listed_links_witness :
  ∃ n w',
    bulkDeleteLinks Scenario.env0 UpdateScenario.move
      (IsArray (Fin <$> [1; 5])) (Scenario.world_of Scenario.promo1)
    = (Ok (BulkDeleted n), w')
    ∧ (∀ key l,
         links w' !! key = Some l
         ↔ links (Scenario.world_of Scenario.promo1) !! key = Some l
           ∧ ¬ (link_id l ∈ [1; 5]
                ∧ link_apiKeyId l = req_apiKey_id UpdateScenario.move))
    ∧ clicks w' = clicks (Scenario.world_of Scenario.promo1)
    ∧ (n + size (links w')
       = size (links (Scenario.world_of Scenario.promo1)))%nat.
Proof.
  apply (bulkDeleteLinks_removes_the_callers_listed_links Scenario.env0
           UpdateScenario.move [1; 5] (Scenario.world_of Scenario.promo1)).
  - split; discriminate.
  - reflexivity.
  - discriminate.
  - repeat constructor; unfold fits_int; lia.
  - intros key l c _ _ _ Hc. simpl in Hc. by apply elem_of_nil in Hc.
Defined.

(** ** server.js: routes *)

Section RouterFacts.
Local Open Scope list_scope.

(** A path that the pattern [/api/links/bulk] matches is one that
    [/api/links/:id] matches too. *)
Lemma bulk_is_an_id path params :
  match_path [Lit "api"; Lit "links"; Lit "bulk"] path = Some params →
  ∃ id, match_path [Lit "api"; Lit "links"; Param "id"] path
        = Some [("id", id)].
Proof.
  destruct path as [|a [|b [|c [|d rest]]]]; cbn [match_path];
    repeat case_match; try done.
  - match goal with
    | Hc : String.eqb c "" = true |- _ => apply String.eqb_eq in Hc; subst c
    end.
    done.
  - intros _. by exists c.
Qed.

(** X30. The route table never hands a request to [bulkUpdateLinks] or
    [bulkDeleteLinks]: [PUT /api/links/:id] and [DELETE /api/links/:id]
    are registered before [PUT /api/links/bulk] and
    [DELETE /api/links/bulk] and match every path those match, so such a
    request goes to [updateLink] or [deleteLink] with the id [bulk]. *)
Theorem bulk_update_and_delete_are_never_dispatched m path handler params :
  dispatch m path = Some (handler, params) →
  handler ≠ "linksController.bulkUpdateLinks"
  ∧ handler ≠ "linksController.bulkDeleteLinks".
Proof.
  unfold dispatch, routes. intros Hd.
  destruct m; cbn [first_match method_eqb] in Hd.
  all: repeat match type of Hd with
       | match ?x with _ => _ end = _ =>
         let E := fresh "E" in destruct x eqn:E
       end; simplify_eq; try (split; discriminate).
  all: match goal with
       | E : match_path [Lit "api"; Lit "links"; Lit "bulk"] _ = Some _ |- _ =>
         apply bulk_is_an_id in E as [? ?]; congruence
       end.
Qed.
End RouterFacts.

Lemma bulk_update_and_delete_are_never_dispatched_witness :
  dispatch PUT ["api"; "links"; "bulk"]
  = Some ("linksController.updateLink", [("id", "bulk")])
  ∧ "linksController.updateLink" ≠ "linksController.bulkUpdateLinks"
  ∧ "linksController.updateLink" ≠ "linksController.bulkDeleteLinks".
Proof.
  split; [reflexivity|].
  apply (bulk_update_and_delete_are_never_dispatched
           PUT ["api"; "links"; "bulk"] "linksController.updateLink"
           [("id", "bulk")]).
  reflexivity.
Defined.
